(** * Versioning score of openteams-score: a shallow embedding

    The development follows [src/versioning/versioning.py] and the two
    helpers of [src/utils.py] it calls ([logscale], [s_shape], [date2days]).

    - Python [str] values are [string]s (the UTF-8 bytes: splitting on the
      dot and the code-point order of [<] and [>] are the same on bytes).
    - Python [float]s and NumPy [float64]s are Rocq's primitive binary64
      floats, so [nan], the infinities and the comparisons behave as in the
      program.
    - A pandas [Timestamp] is its nanosecond count, [NaT] is [None].
    - A raised exception ([KeyError], [IndexError], an overflow) is [None].
    - Library calls are modelled by their documented result: [np.round] as
      multiply, [rint], divide; [np.nanmean] as the mean of the entries that
      are not nan, added from left to right; [Timedelta.total_seconds] as
      the nanosecond count over 1e9.  [np.log], scipy's [zscore] and pandas'
      [sort_values] are parameters of the methods that call them. *)

From Stdlib Require Import ZArith List String Ascii Bool Lia.
From Stdlib Require Import Floats Uint63.
From stdpp Require Import base option list gmap strings.

Local Open Scope string_scope.
Local Open Scope list_scope.

(** ** Python strings *)

Module PyStr.

(** [s.split(sep)] for a one-character separator: never empty, the empty
    string gives one empty part. *)
Fixpoint split (sep : ascii) (s : string) : list string :=
  match s with
  | EmptyString => [EmptyString]
  | String c r =>
      if Ascii.eqb c sep then EmptyString :: split sep r
      else match split sep r with
           | h :: t => String c h :: t
           | [] => [String c EmptyString]
           end
  end.

(** [sep.join(parts)] *)
Definition join (sep : string) (parts : list string) : string :=
  String.concat sep parts.

(** [pat in s]: [pat] occurs in [s] at some position. *)
Fixpoint contains (pat s : string) : bool :=
  String.prefix pat s ||
  match s with
  | EmptyString => false
  | String _ r => contains pat r
  end.

(** [re.search("p1|p2|...", s)] for literal alternatives. *)
Definition search_any (pats : list string) (s : string) : bool :=
  existsb (fun p => contains p s) pats.

(** [a > b] and [a != b] on strings. *)
Definition gt (a b : string) : bool := String.ltb b a.
Definition ne (a b : string) : bool := negb (String.eqb a b).

(** No dot (separator) inside a part. *)
Fixpoint free_of (sep : ascii) (s : string) : bool :=
  match s with
  | EmptyString => true
  | String c r => negb (Ascii.eqb c sep) && free_of sep r
  end.

End PyStr.

Definition dot : ascii := "."%char.

(** ** The release kinds and the rows of the version frame *)

Inductive Release : Type := MAJOR | MINOR | PATCH | OTHER | FIRST.

(** [Release.X.value] *)
Definition Release_value (r : Release) : Z :=
  match r with MAJOR => 4 | MINOR => 3 | PATCH => 2 | OTHER => 1 | FIRST => 0 end.

(** A timestamp: nanoseconds since the epoch, [None] for [NaT]. *)
Definition Timestamp : Type := option Z.

(** One row of [self.version], with the columns the class reads. *)
Record VersionRow : Type := mkRow {
  repository_id : Z;
  number : string;
  published_at : Timestamp;
}.

(** A date item [(date, version_type, version_num)]. *)
Definition Event : Type := (Timestamp * Release * string)%type.

Definition ev_date (e : Event) : Timestamp := e.1.1.
Definition ev_type (e : Event) : Release := e.1.2.
Definition ev_num (e : Event) : string := e.2.

(** ** [_clean_version_data] *)

Definition prerelease_markers : list string := ["rc"; "dev"; "nightly"].

Definition is_prerelease (r : VersionRow) : bool :=
  PyStr.search_any prerelease_markers (number r).

Definition _clean_version_data (version : list VersionRow) : list VersionRow :=
  let cleaned_version := filter (fun r => is_prerelease r = false) version in
  if Nat.ltb 0 (length cleaned_version) then cleaned_version else version.

(** ** [_split_version_num] and [_find_version_type] *)

Definition StructuralVersion : Type := (string * string * string)%type.

Definition _split_version_num (num : string) : option StructuralVersion :=
  let num_parts := PyStr.split dot num in
  let num_parts := num_parts ++ replicate (3 - length num_parts) "0" in
  p0 ← num_parts !! 0%nat;
  p1 ← num_parts !! 1%nat;
  Some (p0, p1, PyStr.join "." (drop 2 num_parts)).

Definition _find_version_type (prev_num_parts curr_num_parts : StructuralVersion)
  : Release :=
  let '(p0, p1, p2) := prev_num_parts in
  let '(c0, c1, c2) := curr_num_parts in
  if PyStr.ne p0 c0 then MAJOR
  else if PyStr.ne p1 c1 then MINOR
  else if PyStr.ne p2 c2 then PATCH
  else FIRST.

(** ** The state of a [Versioning] object and its methods' effects *)

(** [self.versioning] is kept as its key rows (repository id, updated_at)
    and its float columns by name; every column has one entry per row. *)
Record Versioning : Type := mkVersioning {
  version : list VersionRow;
  versioning : list (Z * Timestamp);
  columns : gmap string (list float);
  date_series : gmap Z (list Event);
  parallel_date_series : gmap Z (list (string * list Event));
}.

(** A method body: reads and updates the object, or raises. *)
Definition Py (A : Type) : Type := Versioning -> option (A * Versioning).

#[global] Instance Py_ret : MRet Py := fun A x st => Some (x, st).
#[global] Instance Py_bind : MBind Py := fun A B k m st =>
  match m st with
  | Some (x, st') => k x st'
  | None => None
  end.

Definition lift {A : Type} (o : option A) : Py A :=
  fun st => match o with Some x => Some (x, st) | None => None end.

Definition gets {A : Type} (f : Versioning -> A) : Py A :=
  fun st => Some (f st, st).

Definition modify (f : Versioning -> Versioning) : Py unit :=
  fun st => Some (tt, f st).

(** [for x in l: body(x)] *)
Fixpoint for_each {A : Type} (l : list A) (body : A -> Py unit) : Py unit :=
  match l with
  | [] => mret tt
  | x :: r => _ ← body x; for_each r body
  end.

(** [[f(x) for x in l]] *)
Fixpoint comprehension {A B : Type} (l : list A) (f : A -> Py B) : Py (list B) :=
  match l with
  | [] => mret []
  | x :: r => y ← f x; ys ← comprehension r f; mret (y :: ys)
  end.

Definition set_date_series (id : Z) (l : list Event) (st : Versioning) : Versioning :=
  mkVersioning (version st) (versioning st) (columns st)
    (<[id := l]> (date_series st)) (parallel_date_series st).

Definition set_parallel_date_series (id : Z) (l : list (string * list Event))
    (st : Versioning) : Versioning :=
  mkVersioning (version st) (versioning st) (columns st)
    (date_series st) (<[id := l]> (parallel_date_series st)).

Definition set_columns (c : gmap string (list float)) (st : Versioning) : Versioning :=
  mkVersioning (version st) (versioning st) c
    (date_series st) (parallel_date_series st).

(** [self.date_series[repo_id]] *)
Definition get_date_series (repo_id : Z) : Py (list Event) :=
  fun st => match date_series st !! repo_id with
            | Some l => Some (l, st)
            | None => None
            end.

Definition get_parallel_date_series (repo_id : Z) : Py (list (string * list Event)) :=
  fun st => match parallel_date_series st !! repo_id with
            | Some l => Some (l, st)
            | None => None
            end.

(** ** Building the date series *)

(** [repo_versions.loc[repo_versions.number == version_num, "published_at"].iloc[0]] *)
Definition first_published_at (repo_versions : list VersionRow) (version_num : string)
  : option Timestamp :=
  published_at <$> head (filter (fun r => number r = version_num) repo_versions).

Definition _update_series (repo_versions : list VersionRow) (version_num : string)
    (version_type : Release) : Py unit :=
  date ← lift (first_published_at repo_versions version_num);
  repo_id ← lift (repository_id <$> repo_versions !! 0%nat);
  let date_item : Event := (date, version_type, version_num) in
  series ← get_date_series repo_id;
  modify (set_date_series repo_id (series ++ [date_item])).

(** [date[2].split(".")[0]]; [split] never returns an empty list. *)
Definition major_token (version_num : string) : string :=
  match PyStr.split dot version_num with
  | h :: _ => h
  | [] => ""
  end.

(** [list(set(majors))]: the distinct tokens, in the set's own order. *)
Definition list_set (majors : list string) : list string :=
  elements (list_to_set majors : gset string).

(** The loop of [check_parallel_versions] over [majors[i], majors[i + 1]]. *)
Fixpoint check_parallel_loop (all rest : list string) (n_occurrences : nat)
  : bool * list string :=
  match rest with
  | a :: ((b :: _) as tl) =>
      if PyStr.gt a b then
        let n_occurrences := S n_occurrences in
        if (3 <=? n_occurrences)%nat then (true, list_set all)
        else check_parallel_loop all tl n_occurrences
      else check_parallel_loop all tl n_occurrences
  | _ => (false, [])
  end.

Definition check_parallel_versions (date_series : list Event) : bool * list string :=
  let majors := map (fun date => major_token (ev_num date)) date_series in
  check_parallel_loop majors majors 0.

(** [sorted(d.items())] for a dict with string keys: by key, ascending. *)
Fixpoint insert_item {V : Type} (x : string * V) (l : list (string * V))
  : list (string * V) :=
  match l with
  | [] => [x]
  | y :: r => if String.leb x.1 y.1 then x :: y :: r else y :: insert_item x r
  end.

Definition sorted_items {V : Type} (d : gmap string V) : list (string * V) :=
  foldr insert_item [] (map_to_list d).

(** The loop of [track_parallel_versions]: [d[major_num] += [elt]]. *)
Fixpoint track_parallel_loop (d : gmap string (list Event)) (date_series : list Event)
  : option (gmap string (list Event)) :=
  match date_series with
  | [] => Some d
  | elt :: rest =>
      let major_num := major_token (ev_num elt) in
      group ← d !! major_num;
      track_parallel_loop (<[major_num := group ++ [elt]]> d) rest
  end.

Definition track_parallel_versions (date_series : list Event)
    (major_versions : list string) : option (list (string * list Event)) :=
  let parallel_version_date_series : gmap string (list Event) :=
    list_to_map (map (fun k => (k, [])) major_versions) in
  d ← track_parallel_loop parallel_version_date_series date_series;
  Some (sorted_items d).

(** The loop of [_build_series] over [repo_versions.number]. *)
Fixpoint _build_series_loop (repo_versions : list VersionRow)
    (prev_num_parts : StructuralVersion) (numbers : list string) : Py unit :=
  match numbers with
  | [] => mret tt
  | curr_num :: rest =>
      curr_num_parts ← lift (_split_version_num curr_num);
      let version_type := _find_version_type prev_num_parts curr_num_parts in
      _ ← _update_series repo_versions curr_num version_type;
      _build_series_loop repo_versions curr_num_parts rest
  end.

Definition _build_series (repo_versions : list VersionRow) (id : Z) : Py unit :=
  _ ← modify (set_date_series id []);
  _ ← modify (set_parallel_date_series id []);
  first ← lift (repo_versions !! 0%nat);
  prev_num_parts ← lift (_split_version_num (number first));
  _ ← _build_series_loop repo_versions prev_num_parts (map number repo_versions);
  series ← get_date_series id;
  let '(has_parallel_versions, major_nums) := check_parallel_versions series in
  if has_parallel_versions then
    tracked ← lift (track_parallel_versions series major_nums);
    modify (set_parallel_date_series id tracked)
  else mret tt.

(** ** NumPy and pandas operations on floats *)

Module Np.

Definition isnan (x : float) : bool := PrimFloat.is_nan x.

(** An integer below 2^63 in absolute value as a float. *)
Definition of_Z (z : Z) : float :=
  match z with
  | Z0 => 0%float
  | Zpos _ => PrimFloat.of_uint63 (Uint63.of_Z z)
  | Zneg _ => (- PrimFloat.of_uint63 (Uint63.of_Z (- z)))%float
  end.

Definition of_nat (n : nat) : float := of_Z (Z.of_nat n).

(** [b.astype(int)] used in float arithmetic. *)
Definition of_bool (b : bool) : float := if b then 1%float else 0%float.

(** [np.rint]: to the nearest integer, ties to even.  Below 2^52 adding
    and removing 2^52 rounds to an integer; from 2^52 on every float is
    one. *)
Definition rint_abs (y : float) : float :=
  if PrimFloat.ltb y 0x1p52%float
  then (y + 0x1p52 - 0x1p52)%float
  else y.

Definition rint (x : float) : float :=
  if PrimFloat.eqb x 0 then x
  else if PrimFloat.ltb x 0 then (- rint_abs (- x))%float
  else rint_abs x.

(** [np.round(x, 2)]: multiply by 100, [rint], divide by 100. *)
Definition round2 (x : float) : float := (rint (x * 100) / 100)%float.

Definition nan_to_zero (x : float) : float := if isnan x then 0%float else x.

(** One row of [np.nansum([a, b, c], axis=0)]. *)
Definition nansum3 (a b c : float) : float :=
  (nan_to_zero a + nan_to_zero b + nan_to_zero c)%float.

(** Python's [sum(l)], which starts from 0. *)
Definition sum (l : list float) : float := fold_left PrimFloat.add l 0%float.

(** [np.nanmean(v)]: the mean of the entries that are not nan; nan when
    there is none (0/0).  The entries are added from left to right. *)
Definition nanmean (v : list float) : float :=
  let defined := filter (fun x => isnan x = false) v in
  (sum defined / of_nat (length defined))%float.

End Np.

(** ** [utils.py] *)

Definition s_shape (x : float) : float := (x / (1 + x))%float.

(** A [Timedelta]: nanoseconds, [None] for [NaT]. *)
Definition Timedelta : Type := option Z.

(** [a - b] on timestamps: [NaT] when one side is, an overflow error when
    the difference leaves the 64-bit range. *)
Definition ts_sub (a b : Timestamp) : option Timedelta :=
  match a, b with
  | Some x, Some y =>
      let d := (x - y)%Z in
      if ((- 2 ^ 63 <? d) && (d <? 2 ^ 63))%Z then Some (Some d) else None
  | _, _ => Some None
  end.

(** [date.total_seconds() / (3600 * 24)] *)
Definition date2days (date : Timedelta) : float :=
  match date with
  | Some ns => (Np.of_Z ns / 1000000000 / 86400)%float
  | None => nan
  end.

(** [select_columns]: the columns that go into the JSON of a component. *)

(** [cols.remove(c)]: without the first occurrence of [c], [None] for the
    [ValueError] when there is none. *)
Fixpoint list_remove (c : string) (cols : list string) : option (list string) :=
  match cols with
  | [] => None
  | x :: rest =>
      if String.eqb x c then Some rest
      else match list_remove c rest with
           | Some rest' => Some (x :: rest')
           | None => None
           end
  end.

Definition unused_cols : list string :=
  [ "project_id"; "repository_id"; "project_name"; "full_name"; "platform";
    "rank"; "score"; "updated_at"; "name"; "weighted_count"; "weighted_meantime";
    "weighted_freq"; "major_freq"; "repository_url"; "security_score";
    "homepage"; "has_readme"; "has_contributing"; "score_last_calculated" ].

Definition select_columns (columns : list string) : list string :=
  let cols := filter (fun c => PyStr.contains "zscore" c = false) columns in
  fold_left (fun cols c => match list_remove c cols with
                           | Some cols' => cols'
                           | None => cols
                           end) unused_cols cols.

(** ** [none_nat2nan] *)

Definition none_nat2nan (x : float) : float :=
  if Np.isnan x || PrimFloat.eqb x 0 then nan else x.

(** ** Delta times inside one major version: [_get_minor_patch_deltatimes] *)

(** The loop variables after the first element. *)
Record MinorPatchWalk : Type := mkWalk {
  prev_minor_date : Timestamp;
  prev_patch_date : Timestamp;
  prev_num_parts : StructuralVersion;
  minors : list float;
  patches : list float;
}.

(** The body of the loop for [i > 0]. *)
Definition _get_minor_patch_step (w : MinorPatchWalk) (elt : Event)
  : option MinorPatchWalk :=
  let '(date, _, version_num) := elt in
  num_parts ← _split_version_num version_num;
  if PyStr.gt num_parts.1.2 (prev_num_parts w).1.2 then
    d ← ts_sub date (prev_minor_date w);
    Some (mkWalk date date (prev_num_parts w)
                 (minors w ++ [none_nat2nan (date2days d)]) (patches w))
  else if PyStr.gt num_parts.2 (prev_num_parts w).2 then
    d ← ts_sub date (prev_patch_date w);
    Some (mkWalk (prev_minor_date w) date (prev_num_parts w)
                 (minors w) (patches w ++ [none_nat2nan (date2days d)]))
  else Some w.

Fixpoint _get_minor_patch_loop (w : MinorPatchWalk) (rest : list Event)
  : option MinorPatchWalk :=
  match rest with
  | [] => Some w
  | elt :: rest' =>
      w' ← _get_minor_patch_step w elt;
      _get_minor_patch_loop w' rest'
  end.

Definition _get_minor_patch_deltatimes (major_date_series : list Event)
  : option (list float * list float) :=
  match major_date_series with
  | [] => Some ([], [])
  | elt :: rest =>
      let '(date, _, version_num) := elt in
      num_parts ← _split_version_num version_num;
      w ← _get_minor_patch_loop (mkWalk date date num_parts [] []) rest;
      Some (minors w, patches w)
  end.

(** ** Delta times of a project *)

Definition Buckets : Type := (list float * list float * list float)%type.

(** The loop of [_build_parallel_deltatime_series]; [prev_date] is [None]
    before the first group ([i = 0]). *)
Fixpoint _build_parallel_loop (prev_date : option Timestamp) (acc : Buckets)
    (date_series : list (string * list Event)) : option Buckets :=
  match date_series with
  | [] => Some acc
  | (major_num, group) :: rest =>
      let '(majors, minors, patches) := acc in
      first ← group !! 0%nat;
      majors ← match prev_date with
               | Some prev =>
                   deltatime ← ts_sub (ev_date first) prev;
                   Some (majors ++ [none_nat2nan (date2days deltatime)])
               | None => Some majors
               end;
      '(repo_id_minors, repo_id_patches) ← _get_minor_patch_deltatimes group;
      _build_parallel_loop (Some (ev_date first))
        (majors, minors ++ repo_id_minors, patches ++ repo_id_patches) rest
  end.

(** The loop of [_build_deltatime_series] for a project without parallel
    versions. *)
Fixpoint _build_deltatime_loop (prev_date : option Timestamp) (acc : Buckets)
    (date_series : list Event) : option Buckets :=
  match date_series with
  | [] => Some acc
  | date :: rest =>
      let '(majors, minors, patches) := acc in
      acc' ← match prev_date with
             | Some prev =>
                 d ← ts_sub (ev_date date) prev;
                 let deltatime := none_nat2nan (date2days d) in
                 Some (match ev_type date with
                       | MAJOR => (majors ++ [deltatime], minors, patches)
                       | MINOR => (majors, minors ++ [deltatime], patches)
                       | PATCH => (majors, minors, patches ++ [deltatime])
                       | _ => acc
                       end)
             | None => Some acc
             end;
      _build_deltatime_loop (Some (ev_date date)) acc' rest
  end.

Definition _build_parallel_deltatime_series (repo_id : Z) : Py Buckets :=
  date_series ← get_parallel_date_series repo_id;
  lift (_build_parallel_loop None ([], [], []) date_series).

Definition _build_deltatime_series (repo_id : Z) : Py Buckets :=
  parallel ← get_parallel_date_series repo_id;
  if (0 <? length parallel)%nat then _build_parallel_deltatime_series repo_id
  else
    date_series ← get_date_series repo_id;
    lift (_build_deltatime_loop None ([], [], []) date_series).

(** ** The columns of [self.versioning] *)

Definition nrows (st : Versioning) : nat := length (versioning st).

(** [self.versioning[name]] *)
Definition get_col (name : string) : Py (list float) :=
  fun st => match columns st !! name with
            | Some c => Some (c, st)
            | None => None
            end.

(** [name in self.versioning.columns] *)
Definition has_col (name : string) : Py bool :=
  fun st => Some (bool_decide (is_Some (columns st !! name)), st).

(** [self.versioning[name] = v] for an array: one entry per row. *)
Definition set_col (name : string) (v : list float) : Py unit :=
  fun st => if (length v =? nrows st)%nat
            then Some (tt, set_columns (<[name := v]> (columns st)) st)
            else None.

(** [self.versioning[name] = x] for a scalar. *)
Definition set_col_scalar (name : string) (x : float) : Py unit :=
  modify (fun st => set_columns (<[name := replicate (nrows st) x]> (columns st)) st).

(** [self.versioning.loc[self.versioning.repository_id == repo_id, name] = x];
    a column that does not exist yet is created with nan elsewhere. *)
Definition loc_set (repo_id : Z) (name : string) (x : float) : Py unit :=
  modify (fun st =>
    let old := default (replicate (nrows st) nan) (columns st !! name) in
    let new := zip_with (fun (row : Z * Timestamp) o =>
                           if (row.1 =? repo_id)%Z then x else o)
                        (versioning st) old in
    set_columns (<[name := new]> (columns st)) st).

(** The mean of one bucket of delta times in [_meantime_weighted_sum]. *)
Definition bucket_mean (v : list float) : float :=
  if (0 <? length v)%nat then Np.round2 (Np.nanmean v) else nan.

(** One entry of [components] in [_meantime_weighted_sum]. *)
Definition component (w mean : float) : float :=
  if negb (Np.isnan mean || PrimFloat.eqb mean 0) then (w / mean)%float
  else 0%float.

(** The loop of [_num_versions_weighted_sum]. *)
Definition count_release (acc : nat * nat * nat) (date : Event) : nat * nat * nat :=
  let '(majors, minors, patches) := acc in
  match ev_type date with
  | MAJOR => (S majors, minors, patches)
  | MINOR => (majors, S minors, patches)
  | PATCH => (majors, minors, S patches)
  | _ => acc
  end.

(** The denominator [n] of [score] on one row. *)
Definition score_n (weighted_meantime weighted_freq : float) : float :=
  (3 - Np.of_bool (PrimFloat.eqb weighted_meantime 0)
     - Np.of_bool (PrimFloat.eqb weighted_freq 0))%float.

(** One row of [score]. *)
Definition score_row (weighted_count weighted_meantime weighted_freq n : float)
  : float :=
  Np.round2 (100 * Np.nansum3 weighted_count weighted_meantime weighted_freq / n)%float.

(** The rows of [score] from the three sub-score columns. *)
Definition score_rows (a b c : list float) : list float :=
  zip_with (fun (abc : float * float * float) n =>
              score_row abc.1.1 abc.1.2 abc.2 n)
           (zip (zip a b) c) (zip_with score_n b c).

Definition get_json_cols : list string :=
  [ "major_meantime"; "minor_meantime"; "patch_meantime";
    "major_count"; "minor_count"; "patch_count";
    "major_freq"; "minor_freq"; "patch_freq";
    "versioning_openteams_score" ].

(** ** The scoring methods *)

Section Scoring.

(** [np.log], [scipy.stats.zscore(_, nan_policy="omit")] on a column and
    [DataFrame.sort_values(by="published_at", ascending=True)] belong to
    the libraries: the methods below take them as given. *)
Variable np_log : float -> float.
Variable zscore : list float -> list float.
Variable sort_values : list VersionRow -> list VersionRow.

Definition logscale (x : float) : float := np_log (1 + x)%float.

Definition _set_version_series : Py unit :=
  _ ← modify (fun st => mkVersioning (version st) (versioning st) (columns st) ∅ ∅);
  rows ← gets versioning;
  for_each (map fst rows) (fun id =>
    version ← gets version;
    let repo_versions :=
      sort_values (filter (fun r => repository_id r = id) version) in
    let repo_versions := _clean_version_data repo_versions in
    _build_series repo_versions id).

Definition _num_versions_weighted_sum (repo_id : Z) : Py float :=
  series ← get_date_series repo_id;
  let '(majors, minors, patches) := foldl count_release (0, 0, 0)%nat series in
  _ ← loc_set repo_id "major_count" (Np.of_nat majors);
  _ ← loc_set repo_id "minor_count" (Np.of_nat minors);
  _ ← loc_set repo_id "patch_count" (Np.of_nat patches);
  mret (Np.of_nat (5 * majors + 2 * minors + patches) / 8)%float.

Definition number_version_score : Py (list float) :=
  _ ← set_col_scalar "major_count" 0;
  _ ← set_col_scalar "minor_count" 0;
  _ ← set_col_scalar "patch_count" 0;
  rows ← gets versioning;
  scores ← comprehension (map fst rows) _num_versions_weighted_sum;
  let scores := map (fun x => Np.round2 (s_shape (logscale x))) scores in
  _ ← set_col "weighted_count" scores;
  get_col "weighted_count".

Definition _meantime_weighted_sum (repo_id : Z) : Py float :=
  series ← get_date_series repo_id;
  if (length series <? 2)%nat then mret 0%float
  else
    '(majors, minors, patches) ← _build_deltatime_series repo_id;
    let mean0 := bucket_mean majors in
    let mean1 := bucket_mean minors in
    let mean2 := bucket_mean patches in
    _ ← loc_set repo_id "major_meantime" mean0;
    _ ← loc_set repo_id "minor_meantime" mean1;
    _ ← loc_set repo_id "patch_meantime" mean2;
    let components := [component 6 mean0; component 4 mean1; component 2 mean2] in
    let res := s_shape (logscale (Np.sum components)) in
    mret (Np.round2 res).

Definition version_meantime_score : Py (list float) :=
  _ ← set_col_scalar "major_meantime" 0;
  _ ← set_col_scalar "minor_meantime" 0;
  _ ← set_col_scalar "patch_meantime" 0;
  rows ← gets versioning;
  scores ← comprehension (map fst rows) _meantime_weighted_sum;
  _ ← set_col "weighted_meantime" scores;
  get_col "weighted_meantime".

(** [get_age] in [version_frequency]. *)
Definition get_age (row : Z * Timestamp) : Py float :=
  series ← get_date_series row.1;
  first ← lift (series !! 0%nat);
  d ← lift (ts_sub row.2 (ev_date first));
  mret (date2days d).

Definition version_frequency : Py (list float) :=
  has_weighted_count ← has_col "weighted_count";
  _ ← (if negb has_weighted_count then _ ← number_version_score; mret tt
       else mret tt);
  rows ← gets versioning;
  ages ← comprehension rows get_age;
  major_count ← get_col "major_count";
  _ ← set_col "major_freq"
        (zip_with (fun c a => Np.round2 (c / (a / 365))) major_count ages);
  minor_count ← get_col "minor_count";
  _ ← set_col "minor_freq"
        (zip_with (fun c a => Np.round2 (c / (a / (365 / 3)))) minor_count ages);
  patch_count ← get_col "patch_count";
  _ ← set_col "patch_freq"
        (zip_with (fun c a => Np.round2 (c / (a / (365 / 18)))) patch_count ages);
  minor_freq ← get_col "minor_freq";
  patch_freq ← get_col "patch_freq";
  let res := zip_with (fun a b => s_shape (logscale (a + b))) minor_freq patch_freq in
  _ ← set_col "weighted_freq" (map Np.round2 res);
  get_col "weighted_freq".

Definition score : Py (list float) :=
  _ ← number_version_score;
  _ ← version_meantime_score;
  _ ← version_frequency;
  weighted_meantime ← get_col "weighted_meantime";
  weighted_freq ← get_col "weighted_freq";
  let n := zip_with score_n weighted_meantime weighted_freq in
  a ← number_version_score;
  b ← version_meantime_score;
  c ← version_frequency;
  let score := zip_with (fun abc n => score_row abc.1.1 abc.1.2 abc.2 n)
                        (zip (zip a b) c) n in
  _ ← set_col "versioning_openteams_score" score;
  mret score.

Definition compute_component_zscores : Py unit :=
  for_each get_json_cols (fun col =>
    column ← get_col col;
    let zscore_ := map Np.round2 (zscore column) in
    set_col (col +:+ "_zscore") zscore_).

End Scoring.

(** * Notions used to state the properties *)

(** ** Tokens, series and gaps *)

(** The number of strict decreases between consecutive tokens. *)
Fixpoint n_decreases (majors : list string) : nat :=
  match majors with
  | a :: ((b :: _) as tl) => (if PyStr.gt a b then 1 else 0) + n_decreases tl
  | _ => 0
  end.

(** Every token is strictly below the next one. *)
Definition strictly_increasing (majors : list string) : Prop :=
  forall (i : nat) (a b : string),
    majors !! i = Some a -> majors !! S i = Some b -> String.ltb a b = true.

(** What one event of the series looks like for the version string [v]. *)
Definition event_of (repo_versions : list VersionRow) (v : string) (e : Event) : Prop :=
  exists (kind : Release) (d : Timestamp),
    e = (d, kind, v) /\ first_published_at repo_versions v = Some d.

(** The loop body of the walk inside one major version as the specification
    words it: the slots are compared with those of the previous event of
    the group; a greater minor slot closes a minor gap from the previous
    minor-transition date, a greater patch slot closes a patch gap from the
    previous patch-transition date, each resetting its own reference date. *)
Definition spec_minor_patch_step (w : MinorPatchWalk) (elt : Event)
  : option MinorPatchWalk :=
  let '(date, _, version_num) := elt in
  num_parts ← _split_version_num version_num;
  '(minor_date, minors') ←
    (if PyStr.gt num_parts.1.2 (prev_num_parts w).1.2 then
       d ← ts_sub date (prev_minor_date w);
       Some (date, minors w ++ [none_nat2nan (date2days d)])
     else Some (prev_minor_date w, minors w));
  '(patch_date, patches') ←
    (if PyStr.gt num_parts.2 (prev_num_parts w).2 then
       d ← ts_sub date (prev_patch_date w);
       Some (date, patches w ++ [none_nat2nan (date2days d)])
     else Some (prev_patch_date w, patches w));
  Some (mkWalk minor_date patch_date num_parts minors' patches').

Fixpoint spec_minor_patch_loop (w : MinorPatchWalk) (rest : list Event)
  : option MinorPatchWalk :=
  match rest with
  | [] => Some w
  | elt :: rest' =>
      w' ← spec_minor_patch_step w elt;
      spec_minor_patch_loop w' rest'
  end.

Definition spec_minor_patch_deltatimes (major_date_series : list Event)
  : option (list float * list float) :=
  match major_date_series with
  | [] => Some ([], [])
  | elt :: rest =>
      let '(date, _, version_num) := elt in
      num_parts ← _split_version_num version_num;
      w ← spec_minor_patch_loop (mkWalk date date num_parts [] []) rest;
      Some (minors w, patches w)
  end.

(** A delta time that is unknown, and one that is a defined, non-zero gap. *)
Definition unknown (x : float) : Prop := Np.isnan x = true.

Definition defined_gap (x : float) : Prop :=
  Np.isnan x = false /\ PrimFloat.eqb x 0 = false.

Definition gap_entry (x : float) : Prop := unknown x \/ defined_gap x.

Definition buckets_entries (b : Buckets) : Prop :=
  Forall gap_entry b.1.1 /\ Forall gap_entry b.1.2 /\ Forall gap_entry b.2.

(** The rows of a project as [_set_version_series] passes them to
    [_build_series]. *)
Definition rows_for_series (sort_values : list VersionRow -> list VersionRow)
    (version : list VersionRow) (id : Z) : list VersionRow :=
  _clean_version_data
    (sort_values (filter (fun r => repository_id r = id) version)).

(** The name of the z-score column of [col]. *)
Definition zscore_col (col : string) : string := col +:+ "_zscore".

(** ** How a method uses the object *)

(** Two objects with the same frames and series. *)
Definition frozen_eq (s t : Versioning) : Prop :=
  version s = version t /\ versioning s = versioning t /\
  date_series s = date_series t /\
  parallel_date_series s = parallel_date_series t.

(** ... that also agree on the columns named in [K]. *)
Definition agree (K : list string) (s t : Versioning) : Prop :=
  frozen_eq s t /\ forall k : string, k ∈ K -> columns s !! k = columns t !! k.

Definition same_result {A : Type} (K : list string)
    (r1 r2 : option (A * Versioning)) : Prop :=
  match r1, r2 with
  | Some (x, s'), Some (y, t') => x = y /\ agree K s' t'
  | None, None => True
  | _, _ => False
  end.

(** [m] reads no column outside [K]: from objects that agree on [K] it
    returns the same value (or fails in both) and leaves objects that agree
    on [K']. *)
Definition respects {A : Type} (K K' : list string) (m : Py A) : Prop :=
  forall s t : Versioning, agree K s t -> same_result K' (m s) (m t).

(** [m] changes no frame or series, and no column outside [W]. *)
Definition writes {A : Type} (W : list string) (m : Py A) : Prop :=
  forall (s s' : Versioning) (x : A),
    m s = Some (x, s') ->
    frozen_eq s s' /\ forall k : string, k ∉ W -> columns s' !! k = columns s !! k.

Definition method {A : Type} (K K' W : list string) (m : Py A) : Prop :=
  respects K K' m /\ writes W m.

(** [m] returns the column [k] of the object it leaves, one entry per row. *)
Definition returns_col (k : string) (m : Py (list float)) : Prop :=
  forall (s s' : Versioning) (x : list float),
    m s = Some (x, s') -> columns s' !! k = Some x /\ length x = nrows s'.

(** The columns written by the three sub-score methods. *)
Definition count_cols : list string :=
  ["weighted_count"; "patch_count"; "minor_count"; "major_count"].

Definition meantime_cols : list string :=
  ["weighted_meantime"; "patch_meantime"; "minor_meantime"; "major_meantime"].

Definition freq_cols : list string :=
  ["weighted_freq"; "patch_freq"; "minor_freq"; "major_freq"].

(** One row of the final score as the specification words it: the plain
    sum of the three sub-scores over [n]. *)
Definition spec_score_row (count_score meantime_score weighted_freq : float)
  : float :=
  Np.round2 (100 * (count_score + meantime_score + weighted_freq)
               / score_n meantime_score weighted_freq)%float.

(** ** Library functions to run the methods on examples

    The properties below hold for any [np_log], [zscore] and [sort_values];
    these three are used where a property is run on a concrete object. *)

Definition ln2 : float := 0x1.62e42fefa39efp-1%float.

(** [atanh t] for a small [t], by its series. *)
Definition atanh_series (t : float) : float :=
  let t2 := (t * t)%float in
  (t * (1 + t2 * (1 / 3 + t2 * (1 / 5 + t2 * (1 / 7 + t2 * (1 / 9
     + t2 * (1 / 11 + t2 * (1 / 13 + t2 * (1 / 15 + t2 * (1 / 17
     + t2 * (1 / 19 + t2 * (1 / 21 + t2 * (1 / 23 + t2 * (1 / 25))))))))))))))%float.

(** The natural logarithm: [x = m * 2^e] with [m] near 1, and
    [ln m = 2 * atanh ((m - 1) / (m + 1))]. *)
Definition ln (x : float) : float :=
  if Np.isnan x then nan
  else if PrimFloat.ltb x 0 then nan
  else if PrimFloat.eqb x 0 then neg_infinity
  else if PrimFloat.eqb x infinity then infinity
  else
    let '(m, e) := FloatOps.Z.frexp x in
    let '(m, e) := if PrimFloat.ltb m 0x1.6a09e667f3bcdp-1%float
                   then ((m * 2)%float, (e - 1)%Z) else (m, e) in
    (Np.of_Z e * ln2 + 2 * atanh_series ((m - 1) / (m + 1)))%float.

(** [scipy.stats.zscore(a, nan_policy="omit")]: population mean and
    standard deviation of the entries that are not nan. *)
Definition zscore_omit (a : list float) : list float :=
  let defined := filter (fun x => Np.isnan x = false) a in
  let n := Np.of_nat (length defined) in
  let mean := (Np.sum defined / n)%float in
  let var := (Np.sum (map (fun x => (x - mean) * (x - mean))%float defined) / n)%float in
  map (fun x => ((x - mean) / PrimFloat.sqrt var)%float) a.

(** Sorting rows by [published_at], [NaT] last, keeping the order of ties. *)
Definition date_leb (a b : Timestamp) : bool :=
  match a, b with
  | Some x, Some y => (x <=? y)%Z
  | Some _, None => true
  | None, Some _ => false
  | None, None => true
  end.

Fixpoint insert_row (x : VersionRow) (l : list VersionRow) : list VersionRow :=
  match l with
  | [] => [x]
  | y :: r =>
      if date_leb (published_at y) (published_at x) then y :: insert_row x r
      else x :: y :: r
  end.

Definition sort_by_date (l : list VersionRow) : list VersionRow :=
  fold_left (fun acc x => insert_row x acc) l [].

(** ** Objects and rows used as examples *)

(** One day in nanoseconds. *)
Definition day : Z := 86400000000000.

(** A group of a parallel project in which the second release raises both
    the minor and the patch slot. *)
Definition both_slots_group : list Event :=
  [ (Some 0%Z, FIRST, "1.0.0"); (Some day, MINOR, "1.1.1") ].

(** An object right after the frames are loaded. *)
Definition new_versioning (version : list VersionRow)
    (versioning : list (Z * Timestamp)) : Versioning :=
  mkVersioning version versioning ∅ ∅ ∅.

(** A project that tags "1.0" again after "2.0". *)
Definition retagged_rows : list VersionRow :=
  [ mkRow 1 "1.0" (Some 1%Z); mkRow 1 "2.0" (Some 2%Z); mkRow 1 "1.0" (Some 3%Z) ].

(** A project whose releases are all development releases. *)
Definition dev_only_rows : list VersionRow :=
  [ mkRow 7 "0.1.dev1" (Some 0%Z); mkRow 7 "0.2.dev3" (Some day) ].

(** Two projects: project 1 releases 1.0.0, 1.1.0, 1.1.1 and 2.0.0 a quarter
    apart and is updated a quarter later; project 2 has one release and was
    not updated since. *)
Definition quarter : Z := 91 * day.

Definition example_rows : list VersionRow :=
  [ mkRow 1 "1.0.0" (Some 0%Z);
    mkRow 2 "0.1" (Some (10 * day)%Z);
    mkRow 1 "1.1.0" (Some quarter);
    mkRow 1 "1.1.1" (Some (2 * quarter)%Z);
    mkRow 1 "2.0.0" (Some (3 * quarter)%Z) ].

Definition example_object : Versioning :=
  new_versioning example_rows
    [ (1%Z, Some (4 * quarter)%Z); (2%Z, Some (10 * day)%Z) ].

(** The example object once the date series are built. *)
Definition example_loaded : Versioning :=
  match _set_version_series sort_by_date example_object with
  | Some (_, st) => st
  | None => example_object
  end.

(** The value a method returns on the example. *)
Definition on_example {A : Type} (m : Py A) : option A :=
  fst <$> m example_loaded.

(** The example object after [score]. *)
Definition example_scored : Versioning :=
  match score ln example_loaded with
  | Some (_, st) => st
  | None => example_loaded
  end.

(** ... and after [compute_component_zscores]. *)
Definition example_zscored : Versioning :=
  match compute_component_zscores zscore_omit example_scored with
  | Some (_, st) => st
  | None => example_scored
  end.

(** * Notions used for further properties *)

(** [".".join(parts)] of a triple returned by [_split_version_num]. *)
Definition rejoin (parts : StructuralVersion) : string :=
  PyStr.join "." [parts.1.1; parts.1.2; parts.2].

(** The keys of an item list grow strictly, as strings. *)
Definition keys_ascending {V : Type} (l : list (string * V)) : Prop :=
  forall (i j : nat) (a b : string * V),
    i < j -> l !! i = Some a -> l !! j = Some b -> String.ltb a.1 b.1 = true.

(** The events of a timeline whose major token is [k], in their order. *)
Definition events_of_major (k : string) (date_series : list Event) : list Event :=
  filter (fun e => major_token (ev_num e) = k) date_series.

(** Every key is at most the keys after it. *)
Fixpoint sorted_by_key {V : Type} (l : list (string * V)) : Prop :=
  match l with
  | [] => True
  | x :: r => Forall (fun y => String.leb x.1 y.1 = true) r /\ sorted_by_key r
  end.

(** An object whose series are in place: every project of
    [self.versioning] has a series with at least one event and a parallel
    entry, empty unless the series is flagged, whose groups are the
    non-empty parts of the series by major token. *)
Definition loaded (st : Versioning) : Prop :=
  forall id : Z, id ∈ map fst (versioning st) ->
    exists series par,
      date_series st !! id = Some series /\ series <> [] /\
      parallel_date_series st !! id = Some par /\
      (par = [] <-> (check_parallel_versions series).1 = false) /\
      forall (k : string) (group : list Event),
        (k, group) ∈ par -> group <> [] /\ group = events_of_major k series.

#[global] Instance Release_eq_dec : EqDecision Release := ltac:(solve_decision).

(** The number of events of one kind in a series. *)
Definition count_kind (kind : Release) (series : list Event) : nat :=
  length (filter (fun e => ev_type e = kind) series).

(** The series of a project, empty when it has none. *)
Definition series_of (st : Versioning) (id : Z) : list Event :=
  default [] (date_series st !! id).

(** The weighted sum of the counts of a series, before scaling. *)
Definition weighted_sum_of (series : list Event) : float :=
  (Np.of_nat (5 * count_kind MAJOR series + 2 * count_kind MINOR series
              + count_kind PATCH series) / 8)%float.

(** A timestamp far enough from the ends of the 64-bit range for the
    difference of two of them to stay inside it. *)
Definition in_range (t : Timestamp) : Prop :=
  match t with
  | Some z => (- 2 ^ 62 < z < 2 ^ 62)%Z
  | None => True
  end.

(** [a - b] where it does not overflow. *)
Definition ts_diff (a b : Timestamp) : Timedelta :=
  match a, b with
  | Some x, Some y => Some (x - y)%Z
  | _, _ => None
  end.

(** The delta time from [prev] to [e] as the buckets store it. *)
Definition gap_of (prev e : Event) : float :=
  none_nat2nan (date2days (ts_diff (ev_date e) (ev_date prev))).

(** Every event after the first, as its kind and its delta time to the
    event before it. *)
Definition gaps (series : list Event) : list (Release * float) :=
  zip_with (fun prev e => (ev_type e, gap_of prev e)) series (tail series).

Definition bucket (kind : Release) (g : list (Release * float)) : list float :=
  map snd (filter (fun p => p.1 = kind) g).

(** The three slots of an event's version string. *)
Definition slots (e : Event) : StructuralVersion :=
  default ("", "", "") (_split_version_num (ev_num e)).

(** The first events of the groups of a parallel entry. *)
Definition first_events (par : list (string * list Event)) : list Event :=
  omap (fun kg => head kg.2) par.

(** The walk inside one major version, as the amended claim C2 words it. *)

(** What the walk holds between two events: the two reference dates and the
    gaps closed so far. *)
Record WalkRefs : Type := mkRefs {
  minor_ref : Timestamp;
  patch_ref : Timestamp;
  minor_gaps : list float;
  patch_gaps : list float;
}.

(** Whether the minor slot and the patch slot of [e] are above those of
    [ref], as strings. *)
Definition slot_rises (ref e : Event) : bool * bool :=
  (PyStr.gt (slots e).1.2 (slots ref).1.2, PyStr.gt (slots e).2 (slots ref).2).

(** One event [e] of the walk, compared with [ref]: a greater minor slot
    closes a minor gap from the minor reference date and resets both
    reference dates; otherwise a greater patch slot closes a patch gap from
    the patch reference date and resets that date; otherwise nothing
    changes. *)
Definition closes (ref e : Event) (s s' : WalkRefs) : Prop :=
  if (slot_rises ref e).1 then
    exists d, ts_sub (ev_date e) (minor_ref s) = Some d /\
      s' = mkRefs (ev_date e) (ev_date e)
             (minor_gaps s ++ [none_nat2nan (date2days d)]) (patch_gaps s)
  else if (slot_rises ref e).2 then
    exists d, ts_sub (ev_date e) (patch_ref s) = Some d /\
      s' = mkRefs (minor_ref s) (ev_date e)
             (minor_gaps s) (patch_gaps s ++ [none_nat2nan (date2days d)])
  else s' = s.

(** A group in which it makes no difference whether an event is compared
    with the event before it or with the first event of the group. *)
Definition reference_agrees (group : list Event) : Prop :=
  forall (i : nat) (first prev e : Event),
    head group = Some first -> group !! i = Some prev -> group !! S i = Some e ->
    slot_rises prev e = slot_rises first e.

(** The reference dates and gaps of a state of the code's walk. *)
Definition refs_of (w : MinorPatchWalk) : WalkRefs :=
  mkRefs (prev_minor_date w) (prev_patch_date w) (minors w) (patches w).

(** A group with a patch release and then a minor release. *)
Definition patch_then_minor_group : list Event :=
  [ (Some 0%Z, FIRST, "1.0.0"); (Some day, PATCH, "1.0.1");
    (Some (3 * day)%Z, MINOR, "1.1.0") ].

(** A group of one major version: 1.0.0, 1.1.0 and 1.1.1, a day apart. *)
Definition three_release_group : list Event :=
  [ (Some 0%Z, FIRST, "1.0.0"); (Some day, MINOR, "1.1.0");
    (Some (2 * day)%Z, PATCH, "1.1.1") ].

(** A parallel entry with two groups. *)
Definition two_group_entry : list (string * list Event) :=
  [ ("1", three_release_group);
    ("2", [ (Some (3 * day)%Z, MAJOR, "2.0.0"); (Some (5 * day)%Z, PATCH, "2.0.1") ]) ].

(** The dates of the object are in range: the update dates of
    [self.versioning] and the dates of all events. *)
Definition dates_in_range (st : Versioning) : Prop :=
  (forall row : Z * Timestamp, row ∈ versioning st -> in_range row.2) /\
  forall (id : Z) (series : list Event) (e : Event),
    date_series st !! id = Some series -> e ∈ series -> in_range (ev_date e).

(** The column [k] exists and has one entry per row. *)
Definition column_ok (k : string) (st : Versioning) : Prop :=
  exists c, columns st !! k = Some c /\ length c = nrows st.

(** [m] changes no frame or series and keeps every well-formed column
    well-formed. *)
Definition keeps_columns {A : Type} (m : Py A) : Prop :=
  forall (s s' : Versioning) (x : A),
    m s = Some (x, s') ->
    frozen_eq s s' /\ forall k : string, column_ok k s -> column_ok k s'.

(** [m] leaves the column [k] in place. *)
Definition creates_column {A : Type} (k : string) (m : Py A) : Prop :=
  forall (s s' : Versioning) (x : A), m s = Some (x, s') -> column_ok k s'.

(** The age of a project's row in days: from the date of the first event of
    its series to its update date. *)
Definition age_of (st : Versioning) (row : Z * Timestamp) : float :=
  match head (series_of st row.1) with
  | Some first => date2days (ts_diff row.2 (ev_date first))
  | None => nan
  end.

(** * Properties *)

(** ** Strings *)

Lemma app_String (c : ascii) (p q : string) :
  String c p +:+ q = String c (p +:+ q).
Proof. reflexivity. Qed.

Lemma prefix_spec (p s : string) :
  String.prefix p s = true <-> exists post, s = p +:+ post.
Proof.
  revert p. induction s as [|c s IH]; intros [|a p]; simpl.
  - split; [exists ""; reflexivity | reflexivity].
  - split; [discriminate | intros [post H]; discriminate].
  - split; [eexists; reflexivity | reflexivity].
  - destruct (ascii_dec a c) as [->|Hne].
    + rewrite IH. split; intros [post H]; exists post;
        rewrite app_String in *; congruence.
    + split; [discriminate | intros [post H]; rewrite app_String in H; congruence].
Qed.

Lemma contains_nil (pat : string) :
  PyStr.contains pat "" = String.prefix pat "".
Proof. unfold PyStr.contains. apply orb_false_r. Qed.

Lemma contains_cons (pat : string) (c : ascii) (s : string) :
  PyStr.contains pat (String c s) =
  String.prefix pat (String c s) || PyStr.contains pat s.
Proof. reflexivity. Qed.

Lemma contains_spec (pat s : string) :
  PyStr.contains pat s = true <-> exists pre post, s = pre +:+ pat +:+ post.
Proof.
  induction s as [|c s IH].
  - rewrite contains_nil, prefix_spec. split.
    + intros [post H]. exists "", post. exact H.
    + intros [pre [post H]]. destruct pre; [eauto | discriminate].
  - rewrite contains_cons, orb_true_iff, IH, prefix_spec. split.
    + intros [[post H] | [pre [post H]]].
      * exists "", post. exact H.
      * exists (String c pre), post. rewrite app_String. congruence.
    + intros [[|a pre] [post H]].
      * left. eauto.
      * right. exists pre, post. rewrite app_String in H. congruence.
Qed.

Lemma split_nonempty (sep : ascii) (s : string) : PyStr.split sep s <> [].
Proof.
  induction s as [|c s IH]; simpl; [discriminate|].
  destruct (Ascii.eqb c sep); [discriminate|].
  destruct (PyStr.split sep s); discriminate.
Qed.

Lemma join_cons (sep x : string) (l : list string) :
  l <> [] -> PyStr.join sep (x :: l) = x +:+ sep +:+ PyStr.join sep l.
Proof. destruct l; [congruence | reflexivity]. Qed.

Lemma join_split (sep : ascii) (s : string) :
  PyStr.join (String sep EmptyString) (PyStr.split sep s) = s.
Proof.
  induction s as [|c s IH]; simpl; [reflexivity|].
  destruct (Ascii.eqb_spec c sep) as [->|Hne].
  - rewrite join_cons by apply split_nonempty. rewrite IH. reflexivity.
  - pose proof (split_nonempty sep s) as Hs.
    destruct (PyStr.split sep s) as [|h t]; [congruence|].
    destruct t as [|h' t].
    + simpl in *. congruence.
    + rewrite join_cons by discriminate. rewrite join_cons in IH by discriminate.
      rewrite app_String. congruence.
Qed.

Lemma split_free (sep : ascii) (s : string) :
  Forall (fun p => PyStr.free_of sep p = true) (PyStr.split sep s).
Proof.
  induction s as [|c s IH]; simpl.
  - constructor; [reflexivity | constructor].
  - destruct (Ascii.eqb c sep) eqn:E.
    + constructor; [reflexivity | exact IH].
    + destruct (PyStr.split sep s) as [|h t]; simpl.
      * constructor; [simpl; now rewrite E | constructor].
      * inversion IH; subst. constructor; [simpl; rewrite E; simpl; assumption | assumption].
Qed.

(** ** Running a method *)

Lemma bind_Some {A B : Type} (m : Py A) (k : A -> Py B) (st st' : Versioning) (y : B) :
  (m ≫= k) st = Some (y, st') <->
  exists x st1, m st = Some (x, st1) /\ k x st1 = Some (y, st').
Proof.
  unfold mbind, Py_bind. destruct (m st) as [[x st1]|].
  - split; [eauto | intros [x' [st1' [[= <- <-] H]]]; exact H].
  - split; [discriminate | intros [x' [st1' [H _]]]; discriminate].
Qed.

Lemma lift_Some {A : Type} (o : option A) (st st' : Versioning) (x : A) :
  lift o st = Some (x, st') <-> o = Some x /\ st' = st.
Proof.
  unfold lift. destruct o; split; try discriminate; try (intros [H _]; discriminate).
  - intros [= <- <-]. split; reflexivity.
  - intros [[= <-] ->]. reflexivity.
Qed.

Lemma get_date_series_Some (repo_id : Z) (st st' : Versioning) (l : list Event) :
  get_date_series repo_id st = Some (l, st') <->
  date_series st !! repo_id = Some l /\ st' = st.
Proof.
  unfold get_date_series. destruct (date_series st !! repo_id); split;
    try discriminate; try (intros [H _]; discriminate).
  - intros [= <- <-]. split; reflexivity.
  - intros [[= <-] ->]. reflexivity.
Qed.

Lemma get_parallel_date_series_Some (repo_id : Z) (st st' : Versioning)
    (l : list (string * list Event)) :
  get_parallel_date_series repo_id st = Some (l, st') <->
  parallel_date_series st !! repo_id = Some l /\ st' = st.
Proof.
  unfold get_parallel_date_series.
  destruct (parallel_date_series st !! repo_id); split;
    try discriminate; try (intros [H _]; discriminate).
  - intros [= <- <-]. split; reflexivity.
  - intros [[= <-] ->]. reflexivity.
Qed.

Lemma bind_run {A B : Type} (m : Py A) (k : A -> Py B) (s s1 : Versioning) (x : A) :
  m s = Some (x, s1) -> (m ≫= k) s = k x s1.
Proof. intros H. unfold mbind, Py_bind. now rewrite H. Qed.

(** ** The tokenizer, the classifier and the pre-release filter *)

Lemma split_version_num_cases (num : string) :
  match PyStr.split dot num with
  | [] => False
  | [p0] => _split_version_num num = Some (p0, "0", "0")
  | [p0; p1] => _split_version_num num = Some (p0, p1, "0")
  | p0 :: p1 :: tail => _split_version_num num = Some (p0, p1, PyStr.join "." tail)
  end.
Proof.
  unfold _split_version_num.
  pose proof (split_nonempty dot num) as Hne.
  destruct (PyStr.split dot num) as [|p0 [|p1 [|p2 tail]]]; try reflexivity.
  - congruence.
  - simpl. rewrite app_nil_r. reflexivity.
Qed.

(** C6. Every string, the empty one included, is split into exactly three
    string slots and the call never fails: the slots are the parts between
    the dots, unchanged; a missing second or third slot is "0"; the parts
    from the third on are joined by dots in the third slot.  The parts are
    those of [str.split]: joined by dots they give the input back, and no
    part holds a dot. *)
Theorem split_version_num_triple (num : string) :
  (exists major minor rest,
     _split_version_num num = Some (major, minor, rest) /\
     match PyStr.split dot num with
     | [] => False
     | [p0] => (major, minor, rest) = (p0, "0", "0")
     | [p0; p1] => (major, minor, rest) = (p0, p1, "0")
     | p0 :: p1 :: tail => (major, minor, rest) = (p0, p1, PyStr.join "." tail)
     end) /\
  PyStr.join "." (PyStr.split dot num) = num /\
  Forall (fun p => PyStr.free_of dot p = true) (PyStr.split dot num) /\
  _split_version_num "" = Some ("", "0", "0").
Proof.
  split; [|split; [apply join_split | split; [apply split_free | reflexivity]]].
  pose proof (split_version_num_cases num) as H.
  destruct (PyStr.split dot num) as [|p0 [|p1 [|p2 tail]]];
    [contradiction | eauto | eauto | eauto].
Qed.

Lemma ne_spec (a b : string) : PyStr.ne a b = bool_decide (a <> b).
Proof.
  unfold PyStr.ne. destruct (String.eqb_spec a b) as [->|Hne]; simpl.
  - symmetry. apply bool_decide_eq_false. intros H. now apply H.
  - symmetry. now apply bool_decide_eq_true.
Qed.

(** C7. The classifier compares the slots as strings, in order: MAJOR when
    the major slots differ, else MINOR when the minor slots differ, else
    PATCH when the third slots differ, else FIRST; a triple against itself
    is FIRST. *)
Theorem find_version_type_policy (p0 p1 p2 c0 c1 c2 : string) :
  _find_version_type (p0, p1, p2) (c0, c1, c2) =
    (if bool_decide (p0 <> c0) then MAJOR
     else if bool_decide (p1 <> c1) then MINOR
     else if bool_decide (p2 <> c2) then PATCH
     else FIRST) /\
  _find_version_type (p0, p1, p2) (p0, p1, p2) = FIRST.
Proof.
  unfold _find_version_type. rewrite !ne_spec. split; [reflexivity|].
  rewrite !bool_decide_eq_false_2 by (intros H; now apply H). reflexivity.
Qed.

Lemma search_any_spec (pats : list string) (s : string) :
  PyStr.search_any pats s = true <->
  exists pat pre post, In pat pats /\ s = pre +:+ pat +:+ post.
Proof.
  unfold PyStr.search_any. rewrite existsb_exists. split.
  - intros [pat [Hin Hc]]. apply contains_spec in Hc as [pre [post H]]. eauto.
  - intros [pat [pre [post [Hin H]]]]. exists pat. split; [assumption|].
    apply contains_spec. eauto.
Qed.

Lemma filter_nil_Forall {A : Type} (P : A -> Prop) `{!forall x, Decision (P x)}
    (l : list A) :
  filter P l = [] <-> Forall (fun x => ~ P x) l.
Proof.
  induction l as [|x l IH]; [split; [constructor | reflexivity]|].
  rewrite filter_cons. destruct (decide (P x)) as [HP|HP].
  - split; [discriminate | intros F; inversion F; contradiction].
  - rewrite IH. split; [intros F; now constructor | intros F; now inversion F].
Qed.

(** ** The detector of parallel versions *)

Lemma ltb_asym (a b : string) : String.ltb a b = true -> String.ltb b a = false.
Proof.
  unfold String.ltb. rewrite (String.compare_antisym a b).
  destruct (String.compare b a); simpl; congruence.
Qed.

Lemma check_parallel_loop_spec (all rest : list string) (n : nat) :
  n < 3 ->
  ((check_parallel_loop all rest n).1 = true <-> 3 <= n + n_decreases rest) /\
  (check_parallel_loop all rest n).2 =
    (if (check_parallel_loop all rest n).1 then list_set all else []).
Proof.
  revert n. induction rest as [|a rest IH]; intros n Hn.
  - simpl. split; [split; [discriminate | lia] | reflexivity].
  - destruct rest as [|b tl].
    + simpl. split; [split; [discriminate | lia] | reflexivity].
    + change (check_parallel_loop all (a :: b :: tl) n) with
        (if PyStr.gt a b then
           if (3 <=? S n)%nat then (true, list_set all)
           else check_parallel_loop all (b :: tl) (S n)
         else check_parallel_loop all (b :: tl) n).
      change (n_decreases (a :: b :: tl)) with
        ((if PyStr.gt a b then 1 else 0) + n_decreases (b :: tl)).
      destruct (PyStr.gt a b).
      * destruct (Nat.leb_spec 3 (S n)) as [Hle|Hlt].
        -- simpl. split; [split; [lia | reflexivity] | reflexivity].
        -- destruct (IH (S n) Hlt) as [H1 H2]. split; [|exact H2].
           rewrite H1. lia.
      * destruct (IH n Hn) as [H1 H2]. split; [|exact H2]. rewrite H1. lia.
Qed.

Lemma strictly_increasing_no_decrease (majors : list string) :
  strictly_increasing majors -> n_decreases majors = 0.
Proof.
  induction majors as [|a rest IH]; intros Hinc; [reflexivity|].
  destruct rest as [|b tl]; [reflexivity|].
  change (n_decreases (a :: b :: tl)) with
    ((if PyStr.gt a b then 1 else 0) + n_decreases (b :: tl)).
  rewrite IH.
  - unfold PyStr.gt. rewrite (ltb_asym a b); [reflexivity|].
    apply (Hinc 0 a b); reflexivity.
  - intros i x y Hx Hy. apply (Hinc (S i) x y); assumption.
Qed.

(** C3. The detector flags a timeline exactly when its major tokens show at
    least three strict decreases (as strings) between neighbours.  When it
    flags, the list it returns holds each major token of the timeline once;
    otherwise the list is empty.  A strictly increasing sequence of major
    tokens is not flagged. *)
Theorem check_parallel_versions_spec (date_series : list Event) :
  let majors := map (fun date => major_token (ev_num date)) date_series in
  let result := check_parallel_versions date_series in
  (result.1 = true <-> 3 <= n_decreases majors) /\
  (if result.1
   then NoDup result.2 /\ (forall x : string, x ∈ result.2 <-> x ∈ majors)
   else result.2 = []) /\
  (strictly_increasing majors -> result.1 = false).
Proof.
  intros majors result.
  destruct (check_parallel_loop_spec majors majors 0) as [H1 H2]; [lia|].
  subst result. unfold check_parallel_versions. fold majors.
  destruct (check_parallel_loop majors majors 0) as [flag l]. simpl in *.
  split; [exact H1|]. split.
  - subst l. destruct flag.
    + unfold list_set. split; [apply NoDup_elements|]. intros x.
      rewrite elem_of_elements, elem_of_list_to_set. reflexivity.
    + reflexivity.
  - intros Hinc. apply strictly_increasing_no_decrease in Hinc.
    destruct flag; [|reflexivity]. destruct H1 as [H1 _].
    specialize (H1 eq_refl). lia.
Qed.

(** The example of the docstring of [check_parallel_versions]. *)
Example check_parallel_versions_docstring :
  let date_series : list Event :=
    map (fun v => (None, FIRST, v)) ["2.0.1"; "1.0.1"; "3.0.2"; "2.0.3"; "3.1.0"; "1.0.5"] in
  (check_parallel_versions date_series).1 = true /\
  (forall x, x ∈ (check_parallel_versions date_series).2 <-> x ∈ ["1"; "2"; "3"]).
Proof.
  split; [reflexivity|]. intros x. vm_compute check_parallel_versions.
  simpl. rewrite !elem_of_cons, !elem_of_nil. tauto.
Qed.

(** ** The date series of a project *)

Lemma head_filter_first {A : Type} (P : A -> Prop) `{!forall x, Decision (P x)}
    (l : list A) (x : A) :
  head (filter P l) = Some x ->
  exists j : nat, l !! j = Some x /\ P x /\
    forall (k : nat) (y : A), k < j -> l !! k = Some y -> ~ P y.
Proof.
  induction l as [|a l IH]; [discriminate|].
  rewrite filter_cons. destruct (decide (P a)) as [Ha|Ha].
  - simpl. intros [= ->]. exists 0. split; [reflexivity|]. split; [assumption|].
    intros k y Hk. lia.
  - intros Hx. destruct (IH Hx) as [j [Hj [HP Hmin]]].
    exists (S j). split; [exact Hj|]. split; [exact HP|].
    intros [|k] y Hk Hy.
    + simpl in Hy. congruence.
    + simpl in Hy. apply (Hmin k y); [lia | assumption].
Qed.

Lemma head_filter_some {A : Type} (P : A -> Prop) `{!forall x, Decision (P x)}
    (l : list A) (i : nat) (x : A) :
  l !! i = Some x -> P x -> exists y, head (filter P l) = Some y.
Proof.
  intros Hi HP. assert (Hin : x ∈ filter P l).
  { apply list_elem_of_filter. split; [assumption|].
    apply list_elem_of_lookup. eauto. }
  destruct (filter P l); [inversion Hin | simpl; eauto].
Qed.

(** The row that [_update_series] reads the date from: the first one with
    the version string. *)
Lemma first_published_at_spec (repo_versions : list VersionRow) (i : nat)
    (row : VersionRow) :
  repo_versions !! i = Some row ->
  exists (j : nat) (first_row : VersionRow),
    first_published_at repo_versions (number row) = Some (published_at first_row) /\
    repo_versions !! j = Some first_row /\
    number first_row = number row /\ j <= i /\
    forall (k : nat) (other : VersionRow),
      k < j -> repo_versions !! k = Some other -> number other <> number row.
Proof.
  intros Hi. unfold first_published_at.
  destruct (head_filter_some (fun r => number r = number row) repo_versions i row Hi eq_refl)
    as [y Hy].
  destruct (head_filter_first _ _ _ Hy) as [j [Hj [HP Hmin]]].
  exists j, y. rewrite Hy. split; [reflexivity|]. split; [exact Hj|].
  split; [exact HP|]. split; [|exact Hmin].
  destruct (Nat.le_gt_cases j i) as [Hle|Hgt]; [exact Hle|].
  exfalso. apply (Hmin i row Hgt Hi). reflexivity.
Qed.

Lemma split_version_num_total (num : string) :
  exists parts, _split_version_num num = Some parts.
Proof.
  pose proof (split_version_num_cases num) as H.
  destruct (PyStr.split dot num) as [|p0 [|p1 [|p2 tail]]];
    [contradiction | eauto | eauto | eauto].
Qed.

Lemma set_date_series_twice (id : Z) (a b : list Event) (st : Versioning) :
  set_date_series id a (set_date_series id b st) = set_date_series id a st.
Proof. unfold set_date_series. simpl. now rewrite insert_insert_eq. Qed.

Lemma set_date_series_id (id : Z) (a : list Event) (st : Versioning) :
  date_series st !! id = Some a -> set_date_series id a st = st.
Proof.
  intros H. destruct st. unfold set_date_series. simpl in *.
  now rewrite insert_id.
Qed.

Lemma date_series_set (id : Z) (a : list Event) (st : Versioning) :
  date_series (set_date_series id a st) !! id = Some a.
Proof. unfold set_date_series. simpl. apply lookup_insert_eq. Qed.

Lemma build_series_loop_spec (repo_versions : list VersionRow) (id : Z)
    (first : VersionRow) (numbers : list string) :
  repo_versions !! 0%nat = Some first -> repository_id first = id ->
  (forall v, v ∈ numbers -> exists d, first_published_at repo_versions v = Some d) ->
  forall (prev : StructuralVersion) (st : Versioning) (done : list Event),
    date_series st !! id = Some done ->
    exists events,
      _build_series_loop repo_versions prev numbers st =
        Some (tt, set_date_series id (done ++ events) st) /\
      Forall2 (event_of repo_versions) numbers events.
Proof.
  intros H0 Hid. induction numbers as [|v numbers IH]; intros Hall prev st done Hst.
  - exists []. simpl. split; [|constructor]. rewrite app_nil_r.
    unfold mret, Py_ret. now rewrite set_date_series_id.
  - destruct (split_version_num_total v) as [parts Hparts].
    destruct (Hall v) as [d Hd]; [left|].
    set (item := (d, _find_version_type prev parts, v) : Event).
    assert (Hstep : _update_series repo_versions v (_find_version_type prev parts) st
                    = Some (tt, set_date_series id (done ++ [item]) st)).
    { unfold _update_series, mbind, Py_bind, lift, get_date_series, modify.
      rewrite Hd, H0. simpl. rewrite Hid, Hst. reflexivity. }
    destruct (IH (fun w Hw => Hall w (list_elem_of_further _ _ _ Hw)) parts
                 (set_date_series id (done ++ [item]) st) (done ++ [item])
                 (date_series_set _ _ _)) as [events [Hloop Hev]].
    exists (item :: events). split.
    + simpl. unfold mbind, Py_bind, lift at 1. rewrite Hparts. 
      rewrite Hstep, Hloop. rewrite set_date_series_twice, <- app_assoc. reflexivity.
    + constructor; [|exact Hev]. exists (_find_version_type prev parts), d. split; [reflexivity | exact Hd].
Qed.

Lemma list_to_map_keys_is_Some {V : Type} (v : V) (keys : list string) (k : string) :
  k ∈ keys ->
  is_Some ((list_to_map (map (fun k => (k, v)) keys) : gmap string V) !! k).
Proof.
  induction keys as [|a keys IH]; intros Hin; [inversion Hin|].
  simpl. apply lookup_insert_is_Some.
  destruct (decide (a = k)) as [->|Hne]; [now left|].
  right. split; [assumption|]. apply IH.
  apply elem_of_cons in Hin as [->|Hin]; [congruence | assumption].
Qed.

Lemma track_parallel_loop_total (date_series : list Event) :
  forall d : gmap string (list Event),
    (forall e, e ∈ date_series -> is_Some (d !! major_token (ev_num e))) ->
    exists d', track_parallel_loop d date_series = Some d'.
Proof.
  induction date_series as [|elt rest IH]; intros d Hd; [simpl; eauto|].
  simpl. destruct (Hd elt) as [group Hgroup]; [left|].
  rewrite Hgroup. simpl. apply IH. intros e He.
  apply lookup_insert_is_Some.
  destruct (decide (major_token (ev_num elt) = major_token (ev_num e))) as [Heq|Hne];
    [now left|].
  right. split; [assumption|]. apply Hd. now right.
Qed.

Lemma track_parallel_versions_total (date_series : list Event) :
  exists tracked,
    track_parallel_versions date_series
      (list_set (map (fun date => major_token (ev_num date)) date_series))
    = Some tracked.
Proof.
  unfold track_parallel_versions.
  edestruct (track_parallel_loop_total date_series) as [d' Hd']; [|rewrite Hd'; simpl; eauto].
  intros e He. apply list_to_map_keys_is_Some. unfold list_set.
  rewrite elem_of_elements, elem_of_list_to_set.
  apply list_elem_of_fmap. exists e. split; [reflexivity | assumption].
Qed.

Lemma build_series_spec (repo_versions : list VersionRow) (id : Z)
    (first : VersionRow) (st : Versioning) :
  repo_versions !! 0%nat = Some first -> repository_id first = id ->
  exists st' series,
    _build_series repo_versions id st = Some (tt, st') /\
    date_series st' !! id = Some series /\
    Forall2 (event_of repo_versions) (map number repo_versions) series /\
    version st' = version st /\ versioning st' = versioning st /\
    date_series st' = <[id := series]> (date_series st).
Proof.
  intros H0 Hid.
  destruct (split_version_num_total (number first)) as [parts Hparts].
  set (st1 := set_parallel_date_series id [] (set_date_series id [] st)).
  destruct (build_series_loop_spec repo_versions id first (map number repo_versions)
              H0 Hid) with (prev := parts) (st := st1) (done := @nil Event)
    as [series [Hloop Hev]].
  { intros v Hv. apply list_elem_of_fmap in Hv as [row [-> Hrow]].
    apply list_elem_of_lookup in Hrow as [i Hi].
    destruct (first_published_at_spec repo_versions i row Hi) as [j [fr [Hf _]]].
    eauto. }
  { unfold st1, set_parallel_date_series. simpl. apply lookup_insert_eq. }
  simpl in Hloop.
  pose proof (check_parallel_loop_spec
                (map (fun date => major_token (ev_num date)) series)
                (map (fun date => major_token (ev_num date)) series) 0) as [_ Hlist];
    [lia|].
  fold (check_parallel_versions series) in Hlist.
  destruct (track_parallel_versions_total series) as [tracked Htracked].
  destruct (check_parallel_versions series) as [flag majors] eqn:Hcheck.
  simpl in Hlist.
  exists (if flag then set_parallel_date_series id tracked (set_date_series id series st1)
          else set_date_series id series st1), series.
  split; [|split; [destruct flag; apply lookup_insert_eq|];
             split; [exact Hev|]; split; [now destruct flag|];
             split; [now destruct flag|];
             destruct flag; simpl; apply insert_insert_eq].
  unfold _build_series, mbind, Py_bind, modify, lift at 1 2.
  rewrite H0. rewrite Hparts. fold st1. rewrite Hloop.
  unfold get_date_series. rewrite date_series_set. rewrite Hcheck.
  destruct flag.
  - subst majors. unfold lift. rewrite Htracked. reflexivity.
  - reflexivity.
Qed.

(** C10. Each event of the series built for a project carries the version
    string of its row and the [published_at] of the first row with that
    version string; a version string tagged on two rows therefore repeats
    the first date, and the dates of the series need not ascend even though
    the rows do. *)
Theorem build_series_dates_of_first_occurrence :
  (forall (repo_versions : list VersionRow) (id : Z) (first : VersionRow)
          (st : Versioning),
      repo_versions !! 0%nat = Some first -> repository_id first = id ->
      exists st' series,
        _build_series repo_versions id st = Some (tt, st') /\
        date_series st' !! id = Some series /\
        length series = length repo_versions /\
        forall (i : nat) (row : VersionRow),
          repo_versions !! i = Some row ->
          exists (kind : Release) (j : nat) (first_row : VersionRow),
            series !! i = Some (published_at first_row, kind, number row) /\
            repo_versions !! j = Some first_row /\
            number first_row = number row /\ j <= i /\
            forall (k : nat) (other : VersionRow),
              k < j -> repo_versions !! k = Some other ->
              number other <> number row) /\
  (map published_at retagged_rows = [Some 1; Some 2; Some 3]%Z /\
   exists st',
     _build_series retagged_rows 1%Z (new_versioning retagged_rows []) = Some (tt, st') /\
     date_series st' !! 1%Z =
       Some [(Some 1, FIRST, "1.0"); (Some 2, MAJOR, "2.0"); (Some 1, MAJOR, "1.0")]%Z).
Proof.
  split.
  - intros repo_versions id first st H0 Hid.
    destruct (build_series_spec repo_versions id first st H0 Hid)
      as [st' [series [Hrun [Hseries [Hev _]]]]].
    exists st', series. split; [exact Hrun|]. split; [exact Hseries|].
    split.
    + apply Forall2_length in Hev. rewrite length_map in Hev. congruence.
    + intros i row Hi.
      destruct (first_published_at_spec repo_versions i row Hi)
        as [j [first_row [Hfirst Hrest]]].
      assert (Hnum : map number repo_versions !! i = Some (number row)).
      { change (map number repo_versions) with (number <$> repo_versions).
        rewrite list_lookup_fmap, Hi. reflexivity. }
      destruct (Forall2_lookup_l _ _ _ _ _ Hev Hnum) as [e [He [kind [d [-> Hd]]]]].
      exists kind, j, first_row. split; [|exact Hrest].
      assert (Hdate : d = published_at first_row) by congruence.
      subst d. exact He.
  - split; [reflexivity|]. eexists. split; vm_compute; reflexivity.
Qed.

(** The series of the project that tags "1.0" twice. *)
Lemma build_series_dates_of_first_occurrence_witness :
  exists st' series,
    _build_series retagged_rows 1%Z (new_versioning retagged_rows []) = Some (tt, st') /\
    date_series st' !! 1%Z = Some series /\
    length series = length retagged_rows /\
    forall (i : nat) (row : VersionRow),
      retagged_rows !! i = Some row ->
      exists (kind : Release) (j : nat) (first_row : VersionRow),
        series !! i = Some (published_at first_row, kind, number row) /\
        retagged_rows !! j = Some first_row /\
        number first_row = number row /\ j <= i /\
        forall (k : nat) (other : VersionRow),
          k < j -> retagged_rows !! k = Some other ->
          number other <> number row.
Proof.
  apply (proj1 build_series_dates_of_first_occurrence retagged_rows 1%Z
           (mkRow 1%Z "1.0" (Some 1%Z))); reflexivity.
Defined.

(** ** Delta times inside one major version *)

(** C2, as stated, fails on a group whose second release raises the minor
    and the patch slot together: the code closes a minor gap only, the
    walk of the specification closes a patch gap as well. *)
Lemma minor_patch_both_slots_counterexample :
  _get_minor_patch_deltatimes both_slots_group = Some ([1%float], []) /\
  spec_minor_patch_deltatimes both_slots_group = Some ([1%float], [1%float]) /\
  _get_minor_patch_deltatimes both_slots_group
    <> spec_minor_patch_deltatimes both_slots_group.
Proof.
  assert (H1 : _get_minor_patch_deltatimes both_slots_group = Some ([1%float], []))
    by (vm_compute; reflexivity).
  assert (H2 : spec_minor_patch_deltatimes both_slots_group
               = Some ([1%float], [1%float])) by (vm_compute; reflexivity).
  split; [exact H1|]. split; [exact H2|]. rewrite H1, H2. discriminate.
Qed.

Lemma split_version_num_slots (e : Event) :
  _split_version_num (ev_num e) = Some (slots e).
Proof.
  unfold slots. destruct (split_version_num_total (ev_num e)) as [p ->]. reflexivity.
Qed.

(** One pass of the loop, for a walk whose reference triple is that of
    [ref]. *)
Lemma get_minor_patch_step_closes (ref e : Event) (w w' : MinorPatchWalk) :
  prev_num_parts w = slots ref ->
  _get_minor_patch_step w e = Some w' <->
  closes ref e (refs_of w) (refs_of w') /\ prev_num_parts w' = prev_num_parts w.
Proof.
  intros Href. pose proof (split_version_num_slots e) as Hsl.
  destruct e as [[date kind] version_num]. unfold ev_num in Hsl. simpl in Hsl.
  destruct w as [md pd parts mi pa], w' as [md' pd' parts' mi' pa'].
  cbn [prev_num_parts] in *. subst parts.
  unfold _get_minor_patch_step, closes, slot_rises, refs_of, ev_date. rewrite Hsl.
  cbn [mbind option_bind fst snd prev_minor_date prev_patch_date prev_num_parts
       minors patches minor_ref patch_ref minor_gaps patch_gaps].
  destruct (PyStr.gt (slots (date, kind, version_num)).1.2 (slots ref).1.2).
  - destruct (ts_sub date md) as [d|]; cbn [mbind option_bind].
    + split.
      * intros [= <- <- <- <- <-]. split; [|reflexivity]. exists d. auto.
      * intros [(d' & [= <-] & [= -> -> -> ->]) ->]. reflexivity.
    + split; [discriminate|]. intros [(d' & Hd & _) _]. discriminate.
  - destruct (PyStr.gt (slots (date, kind, version_num)).2 (slots ref).2).
    + destruct (ts_sub date pd) as [d|]; cbn [mbind option_bind].
      * split.
        -- intros [= <- <- <- <- <-]. split; [|reflexivity]. exists d. auto.
        -- intros [(d' & [= <-] & [= -> -> -> ->]) ->]. reflexivity.
      * split; [discriminate|]. intros [(d' & Hd & _) _]. discriminate.
    + split.
      * intros [= <- <- <- <- <-]. split; reflexivity.
      * intros [[= -> -> -> ->] ->]. reflexivity.
Qed.

(** The loop over the events after [p], for a walk whose reference triple is
    that of [first]: its runs are the sequences of states in which each
    event is handled as [closes] says, compared with the event before it. *)
Lemma get_minor_patch_loop_states (first : Event) (rest : list Event) :
  forall (p : Event) (w : MinorPatchWalk) (last : WalkRefs),
    prev_num_parts w = slots first ->
    (forall (i : nat) (prev e : Event),
        (p :: rest) !! i = Some prev -> rest !! i = Some e ->
        slot_rises prev e = slot_rises first e) ->
    (exists w', _get_minor_patch_loop w rest = Some w' /\ refs_of w' = last) <->
    exists states : list WalkRefs,
      length states = S (length rest) /\
      states !! 0%nat = Some (refs_of w) /\
      (forall (i : nat) (prev e : Event) (s s' : WalkRefs),
          (p :: rest) !! i = Some prev -> rest !! i = Some e ->
          states !! i = Some s -> states !! S i = Some s' ->
          closes prev e s s') /\
      states !! length rest = Some last.
Proof.
  induction rest as [|e rest IH]; intros p w last Href Hagree.
  - split.
    + intros (w' & [= <-] & <-). exists [refs_of w]. repeat split.
      intros i prev e s s' _ He. discriminate.
    + intros (states & Hlen & H0 & _ & Hlast). exists w. split; [reflexivity|].
      simpl in Hlast. congruence.
  - assert (Hpe : slot_rises p e = slot_rises first e)
      by (apply (Hagree 0 p e); reflexivity).
    assert (Hrest : forall (i : nat) (prev e' : Event),
               (e :: rest) !! i = Some prev -> rest !! i = Some e' ->
               slot_rises prev e' = slot_rises first e')
      by (intros i prev e' H1 H2; exact (Hagree (S i) prev e' H1 H2)).
    split.
    + intros (w' & Hloop & <-). cbn [_get_minor_patch_loop] in Hloop.
      destruct (_get_minor_patch_step w e) as [w1|] eqn:Hstep; [|discriminate].
      cbn [mbind option_bind] in Hloop.
      apply (get_minor_patch_step_closes first e w w1 Href) in Hstep as [Hc Hparts].
      destruct (proj1 (IH e w1 (refs_of w') (eq_trans Hparts Href) Hrest))
        as (states & Hlen & H0 & Hsteps & Hlast); [eauto|].
      exists (refs_of w :: states). split; [simpl; now rewrite Hlen|].
      split; [reflexivity|]. split; [|exact Hlast].
      intros [|i] prev e' s s' Hprev He' Hs Hs'.
      * injection Hprev as <-. injection He' as <-. injection Hs as <-.
        change (states !! 0%nat = Some s') in Hs'. rewrite H0 in Hs'.
        injection Hs' as <-.
        unfold closes. rewrite Hpe. exact Hc.
      * exact (Hsteps i prev e' s s' Hprev He' Hs Hs').
    + intros (states & Hlen & H0 & Hsteps & Hlast).
      destruct states as [|s0 [|s1 states]]; [discriminate | discriminate |].
      injection H0 as ->.
      pose (w1 := mkWalk (minor_ref s1) (patch_ref s1) (prev_num_parts w)
                    (minor_gaps s1) (patch_gaps s1)).
      assert (Hs1 : refs_of w1 = s1) by (destruct s1; reflexivity).
      assert (Hc : closes first e (refs_of w) (refs_of w1)).
      { rewrite Hs1. pose proof (Hsteps 0 p e (refs_of w) s1 eq_refl eq_refl eq_refl eq_refl)
          as Hc.
        unfold closes in *. now rewrite <- Hpe. }
      assert (Hstep : _get_minor_patch_step w e = Some w1)
        by (apply (get_minor_patch_step_closes first e w w1 Href); split; [exact Hc | reflexivity]).
      destruct (proj2 (IH e w1 last Href Hrest)) as (w' & Hloop & Hw').
      { exists (s1 :: states). split; [simpl in *; lia|].
        split; [now rewrite Hs1|]. split; [|exact Hlast].
        intros i prev e' s s' Hprev He' Hs Hs'.
        exact (Hsteps (S i) prev e' s s' Hprev He' Hs Hs'). }
      exists w'. split; [|exact Hw'].
      cbn [_get_minor_patch_loop]. rewrite Hstep. exact Hloop.
Qed.

(** C2, amended.  In a group in which comparing an event with the event
    before it and with the first event of the group give the same answers,
    [_get_minor_patch_deltatimes] returns the two lists of gaps exactly
    when they end a walk of the group that starts at its first event, with
    both reference dates at that event's date and no gap closed, and that
    handles every later event in order, compared (as strings) with the
    event before it: a greater minor slot closes a minor gap measured from
    the minor reference date and resets both reference dates; otherwise a
    greater patch slot closes a patch gap measured from the patch reference
    date and resets that date; otherwise no gap is closed. *)
Theorem get_minor_patch_deltatimes_walk (first : Event) (rest : list Event)
    (minor_deltatimes patch_deltatimes : list float) :
  reference_agrees (first :: rest) ->
  _get_minor_patch_deltatimes (first :: rest)
    = Some (minor_deltatimes, patch_deltatimes) <->
  exists states : list WalkRefs,
    length states = S (length rest) /\
    states !! 0%nat = Some (mkRefs (ev_date first) (ev_date first) [] []) /\
    (forall (i : nat) (prev e : Event) (s s' : WalkRefs),
        (first :: rest) !! i = Some prev -> rest !! i = Some e ->
        states !! i = Some s -> states !! S i = Some s' ->
        closes prev e s s') /\
    exists last : WalkRefs,
      states !! length rest = Some last /\
      minor_deltatimes = minor_gaps last /\ patch_deltatimes = patch_gaps last.
Proof.
  intros Hagree.
  set (w0 := mkWalk (ev_date first) (ev_date first) (slots first) [] []).
  assert (Hrun : _get_minor_patch_deltatimes (first :: rest) =
                 match _get_minor_patch_loop w0 rest with
                 | Some w => Some (minors w, patches w)
                 | None => None
                 end).
  { pose proof (split_version_num_slots first) as Hsl.
    destruct first as [[date kind] version_num]. unfold ev_num in Hsl. simpl in Hsl.
    cbn [_get_minor_patch_deltatimes]. rewrite Hsl. reflexivity. }
  rewrite Hrun. clear Hrun.
  assert (Hstates : forall last : WalkRefs,
             (exists w', _get_minor_patch_loop w0 rest = Some w' /\ refs_of w' = last) <->
             exists states : list WalkRefs,
               length states = S (length rest) /\
               states !! 0%nat = Some (refs_of w0) /\
               (forall (i : nat) (prev e : Event) (s s' : WalkRefs),
                   (first :: rest) !! i = Some prev -> rest !! i = Some e ->
                   states !! i = Some s -> states !! S i = Some s' ->
                   closes prev e s s') /\
               states !! length rest = Some last).
  { intros last. apply (get_minor_patch_loop_states first rest first w0 last eq_refl).
    intros i prev e Hprev He. exact (Hagree i first prev e eq_refl Hprev He). }
  split.
  - intros H. destruct (_get_minor_patch_loop w0 rest) as [w|] eqn:Hloop; [|discriminate].
    injection H as <- <-.
    destruct (proj1 (Hstates (refs_of w))) as (states & Hlen & H0 & Hsteps & Hlast);
      [eauto|].
    exists states. split; [exact Hlen|]. split; [exact H0|]. split; [exact Hsteps|].
    exists (refs_of w). auto.
  - intros (states & Hlen & H0 & Hsteps & last & Hlast & -> & ->).
    destruct (proj2 (Hstates last)) as (w' & Hloop & <-); [exists states; auto|].
    rewrite Hloop. reflexivity.
Qed.

(** A group with a patch release and then a minor release: 1.0.0, 1.0.1 a
    day later and 1.1.0 two days after that give the patch gap 1 and the
    minor gap 3. *)
Lemma get_minor_patch_deltatimes_walk_witness :
  reference_agrees patch_then_minor_group /\
  _get_minor_patch_deltatimes patch_then_minor_group = Some ([3%float], [1%float]) /\
  exists states : list WalkRefs,
    length states = 3 /\
    states !! 0%nat = Some (mkRefs (Some 0%Z) (Some 0%Z) [] []) /\
    (forall (i : nat) (prev e : Event) (s s' : WalkRefs),
        patch_then_minor_group !! i = Some prev ->
        tail patch_then_minor_group !! i = Some e ->
        states !! i = Some s -> states !! S i = Some s' ->
        closes prev e s s') /\
    exists last : WalkRefs,
      states !! 2%nat = Some last /\
      [3%float] = minor_gaps last /\ [1%float] = patch_gaps last.
Proof.
  assert (Hagree : reference_agrees patch_then_minor_group).
  { intros [|[|i]] first prev e [= <-] Hprev He; simpl in Hprev, He.
    - injection Hprev as <-. reflexivity.
    - injection Hprev as <-. injection He as <-. vm_compute. reflexivity.
    - destruct i; discriminate. }
  assert (Hrun : _get_minor_patch_deltatimes patch_then_minor_group
                 = Some ([3%float], [1%float])) by (vm_compute; reflexivity).
  split; [exact Hagree|]. split; [exact Hrun|].
  exact (proj1 (get_minor_patch_deltatimes_walk
                  (Some 0%Z, FIRST, "1.0.0")
                  [ (Some day, PATCH, "1.0.1"); (Some (3 * day)%Z, MINOR, "1.1.0") ]
                  [3%float] [1%float] Hagree) Hrun).
Defined.

(** ** Unknown gaps and the bucket means *)

Lemma none_nat2nan_unknown (x : float) :
  Np.isnan x = true \/ PrimFloat.eqb x 0 = true -> unknown (none_nat2nan x).
Proof.
  unfold unknown, none_nat2nan. intros [H|H]; rewrite H.
  - reflexivity.
  - rewrite orb_true_r. reflexivity.
Qed.

Lemma none_nat2nan_entry (x : float) : gap_entry (none_nat2nan x).
Proof.
  unfold gap_entry, unknown, defined_gap, none_nat2nan.
  destruct (Np.isnan x) eqn:Hnan; simpl; [left; reflexivity|].
  destruct (PrimFloat.eqb x 0) eqn:Hzero; [left; reflexivity|].
  right. split; assumption.
Qed.

Lemma Forall_snoc_entry (l : list float) (x : float) :
  Forall gap_entry l -> Forall gap_entry (l ++ [none_nat2nan x]).
Proof.
  intros H. apply Forall_app. split; [exact H|].
  constructor; [apply none_nat2nan_entry | constructor].
Qed.

Lemma get_minor_patch_step_entries (w w' : MinorPatchWalk) (elt : Event) :
  _get_minor_patch_step w elt = Some w' ->
  Forall gap_entry (minors w) -> Forall gap_entry (patches w) ->
  Forall gap_entry (minors w') /\ Forall gap_entry (patches w').
Proof.
  destruct elt as [[date kind] version_num]. unfold _get_minor_patch_step.
  destruct (_split_version_num version_num) as [parts|]; simpl; [|discriminate].
  intros Hstep Hm Hp.
  destruct (PyStr.gt parts.1.2 (prev_num_parts w).1.2).
  - destruct (ts_sub date (prev_minor_date w)); simpl in Hstep; [|discriminate].
    injection Hstep as <-. simpl. split; [now apply Forall_snoc_entry | exact Hp].
  - destruct (PyStr.gt parts.2 (prev_num_parts w).2).
    + destruct (ts_sub date (prev_patch_date w)); simpl in Hstep; [|discriminate].
      injection Hstep as <-. simpl. split; [exact Hm | now apply Forall_snoc_entry].
    + injection Hstep as <-. split; assumption.
Qed.

Lemma get_minor_patch_loop_entries (rest : list Event) :
  forall w w' : MinorPatchWalk,
    _get_minor_patch_loop w rest = Some w' ->
    Forall gap_entry (minors w) -> Forall gap_entry (patches w) ->
    Forall gap_entry (minors w') /\ Forall gap_entry (patches w').
Proof.
  induction rest as [|elt rest IH]; intros w w' Hloop Hm Hp.
  - injection Hloop as <-. split; assumption.
  - simpl in Hloop.
    destruct (_get_minor_patch_step w elt) as [w1|] eqn:Hstep; [|discriminate].
    simpl in Hloop.
    destruct (get_minor_patch_step_entries _ _ _ Hstep Hm Hp) as [Hm1 Hp1].
    exact (IH _ _ Hloop Hm1 Hp1).
Qed.

Lemma get_minor_patch_deltatimes_entries (group : list Event)
    (mi pa : list float) :
  _get_minor_patch_deltatimes group = Some (mi, pa) ->
  Forall gap_entry mi /\ Forall gap_entry pa.
Proof.
  destruct group as [|[[date kind] version_num] rest]; simpl.
  - intros [= <- <-]. split; constructor.
  - destruct (_split_version_num version_num) as [parts|]; simpl; [|discriminate].
    destruct (_get_minor_patch_loop _ rest) as [w|] eqn:Hloop; simpl; [|discriminate].
    intros [= <- <-].
    apply (get_minor_patch_loop_entries _ _ _ Hloop); constructor.
Qed.

Lemma build_parallel_loop_entries (date_series : list (string * list Event)) :
  forall (prev_date : option Timestamp) (acc b : Buckets),
    _build_parallel_loop prev_date acc date_series = Some b ->
    buckets_entries acc -> buckets_entries b.
Proof.
  induction date_series as [|[major_num group] rest IH]; intros prev acc b Hloop Hacc.
  - injection Hloop as <-. exact Hacc.
  - destruct acc as [[majors minors] patches]. simpl in Hloop.
    destruct Hacc as [HM [Hm Hp]]. simpl in HM, Hm, Hp.
    destruct (group !! 0%nat) as [first|]; simpl in Hloop; [|discriminate].
    destruct (match prev with
              | Some prev0 =>
                  deltatime ← ts_sub (ev_date first) prev0;
                  Some (majors ++ [none_nat2nan (date2days deltatime)])
              | None => Some majors
              end) as [majors'|] eqn:Hmaj; simpl in Hloop; [|discriminate].
    destruct (_get_minor_patch_deltatimes group) as [[mi pa]|] eqn:Hgroup;
      simpl in Hloop; [|discriminate].
    apply get_minor_patch_deltatimes_entries in Hgroup as [Hmi Hpa].
    apply (IH _ _ _ Hloop). repeat split; simpl.
    + destruct prev as [prev0|].
      * destruct (ts_sub (ev_date first) prev0); simpl in Hmaj; [|discriminate].
        injection Hmaj as <-. now apply Forall_snoc_entry.
      * injection Hmaj as <-. exact HM.
    + apply Forall_app; split; assumption.
    + apply Forall_app; split; assumption.
Qed.

Lemma build_deltatime_loop_entries (date_series : list Event) :
  forall (prev_date : option Timestamp) (acc b : Buckets),
    _build_deltatime_loop prev_date acc date_series = Some b ->
    buckets_entries acc -> buckets_entries b.
Proof.
  induction date_series as [|date rest IH]; intros prev acc b Hloop Hacc.
  - injection Hloop as <-. exact Hacc.
  - destruct acc as [[majors minors] patches]. simpl in Hloop.
    destruct Hacc as [HM [Hm Hp]]. simpl in HM, Hm, Hp.
    destruct prev as [prev0|].
    + destruct (ts_sub (ev_date date) prev0); simpl in Hloop; [|discriminate].
      apply (IH _ _ _ Hloop).
      destruct (ev_type date); repeat split; simpl;
        try assumption; now apply Forall_snoc_entry.
    + simpl in Hloop. apply (IH _ _ _ Hloop). repeat split; assumption.
Qed.

Lemma build_deltatime_series_entries (repo_id : Z) (st st' : Versioning)
    (b : Buckets) :
  _build_deltatime_series repo_id st = Some (b, st') -> buckets_entries b.
Proof.
  unfold _build_deltatime_series. intros H.
  apply bind_Some in H as [parallel [st1 [_ H]]].
  destruct (0 <? length parallel)%nat.
  - unfold _build_parallel_deltatime_series in H.
    apply bind_Some in H as [series [st2 [_ H]]].
    apply lift_Some in H as [Hloop _].
    apply (build_parallel_loop_entries _ _ _ _ Hloop). repeat split; constructor.
  - apply bind_Some in H as [series [st2 [_ H]]].
    apply lift_Some in H as [Hloop _].
    apply (build_deltatime_loop_entries _ _ _ _ Hloop). repeat split; constructor.
Qed.

Lemma filter_unknown_nil (v : list float) :
  Forall unknown v -> filter (fun x => Np.isnan x = false) v = [].
Proof.
  induction 1 as [|x v Hx Hv IH]; [reflexivity|].
  rewrite filter_cons. unfold unknown in Hx.
  destruct (decide (Np.isnan x = false)) as [Hd|Hd]; [congruence | exact IH].
Qed.

Lemma bucket_mean_unknown (v : list float) :
  Forall unknown v -> bucket_mean v = nan.
Proof.
  intros Hv. unfold bucket_mean. destruct (0 <? length v)%nat; [|reflexivity].
  unfold Np.nanmean. rewrite (filter_unknown_nil v Hv). vm_compute. reflexivity.
Qed.

Lemma bucket_mean_skips_unknown (l1 l2 : list float) (x : float) :
  unknown x -> bucket_mean (l1 ++ x :: l2) = bucket_mean (l1 ++ l2).
Proof.
  intros Hx. unfold bucket_mean.
  assert (Hf : filter (fun y => Np.isnan y = false) (l1 ++ x :: l2)
               = filter (fun y => Np.isnan y = false) (l1 ++ l2)).
  { rewrite !filter_app, filter_cons. unfold unknown in Hx.
    destruct (decide (Np.isnan x = false)); [congruence | reflexivity]. }
  replace (0 <? length (l1 ++ x :: l2))%nat with true
    by (symmetry; apply Nat.ltb_lt; rewrite length_app; simpl; lia).
  unfold Np.nanmean. rewrite Hf.
  destruct (l1 ++ l2) as [|y l] eqn:E; [|reflexivity].
  vm_compute. reflexivity.
Qed.

(** C4. A gap of exactly zero days, or one with an undefined timestamp, is
    stored as nan; every entry of the three buckets of a project, parallel
    or not, is nan or a defined non-zero gap; a nan entry does not change
    the mean of its bucket; a bucket without a defined gap has the mean nan,
    which is not zero, and its term in the weighted sum is 0. *)
Theorem unknown_gaps_stay_out_of_the_means :
  (forall x : float,
      Np.isnan x = true \/ PrimFloat.eqb x 0 = true -> unknown (none_nat2nan x)) /\
  (forall t : Z,
      (date2days <$> ts_sub (Some t) (Some t)) = Some 0%float /\
      (date2days <$> ts_sub (Some t) None) = Some nan /\
      (date2days <$> ts_sub None (Some t)) = Some nan) /\
  (forall (repo_id : Z) (st st' : Versioning) (majors minors patches : list float),
      _build_deltatime_series repo_id st = Some ((majors, minors, patches), st') ->
      Forall gap_entry majors /\ Forall gap_entry minors /\ Forall gap_entry patches) /\
  (forall (l1 l2 : list float) (x : float),
      unknown x -> bucket_mean (l1 ++ x :: l2) = bucket_mean (l1 ++ l2)) /\
  (forall v : list float,
      Forall unknown v ->
      Np.isnan (bucket_mean v) = true /\
      PrimFloat.eqb (bucket_mean v) 0 = false /\
      forall w : float, component w (bucket_mean v) = 0%float).
Proof.
  split; [exact none_nat2nan_unknown|].
  split.
  { intros t. unfold ts_sub. rewrite Z.sub_diag. repeat split; reflexivity. }
  split.
  { intros repo_id st st' majors minors patches H.
    exact (build_deltatime_series_entries _ _ _ _ H). }
  split; [exact bucket_mean_skips_unknown|].
  intros v Hv. rewrite (bucket_mean_unknown v Hv). repeat split; reflexivity.
Qed.

(** The buckets of the first example project: one gap of 91 days each. *)
Lemma unknown_gaps_stay_out_of_the_means_witness :
  Forall gap_entry [91%float] /\ Forall gap_entry [91%float] /\
  Forall gap_entry [91%float].
Proof.
  apply (proj1 (proj2 (proj2 unknown_gaps_stay_out_of_the_means))
           1%Z example_loaded example_loaded).
  vm_compute. reflexivity.
Defined.

(** ** Rules for [method] *)

Lemma frozen_eq_refl (s : Versioning) : frozen_eq s s.
Proof. repeat split. Qed.

Lemma frozen_eq_trans (s t u : Versioning) :
  frozen_eq s t -> frozen_eq t u -> frozen_eq s u.
Proof.
  intros (H1 & H2 & H3 & H4) (G1 & G2 & G3 & G4). repeat split; congruence.
Qed.

Lemma frozen_eq_set_columns (c : gmap string (list float)) (s : Versioning) :
  frozen_eq s (set_columns c s).
Proof. repeat split. Qed.

Lemma frozen_eq_nrows (s t : Versioning) : frozen_eq s t -> nrows s = nrows t.
Proof. intros (_ & H & _). unfold nrows. now rewrite H. Qed.

Lemma agree_set_columns (K : list string) (k : string) (v : list float)
    (s t : Versioning) :
  agree K s t ->
  agree (k :: K) (set_columns (<[k := v]> (columns s)) s)
                 (set_columns (<[k := v]> (columns t)) t).
Proof.
  intros [Hf Hc]. split; [exact Hf|]. intros k' Hk'. simpl.
  destruct (decide (k = k')) as [->|Hne].
  - now rewrite !lookup_insert_eq.
  - rewrite !lookup_insert_ne by assumption. apply Hc.
    apply elem_of_cons in Hk' as [->|Hk']; [congruence | assumption].
Qed.

Lemma method_ret {A : Type} (K W : list string) (x : A) :
  method K K W (mret x : Py A).
Proof.
  split.
  - intros s t Hst. simpl. split; [reflexivity | exact Hst].
  - intros s s' y [= <- <-]. split; [apply frozen_eq_refl | reflexivity].
Qed.

Lemma method_bind {A B : Type} (K K' K'' W : list string) (m : Py A)
    (f : A -> Py B) :
  method K K' W m -> (forall x, method K' K'' W (f x)) ->
  method K K'' W (m ≫= f).
Proof.
  intros [Hr Hw] Hf. split.
  - intros s t Hst. specialize (Hr s t Hst). unfold mbind, Py_bind.
    destruct (m s) as [[x s1]|], (m t) as [[y t1]|]; simpl in Hr;
      try contradiction; [|exact I].
    destruct Hr as [<- H1]. apply (Hf x). exact H1.
  - intros s s' y H. apply bind_Some in H as (x & s1 & H1 & H2).
    destruct (Hw _ _ _ H1) as [F1 C1].
    destruct (proj2 (Hf x) _ _ _ H2) as [F2 C2].
    split; [exact (frozen_eq_trans _ _ _ F1 F2)|].
    intros k Hk. rewrite C2, C1 by assumption. reflexivity.
Qed.

Lemma method_weaken {A : Type} (K1 K2 W K1' K2' W' : list string) (m : Py A) :
  method K1 K2 W m ->
  (forall k, k ∈ K1 -> k ∈ K1') -> (forall k, k ∈ K2' -> k ∈ K2) ->
  (forall k, k ∈ W -> k ∈ W') ->
  method K1' K2' W' m.
Proof.
  intros [Hr Hw] H1 H2 H3. split.
  - intros s t [Hf Hc]. specialize (Hr s t (conj Hf (fun k Hk => Hc k (H1 k Hk)))).
    destruct (m s) as [[x s1]|], (m t) as [[y t1]|]; simpl in *;
      try contradiction; [|exact I].
    destruct Hr as [-> [Hf' Hc']]. split; [reflexivity|].
    split; [exact Hf'|]. intros k Hk. apply Hc', H2, Hk.
  - intros s s' x H. destruct (Hw _ _ _ H) as [F C]. split; [exact F|].
    intros k Hk. apply C. intros Hin. apply Hk, H3, Hin.
Qed.

Lemma method_lift {A : Type} (K W : list string) (o : option A) :
  method K K W (lift o).
Proof.
  split.
  - intros s t Hst. unfold lift. destruct o; simpl; [split; [reflexivity | exact Hst] | exact I].
  - intros s s' x H. apply lift_Some in H as [_ ->].
    split; [apply frozen_eq_refl | reflexivity].
Qed.

Lemma method_gets {A : Type} (K W : list string) (f : Versioning -> A) :
  (forall s t, frozen_eq s t -> f s = f t) -> method K K W (gets f).
Proof.
  intros Hf. split.
  - intros s t Hst. simpl. split; [apply Hf, Hst | exact Hst].
  - intros s s' x [= <- <-]. split; [apply frozen_eq_refl | reflexivity].
Qed.

Lemma method_get_date_series (K W : list string) (repo_id : Z) :
  method K K W (get_date_series repo_id).
Proof.
  split.
  - intros s t Hst. unfold get_date_series.
    destruct Hst as [(H1 & H2 & H3 & H4) Hc]. rewrite H3.
    destruct (date_series t !! repo_id); simpl; [|exact I].
    split; [reflexivity|]. split; [repeat split; assumption | exact Hc].
  - intros s s' x H. apply get_date_series_Some in H as [_ ->].
    split; [apply frozen_eq_refl | reflexivity].
Qed.

Lemma method_get_parallel_date_series (K W : list string) (repo_id : Z) :
  method K K W (get_parallel_date_series repo_id).
Proof.
  split.
  - intros s t Hst. unfold get_parallel_date_series.
    destruct Hst as [(H1 & H2 & H3 & H4) Hc]. rewrite H4.
    destruct (parallel_date_series t !! repo_id); simpl; [|exact I].
    split; [reflexivity|]. split; [repeat split; assumption | exact Hc].
  - intros s s' x H. apply get_parallel_date_series_Some in H as [_ ->].
    split; [apply frozen_eq_refl | reflexivity].
Qed.

Lemma method_get_col (K W : list string) (k : string) :
  k ∈ K -> method K K W (get_col k).
Proof.
  intros Hk. split.
  - intros s t Hst. unfold get_col. rewrite (proj2 Hst k Hk).
    destruct (columns t !! k); simpl; [split; [reflexivity | exact Hst] | exact I].
  - intros s s' x H. unfold get_col in H.
    destruct (columns s !! k); [|discriminate]. injection H as <- <-.
    split; [apply frozen_eq_refl | reflexivity].
Qed.

Lemma method_has_col (K W : list string) (k : string) :
  k ∈ K -> method K K W (has_col k).
Proof.
  intros Hk. split.
  - intros s t Hst. unfold has_col. simpl. rewrite (proj2 Hst k Hk).
    split; [reflexivity | exact Hst].
  - intros s s' x [= <- <-]. split; [apply frozen_eq_refl | reflexivity].
Qed.

Lemma method_set_col (K W : list string) (k : string) (v : list float) :
  k ∈ W -> method K (k :: K) W (set_col k v).
Proof.
  intros Hk. split.
  - intros s t Hst. unfold set_col. rewrite (frozen_eq_nrows s t (proj1 Hst)).
    destruct (length v =? nrows t)%nat; simpl; [|exact I].
    split; [reflexivity | now apply agree_set_columns].
  - intros s s' x H. unfold set_col in H.
    destruct (length v =? nrows s)%nat; [|discriminate]. injection H as <- <-.
    split; [apply frozen_eq_set_columns|]. intros k' Hk'. simpl.
    apply lookup_insert_ne. intros ->. contradiction.
Qed.

Lemma method_set_col_scalar (K W : list string) (k : string) (x : float) :
  k ∈ W -> method K (k :: K) W (set_col_scalar k x).
Proof.
  intros Hk. split.
  - intros s t Hst. unfold set_col_scalar, modify. simpl.
    rewrite (frozen_eq_nrows s t (proj1 Hst)).
    split; [reflexivity | now apply agree_set_columns].
  - intros s s' y [= <- <-].
    split; [apply frozen_eq_set_columns|]. intros k' Hk'. simpl.
    apply lookup_insert_ne. intros ->. contradiction.
Qed.

Lemma method_loc_set (K W : list string) (repo_id : Z) (k : string) (x : float) :
  k ∈ W -> method K K W (loc_set repo_id k x).
Proof.
  intros Hk. split.
  - intros s t [Hf Hc]. unfold loc_set, modify. simpl.
    split; [reflexivity|]. split; [exact Hf|]. intros k' Hk'. simpl.
    destruct (decide (k = k')) as [->|Hne].
    + rewrite !lookup_insert_eq. rewrite (Hc k' Hk'), (frozen_eq_nrows s t Hf).
      destruct Hf as (_ & -> & _). reflexivity.
    + rewrite !lookup_insert_ne by assumption. apply Hc, Hk'.
  - intros s s' y [= <- <-].
    split; [apply frozen_eq_set_columns|]. intros k' Hk'. simpl.
    apply lookup_insert_ne. intros ->. contradiction.
Qed.

Lemma method_comprehension {A B : Type} (K W : list string) (l : list A)
    (f : A -> Py B) :
  (forall x, method K K W (f x)) -> method K K W (comprehension l f).
Proof.
  intros Hf. induction l as [|x l IH]; simpl.
  - apply method_ret.
  - eapply method_bind; [apply Hf|]. intros y.
    eapply method_bind; [apply IH|]. intros ys. apply method_ret.
Qed.

Lemma method_for_each {A : Type} (K W : list string) (l : list A)
    (body : A -> Py unit) :
  (forall x, method K K W (body x)) -> method K K W (for_each l body).
Proof.
  intros Hf. induction l as [|x l IH]; simpl.
  - apply method_ret.
  - eapply method_bind; [apply Hf|]. intros _. apply IH.
Qed.

(** ** The sub-score methods as [method]s *)

Ltac elem_of_cols :=
  lazymatch goal with
  | |- ?k ∈ ?k :: _ => apply list_elem_of_here
  | |- _ ∈ _ :: _ => apply list_elem_of_further; elem_of_cols
  | H : forall k, k ∈ ?cols -> k ∈ ?K |- _ ∈ ?K =>
      apply H; unfold cols; elem_of_cols
  | |- _ ∈ _ ++ _ => apply elem_of_app; first [left; elem_of_cols | right; elem_of_cols]
  | |- _ ∈ ?cols => unfold cols; elem_of_cols
  end.

Ltac method_bind := eapply method_bind; [|intros ?].

Tactic Notation "method_bind" "as" simple_intropattern(x) :=
  eapply method_bind; [|intros x].

Lemma method_build_deltatime_series (K W : list string) (repo_id : Z) :
  method K K W (_build_deltatime_series repo_id).
Proof.
  unfold _build_deltatime_series, _build_parallel_deltatime_series.
  method_bind; [apply method_get_parallel_date_series|].
  destruct (0 <? length _)%nat.
  - method_bind; [apply method_get_parallel_date_series | apply method_lift].
  - method_bind; [apply method_get_date_series | apply method_lift].
Qed.

Lemma method_num_versions_weighted_sum (K W : list string) (repo_id : Z) :
  (forall k, k ∈ count_cols -> k ∈ W) ->
  method K K W (_num_versions_weighted_sum repo_id).
Proof.
  intros HW. unfold _num_versions_weighted_sum.
  method_bind; [apply method_get_date_series|].
  destruct (foldl count_release _ _) as [[majors minors] patches].
  method_bind; [apply method_loc_set; elem_of_cols|].
  method_bind; [apply method_loc_set; elem_of_cols|].
  method_bind; [apply method_loc_set; elem_of_cols|].
  apply method_ret.
Qed.

Lemma frozen_versioning (s t : Versioning) :
  frozen_eq s t -> versioning s = versioning t.
Proof. intros (_ & H & _). exact H. Qed.

Lemma method_number_version_score (np_log : float -> float) (K W : list string) :
  (forall k, k ∈ count_cols -> k ∈ W) ->
  method K (count_cols ++ K) W (number_version_score np_log).
Proof.
  intros HW. unfold number_version_score.
  method_bind; [apply method_set_col_scalar; elem_of_cols|].
  method_bind; [apply method_set_col_scalar; elem_of_cols|].
  method_bind; [apply method_set_col_scalar; elem_of_cols|].
  method_bind; [apply method_gets, frozen_versioning|].
  method_bind; [apply method_comprehension; intros id;
                apply method_num_versions_weighted_sum; assumption|].
  method_bind; [apply method_set_col; elem_of_cols|].
  apply method_get_col. elem_of_cols.
Qed.

Lemma method_meantime_weighted_sum (np_log : float -> float)
    (K W : list string) (repo_id : Z) :
  (forall k, k ∈ meantime_cols -> k ∈ W) ->
  method K K W (_meantime_weighted_sum np_log repo_id).
Proof.
  intros HW. unfold _meantime_weighted_sum.
  method_bind; [apply method_get_date_series|].
  destruct (length _ <? 2)%nat; [apply method_ret|].
  method_bind as [[majors minors] patches]; [apply method_build_deltatime_series|].
  method_bind; [apply method_loc_set; elem_of_cols|].
  method_bind; [apply method_loc_set; elem_of_cols|].
  method_bind; [apply method_loc_set; elem_of_cols|].
  apply method_ret.
Qed.

Lemma method_version_meantime_score (np_log : float -> float) (K W : list string) :
  (forall k, k ∈ meantime_cols -> k ∈ W) ->
  method K (meantime_cols ++ K) W (version_meantime_score np_log).
Proof.
  intros HW. unfold version_meantime_score.
  method_bind; [apply method_set_col_scalar; elem_of_cols|].
  method_bind; [apply method_set_col_scalar; elem_of_cols|].
  method_bind; [apply method_set_col_scalar; elem_of_cols|].
  method_bind; [apply method_gets, frozen_versioning|].
  method_bind; [apply method_comprehension; intros id;
                apply method_meantime_weighted_sum; assumption|].
  method_bind; [apply method_set_col; elem_of_cols|].
  apply method_get_col. elem_of_cols.
Qed.

Lemma method_get_age (K W : list string) (row : Z * Timestamp) :
  method K K W (get_age row).
Proof.
  unfold get_age.
  method_bind; [apply method_get_date_series|].
  method_bind; [apply method_lift|].
  method_bind; [apply method_lift|].
  apply method_ret.
Qed.

Lemma method_version_frequency (np_log : float -> float) (K W : list string) :
  (forall k, k ∈ count_cols -> k ∈ K) ->
  (forall k, k ∈ count_cols -> k ∈ W) ->
  (forall k, k ∈ freq_cols -> k ∈ W) ->
  method K (freq_cols ++ K) W (version_frequency np_log).
Proof.
  intros HK HWc HWf. unfold version_frequency.
  method_bind; [apply method_has_col; elem_of_cols|].
  method_bind.
  { instantiate (1 := K). destruct (negb _).
    - method_bind; [|apply method_ret].
      eapply method_weaken;
        [apply (method_number_version_score np_log K W HWc) | auto | | auto].
      intros k Hk. apply elem_of_app. now right.
    - apply method_ret. }
  method_bind; [apply method_gets, frozen_versioning|].
  method_bind; [apply method_comprehension; intros row; apply method_get_age|].
  method_bind; [apply method_get_col; elem_of_cols|].
  method_bind; [apply method_set_col; elem_of_cols|].
  method_bind; [apply method_get_col; elem_of_cols|].
  method_bind; [apply method_set_col; elem_of_cols|].
  method_bind; [apply method_get_col; elem_of_cols|].
  method_bind; [apply method_set_col; elem_of_cols|].
  method_bind; [apply method_get_col; elem_of_cols|].
  method_bind; [apply method_get_col; elem_of_cols|].
  method_bind; [apply method_set_col; elem_of_cols|].
  apply method_get_col. elem_of_cols.
Qed.

(** ** The final score *)

Lemma returns_col_bind {A : Type} (k : string) (m : Py A)
    (f : A -> Py (list float)) :
  (forall y, returns_col k (f y)) -> returns_col k (m ≫= f).
Proof.
  intros Hf s s' x H. apply bind_Some in H as (y & s1 & _ & H).
  exact (Hf y _ _ _ H).
Qed.

Lemma returns_col_set_get (k : string) (v : list float) :
  returns_col k (set_col k v ≫= fun _ => get_col k).
Proof.
  intros s s' x H. apply bind_Some in H as ([] & s1 & H1 & H2).
  unfold set_col in H1. destruct (Nat.eqb_spec (length v) (nrows s)) as [Hlen|];
    [|discriminate].
  injection H1 as <-. unfold get_col in H2. simpl in H2.
  rewrite lookup_insert_eq in H2. injection H2 as <- <-. simpl.
  split; [apply lookup_insert_eq | exact Hlen].
Qed.

Lemma returns_number_version_score (np_log : float -> float) :
  returns_col "weighted_count" (number_version_score np_log).
Proof.
  unfold number_version_score.
  do 5 (apply returns_col_bind; intros ?). apply returns_col_set_get.
Qed.

Lemma returns_version_meantime_score (np_log : float -> float) :
  returns_col "weighted_meantime" (version_meantime_score np_log).
Proof.
  unfold version_meantime_score.
  do 5 (apply returns_col_bind; intros ?). apply returns_col_set_get.
Qed.

Lemma returns_version_frequency (np_log : float -> float) :
  returns_col "weighted_freq" (version_frequency np_log).
Proof.
  unfold version_frequency.
  do 12 (apply returns_col_bind; intros ?). apply returns_col_set_get.
Qed.

Lemma respects_run {A : Type} (K K' : list string) (m : Py A)
    (s t s' : Versioning) (x : A) :
  respects K K' m -> agree K s t -> m s = Some (x, s') ->
  exists t', m t = Some (x, t') /\ agree K' s' t'.
Proof.
  intros Hr Hst Hs. specialize (Hr s t Hst). rewrite Hs in Hr.
  destruct (m t) as [[y t']|]; simpl in Hr; [|contradiction].
  destruct Hr as [<- Ha]. eauto.
Qed.

Lemma not_elem_of_cols (k : string) (cols : list string) :
  forallb (fun c => negb (String.eqb k c)) cols = true -> k ∉ cols.
Proof.
  intros H Hin. apply list_elem_of_In in Hin.
  rewrite forallb_forall in H. specialize (H k Hin).
  now rewrite String.eqb_refl in H.
Qed.

Lemma score_run (np_log : float -> float) (st st1 st2 st3 : Versioning)
    (count_score meantime_score weighted_freq : list float) :
  number_version_score np_log st = Some (count_score, st1) ->
  version_meantime_score np_log st1 = Some (meantime_score, st2) ->
  version_frequency np_log st2 = Some (weighted_freq, st3) ->
  exists st',
    score np_log st
      = Some (score_rows count_score meantime_score weighted_freq, st') /\
    columns st' !! "versioning_openteams_score"
      = Some (score_rows count_score meantime_score weighted_freq) /\
    length count_score = nrows st /\
    length meantime_score = nrows st /\
    length weighted_freq = nrows st.
Proof.
  intros Hc Hm Hf.
  pose (W := freq_cols ++ count_cols ++ meantime_cols).
  assert (HWc : forall k, k ∈ count_cols -> k ∈ W)
    by (intros k Hk; unfold W; rewrite !elem_of_app; auto).
  assert (HWm : forall k, k ∈ meantime_cols -> k ∈ W)
    by (intros k Hk; unfold W; rewrite !elem_of_app; auto).
  assert (HWf : forall k, k ∈ freq_cols -> k ∈ W)
    by (intros k Hk; unfold W; rewrite !elem_of_app; auto).
  (* the first run *)
  destruct (proj2 (method_number_version_score np_log [] W HWc) _ _ _ Hc) as [F1 _].
  destruct (proj2 (method_version_meantime_score np_log [] W HWm) _ _ _ Hm) as [F2 _].
  destruct (proj2 (method_version_frequency np_log count_cols (freq_cols ++ count_cols)
                     (fun k H => H)
                     (fun k H => proj2 (elem_of_app _ _ _) (or_intror H))
                     (fun k H => proj2 (elem_of_app _ _ _) (or_introl H)))
                  _ _ _ Hf) as [F3 C3].
  destruct (returns_number_version_score np_log _ _ _ Hc) as [_ Lc].
  destruct (returns_version_meantime_score np_log _ _ _ Hm) as [Cm Lm].
  destruct (returns_version_frequency np_log _ _ _ Hf) as [Cf Lf].
  assert (Cm3 : columns st3 !! "weighted_meantime" = Some meantime_score).
  { rewrite C3; [exact Cm|]. apply not_elem_of_cols. reflexivity. }
  pose proof (frozen_eq_nrows _ _ F1) as N1.
  pose proof (frozen_eq_nrows _ _ F2) as N2.
  pose proof (frozen_eq_nrows _ _ F3) as N3.
  (* the second run returns the same columns *)
  assert (A0 : agree [] st st3).
  { split; [exact (frozen_eq_trans _ _ _ F1 (frozen_eq_trans _ _ _ F2 F3))|].
    intros k Hk. inversion Hk. }
  destruct (respects_run _ _ _ _ _ _ _
              (proj1 (method_number_version_score np_log [] W HWc)) A0 Hc)
    as (st4 & Hc' & A1).
  destruct (respects_run _ _ _ _ _ _ _
              (proj1 (method_version_meantime_score np_log _ W HWm)) A1 Hm)
    as (st5 & Hm' & A2).
  assert (HK2 : forall k, k ∈ count_cols -> k ∈ meantime_cols ++ count_cols ++ [])
    by (intros k Hk; rewrite !elem_of_app; auto).
  destruct (respects_run _ _ _ _ _ _ _
              (proj1 (method_version_frequency np_log _ W HK2 HWc HWf)) A2 Hf)
    as (st6 & Hf' & A3).
  pose proof (frozen_eq_nrows _ _ (proj1 A3)) as N6.
  set (scores := score_rows count_score meantime_score weighted_freq).
  assert (Ls : length scores = nrows st).
  { unfold scores, score_rows. rewrite !length_zip_with. lia. }
  exists (set_columns (<["versioning_openteams_score" := scores]> (columns st6)) st6).
  split; [|split; [apply lookup_insert_eq | lia]].
  unfold score.
  rewrite (bind_run _ _ _ _ _ Hc), (bind_run _ _ _ _ _ Hm), (bind_run _ _ _ _ _ Hf).
  assert (G1 : get_col "weighted_meantime" st3 = Some (meantime_score, st3))
    by (unfold get_col; now rewrite Cm3).
  assert (G2 : get_col "weighted_freq" st3 = Some (weighted_freq, st3))
    by (unfold get_col; now rewrite Cf).
  rewrite (bind_run _ _ _ _ _ G1), (bind_run _ _ _ _ _ G2).
  rewrite (bind_run _ _ _ _ _ Hc'), (bind_run _ _ _ _ _ Hm'), (bind_run _ _ _ _ _ Hf').
  fold (score_rows count_score meantime_score weighted_freq). fold scores.
  assert (G3 : set_col "versioning_openteams_score" scores st6
               = Some (tt, set_columns (<["versioning_openteams_score" := scores]>
                                          (columns st6)) st6)).
  { unfold set_col. replace (length scores =? nrows st6)%nat with true; [reflexivity|].
    symmetry. apply Nat.eqb_eq. lia. }
  rewrite (bind_run _ _ _ _ _ G3). reflexivity.
Qed.

Lemma score_rows_lookup (count_score meantime_score weighted_freq : list float)
    (i : nat) (c m f : float) :
  count_score !! i = Some c -> meantime_score !! i = Some m ->
  weighted_freq !! i = Some f ->
  score_rows count_score meantime_score weighted_freq !! i
    = Some (score_row c m f (score_n m f)).
Proof.
  intros Hic Him Hif. unfold score_rows.
  apply lookup_zip_with_Some. exists (c, m, f), (score_n m f).
  split; [reflexivity|]. split.
  - apply lookup_zip_Some. split; [|exact Hif].
    apply lookup_zip_Some. split; assumption.
  - apply lookup_zip_with_Some. exists m, f. auto.
Qed.

(** C1, amended.  Once the three sub-score methods have returned their
    columns, [score] returns, for every project, 100 times the sum of the
    three sub-scores in which a nan sub-score counts as 0, over [n], rounded
    to 2 decimals; [n] is 3 minus 1 for each of the mean-time and frequency
    sub-scores that is equal to 0 (a nan one is not), and the count
    sub-score never lowers [n]. *)
Theorem score_formula (np_log : float -> float) (st st1 st2 st3 : Versioning)
    (count_score meantime_score weighted_freq : list float) :
  number_version_score np_log st = Some (count_score, st1) ->
  version_meantime_score np_log st1 = Some (meantime_score, st2) ->
  version_frequency np_log st2 = Some (weighted_freq, st3) ->
  exists scores st',
    score np_log st = Some (scores, st') /\
    columns st' !! "versioning_openteams_score" = Some scores /\
    length scores = nrows st /\
    length count_score = nrows st /\
    length meantime_score = nrows st /\
    length weighted_freq = nrows st /\
    forall (i : nat) (c m f : float),
      count_score !! i = Some c -> meantime_score !! i = Some m ->
      weighted_freq !! i = Some f ->
      scores !! i =
        Some (Np.round2 (100 * Np.nansum3 c m f
                         / (3 - Np.of_bool (PrimFloat.eqb m 0)
                              - Np.of_bool (PrimFloat.eqb f 0)))%float).
Proof.
  intros Hc Hm Hf.
  destruct (score_run np_log st st1 st2 st3 _ _ _ Hc Hm Hf)
    as (st' & Hscore & Hcol & Lc & Lm & Lf).
  exists (score_rows count_score meantime_score weighted_freq), st'.
  split; [exact Hscore|]. split; [exact Hcol|].
  split; [unfold score_rows; rewrite !length_zip_with; lia|].
  split; [exact Lc|]. split; [exact Lm|]. split; [exact Lf|].
  intros i c m f Hic Him Hif.
  rewrite (score_rows_lookup _ _ _ i c m f Hic Him Hif). reflexivity.
Qed.

(** The date series of the two example projects. *)
Example example_loaded_series :
  date_series example_loaded !! 1%Z =
    Some [ (Some 0%Z, FIRST, "1.0.0"); (Some quarter, MINOR, "1.1.0");
           (Some (2 * quarter)%Z, PATCH, "1.1.1");
           (Some (3 * quarter)%Z, MAJOR, "2.0.0") ] /\
  date_series example_loaded !! 2%Z = Some [ (Some (10 * day)%Z, FIRST, "0.1") ] /\
  parallel_date_series example_loaded !! 1%Z = Some [].
Proof. repeat split; vm_compute; reflexivity. Qed.

(** C1, as stated, fails on a project whose frequency sub-score is nan (one
    release, not updated since: its age is 0 days): the code gives the
    score 0, the plain sum of the three sub-scores is nan. *)
Lemma score_nan_subscore_counterexample :
  on_example (number_version_score ln) = Some [(41 / 100)%float; 0%float] /\
  on_example (_ ← number_version_score ln; version_meantime_score ln)
    = Some [(11 / 100)%float; 0%float] /\
  on_example (_ ← number_version_score ln; _ ← version_meantime_score ln;
              version_frequency ln)
    = Some [(25 / 100)%float; nan] /\
  on_example (score ln) = Some [(2567 / 100)%float; 0%float] /\
  spec_score_row (41 / 100) (11 / 100) (25 / 100) = (2567 / 100)%float /\
  spec_score_row 0 0 nan = nan /\
  0%float <> spec_score_row 0 0 nan.
Proof.
  repeat split; try (vm_compute; reflexivity).
  intros H. apply (f_equal Np.isnan) in H. vm_compute in H. discriminate.
Qed.

(** The scores of the two example projects. *)
Lemma score_formula_witness :
  exists scores st',
    score ln example_loaded = Some (scores, st') /\
    columns st' !! "versioning_openteams_score" = Some scores /\
    length scores = nrows example_loaded /\
    length [(41 / 100)%float; 0%float] = nrows example_loaded /\
    length [(11 / 100)%float; 0%float] = nrows example_loaded /\
    length [(25 / 100)%float; nan] = nrows example_loaded /\
    forall (i : nat) (c m f : float),
      [(41 / 100)%float; 0%float] !! i = Some c ->
      [(11 / 100)%float; 0%float] !! i = Some m ->
      [(25 / 100)%float; nan] !! i = Some f ->
      scores !! i =
        Some (Np.round2 (100 * Np.nansum3 c m f
                         / (3 - Np.of_bool (PrimFloat.eqb m 0)
                              - Np.of_bool (PrimFloat.eqb f 0)))%float).
Proof.
  eapply (score_formula ln example_loaded).
  - vm_compute. reflexivity.
  - vm_compute. reflexivity.
  - vm_compute. reflexivity.
Defined.

(** ** Projects with fewer than two events *)

Lemma meantime_weighted_sum_short (np_log : float -> float) (st : Versioning)
    (repo_id : Z) (series : list Event) :
  date_series st !! repo_id = Some series -> length series < 2 ->
  _meantime_weighted_sum np_log repo_id st = Some (0%float, st).
Proof.
  intros Hs Hlen. unfold _meantime_weighted_sum.
  assert (G : get_date_series repo_id st = Some (series, st))
    by (apply get_date_series_Some; auto).
  rewrite (bind_run _ _ _ _ _ G).
  replace (length series <? 2)%nat with true; [reflexivity|].
  symmetry. apply Nat.ltb_lt. exact Hlen.
Qed.

Lemma comprehension_lookup {A B : Type} (W : list string) (f : A -> Py B)
    (l : list A) :
  (forall x, writes W (f x)) ->
  forall (s s' : Versioning) (ys : list B),
    comprehension l f s = Some (ys, s') ->
    length ys = length l /\
    forall (i : nat) (x : A),
      l !! i = Some x ->
      exists (si si' : Versioning) (y : B),
        frozen_eq s si /\ f x si = Some (y, si') /\ ys !! i = Some y.
Proof.
  intros Hf. induction l as [|a l IH]; intros s s' ys H.
  - injection H as <- <-. split; [reflexivity|]. intros i x Hi. discriminate.
  - simpl in H. apply bind_Some in H as (y & s1 & Hy & H).
    apply bind_Some in H as (ys' & s2 & Hys & H). injection H as <- <-.
    destruct (IH _ _ _ Hys) as [Hlen Hrest]. split; [simpl; lia|].
    intros [|i] x Hi.
    + injection Hi as <-. exists s, s1, y.
      split; [apply frozen_eq_refl|]. split; [exact Hy | reflexivity].
    + destruct (Hrest i x Hi) as (si & si' & y' & F & Hrun & Hlook).
      exists si, si', y'. split; [|split; assumption].
      exact (frozen_eq_trans _ _ _ (proj1 (Hf a _ _ _ Hy)) F).
Qed.

Lemma set_col_scalar_Some (k : string) (x : float) (s s' : Versioning) (u : unit) :
  set_col_scalar k x s = Some (u, s') -> frozen_eq s s'.
Proof. intros [= _ <-]. apply frozen_eq_set_columns. Qed.

Lemma version_meantime_score_short (np_log : float -> float)
    (st st' : Versioning) (ms : list float) (i : nat) (row : Z * Timestamp)
    (series : list Event) :
  version_meantime_score np_log st = Some (ms, st') ->
  versioning st !! i = Some row ->
  date_series st !! row.1 = Some series -> length series < 2 ->
  ms !! i = Some 0%float.
Proof.
  intros H Hrow Hs Hlen. unfold version_meantime_score in H.
  apply bind_Some in H as (u1 & s1 & H1 & H). apply set_col_scalar_Some in H1.
  apply bind_Some in H as (u2 & s2 & H2 & H). apply set_col_scalar_Some in H2.
  apply bind_Some in H as (u3 & s3 & H3 & H). apply set_col_scalar_Some in H3.
  pose proof (frozen_eq_trans _ _ _ H1 (frozen_eq_trans _ _ _ H2 H3)) as F.
  apply bind_Some in H as (rows & s4 & Hrows & H). injection Hrows as <- <-.
  apply bind_Some in H as (scores & s5 & Hscores & H).
  pose proof (returns_col_set_get "weighted_meantime" scores s5 st' ms H) as [Hcol _].
  apply bind_Some in H as ([] & s6 & Hset & Hget).
  unfold set_col in Hset. destruct (length scores =? nrows s5)%nat; [|discriminate].
  injection Hset as <-. unfold get_col in Hget. simpl in Hget.
  rewrite lookup_insert_eq in Hget. injection Hget as <- _.
  destruct (comprehension_lookup meantime_cols (_meantime_weighted_sum np_log)
              (map fst (versioning s3))
              (fun id => proj2 (method_meantime_weighted_sum np_log [] meantime_cols id
                                  (fun k H => H)))
              _ _ _ Hscores) as [_ Hlook].
  destruct (Hlook i row.1) as (si & si' & y & Fi & Hrun & Hy).
  { change (map fst (versioning s3)) with (fst <$> versioning s3).
    rewrite list_lookup_fmap, <- (frozen_versioning _ _ F), Hrow. reflexivity. }
  assert (Hsi : date_series si !! row.1 = Some series).
  { destruct (frozen_eq_trans _ _ _ F Fi) as (_ & _ & <- & _). exact Hs. }
  rewrite (meantime_weighted_sum_short np_log si row.1 series Hsi Hlen) in Hrun.
  injection Hrun as <- _. exact Hy.
Qed.

Lemma score_n_without_meantime (f : float) :
  score_n 0 f = if PrimFloat.eqb f 0 then 1%float else 2%float.
Proof. unfold score_n. destruct (PrimFloat.eqb f 0); vm_compute; reflexivity. Qed.

(** C8. For a project whose date series has fewer than two events the
    weighted mean-time sub-score is 0.0, also as its entry in the column of
    all projects; in the final score that project's sum is divided by 2, or
    by 1 when the frequency sub-score is 0 as well, instead of 3 or 2: the
    mean-time component is out of [n]. *)
Theorem single_release_meantime_zero (np_log : float -> float)
    (st st1 st2 st3 : Versioning)
    (count_score meantime_score weighted_freq : list float)
    (i : nat) (row : Z * Timestamp) (series : list Event) :
  versioning st !! i = Some row ->
  date_series st !! row.1 = Some series -> length series < 2 ->
  number_version_score np_log st = Some (count_score, st1) ->
  version_meantime_score np_log st1 = Some (meantime_score, st2) ->
  version_frequency np_log st2 = Some (weighted_freq, st3) ->
  _meantime_weighted_sum np_log row.1 st = Some (0%float, st) /\
  meantime_score !! i = Some 0%float /\
  exists scores st' c f,
    score np_log st = Some (scores, st') /\
    count_score !! i = Some c /\ weighted_freq !! i = Some f /\
    scores !! i =
      Some (Np.round2 (100 * Np.nansum3 c 0 f
                       / (if PrimFloat.eqb f 0 then 1 else 2))%float).
Proof.
  intros Hrow Hs Hlen Hc Hm Hf.
  split; [exact (meantime_weighted_sum_short np_log st row.1 series Hs Hlen)|].
  destruct (score_run np_log st st1 st2 st3 _ _ _ Hc Hm Hf)
    as (st' & Hscore & _ & Lc & Lm & Lf).
  assert (F1 : frozen_eq st st1).
  { exact (proj1 (proj2 (method_number_version_score np_log [] count_cols
                           (fun k H => H)) _ _ _ Hc)). }
  assert (Hm0 : meantime_score !! i = Some 0%float).
  { apply (version_meantime_score_short np_log st1 st2 _ i row series Hm).
    - rewrite <- (frozen_versioning _ _ F1). exact Hrow.
    - destruct F1 as (_ & _ & <- & _). exact Hs.
    - exact Hlen. }
  split; [exact Hm0|].
  assert (Hi : i < nrows st) by (apply lookup_lt_Some in Hrow; exact Hrow).
  destruct (lookup_lt_is_Some_2 count_score i) as [c Hci]; [lia|].
  destruct (lookup_lt_is_Some_2 weighted_freq i) as [f Hfi]; [lia|].
  exists (score_rows count_score meantime_score weighted_freq), st', c, f.
  split; [exact Hscore|]. split; [exact Hci|]. split; [exact Hfi|].
  rewrite (score_rows_lookup _ _ _ i c 0%float f Hci Hm0 Hfi).
  unfold score_row. rewrite score_n_without_meantime. reflexivity.
Qed.

(** The second example project has one release. *)
Lemma single_release_meantime_zero_witness :
  _meantime_weighted_sum ln 2%Z example_loaded = Some (0%float, example_loaded) /\
  [(11 / 100)%float; 0%float] !! 1%nat = Some 0%float /\
  exists scores st' c f,
    score ln example_loaded = Some (scores, st') /\
    [(41 / 100)%float; 0%float] !! 1%nat = Some c /\
    [(25 / 100)%float; nan] !! 1%nat = Some f /\
    scores !! 1%nat =
      Some (Np.round2 (100 * Np.nansum3 c 0 f
                       / (if PrimFloat.eqb f 0 then 1 else 2))%float).
Proof.
  eapply (single_release_meantime_zero ln example_loaded _ _ _ _ _ _ 1
            (2%Z, Some (10 * day)%Z) [ (Some (10 * day)%Z, FIRST, "0.1") ]).
  - vm_compute. reflexivity.
  - vm_compute. reflexivity.
  - simpl. lia.
  - vm_compute. reflexivity.
  - vm_compute. reflexivity.
  - vm_compute. reflexivity.
Defined.

(** ** The z-scores *)

(** The body of the loop of [compute_component_zscores]. *)
Lemma zscore_step_Some (zscore : list float -> list float) (col : string)
    (s s' : Versioning) :
  (column ← get_col col;
   set_col (col +:+ "_zscore") (map Np.round2 (zscore column))) s = Some (tt, s') <->
  exists column,
    columns s !! col = Some column /\
    length (map Np.round2 (zscore column)) = nrows s /\
    s' = set_columns (<[zscore_col col := map Np.round2 (zscore column)]> (columns s)) s.
Proof.
  split.
  - intros H. apply bind_Some in H as (column & s1 & Hget & Hset).
    unfold get_col in Hget. destruct (columns s !! col) as [c|] eqn:E; [|discriminate].
    injection Hget as <- <-. exists c. split; [reflexivity|].
    unfold set_col in Hset.
    destruct (Nat.eqb_spec (length (map Np.round2 (zscore c))) (nrows s)) as [Hlen|];
      [|discriminate].
    injection Hset as <-. split; [exact Hlen | reflexivity].
  - intros (column & Hcol & Hlen & ->).
    assert (G : get_col col s = Some (column, s)) by (unfold get_col; now rewrite Hcol).
    rewrite (bind_run _ _ _ _ _ G). unfold set_col.
    apply Nat.eqb_eq in Hlen. rewrite Hlen. reflexivity.
Qed.

Lemma zscores_first_run (zscore : list float -> list float) (cols : list string) :
  NoDup (map zscore_col cols) ->
  (forall c c', c ∈ cols -> c' ∈ cols -> c <> zscore_col c') ->
  forall s s' : Versioning,
    for_each cols (fun col =>
      column ← get_col col;
      set_col (col +:+ "_zscore") (map Np.round2 (zscore column))) s = Some (tt, s') ->
    nrows s' = nrows s /\
    (forall k, k ∉ map zscore_col cols -> columns s' !! k = columns s !! k) /\
    forall c, c ∈ cols ->
      exists column,
        columns s !! c = Some column /\
        columns s' !! zscore_col c = Some (map Np.round2 (zscore column)) /\
        length (map Np.round2 (zscore column)) = nrows s.
Proof.
  induction cols as [|col cols IH]; intros Hnd Hrw s s' H.
  - injection H as <-. split; [reflexivity|]. split; [reflexivity|].
    intros c Hc. inversion Hc.
  - simpl in H. apply bind_Some in H as ([] & s1 & Hstep & Hrest).
    apply zscore_step_Some in Hstep as (column & Hcol & Hlen & ->).
    simpl in Hnd. apply NoDup_cons in Hnd as [Hfresh Hnd].
    destruct (IH Hnd (fun c c' Hc Hc' => Hrw c c' (list_elem_of_further _ _ _ Hc)
                                          (list_elem_of_further _ _ _ Hc'))
                 _ _ Hrest) as (Hn & Hframe & Hcols).
    split; [exact Hn|]. split.
    + intros k Hk. simpl in Hk. apply not_elem_of_cons in Hk as [Hk1 Hk2].
      rewrite (Hframe k Hk2). simpl. now apply lookup_insert_ne.
    + intros c Hc. apply elem_of_cons in Hc as [->|Hc].
      * exists column. split; [exact Hcol|]. split; [|exact Hlen].
        rewrite (Hframe _ Hfresh). simpl. apply lookup_insert_eq.
      * destruct (Hcols c Hc) as (column' & Hc1 & Hc2 & Hc3).
        exists column'. simpl in Hc1.
        rewrite lookup_insert_ne in Hc1
          by (intros Heq; apply (Hrw c col); [now right | left | now symmetry]).
        split; [exact Hc1|]. split; [exact Hc2 | exact Hc3].
Qed.

Lemma set_columns_id (s : Versioning) (k : string) (v : list float) :
  columns s !! k = Some v -> set_columns (<[k := v]> (columns s)) s = s.
Proof.
  intros H. destruct s. unfold set_columns. simpl in *. now rewrite insert_id.
Qed.

Lemma zscores_second_run (zscore : list float -> list float) (cols : list string)
    (s : Versioning) :
  (forall c, c ∈ cols ->
     exists column,
       columns s !! c = Some column /\
       columns s !! zscore_col c = Some (map Np.round2 (zscore column)) /\
       length (map Np.round2 (zscore column)) = nrows s) ->
  for_each cols (fun col =>
    column ← get_col col;
    set_col (col +:+ "_zscore") (map Np.round2 (zscore column))) s = Some (tt, s).
Proof.
  induction cols as [|col cols IH]; intros Hcols; [reflexivity|].
  simpl. destruct (Hcols col) as (column & H1 & H2 & H3); [left|].
  assert (Hstep : (column ← get_col col;
                   set_col (col +:+ "_zscore") (map Np.round2 (zscore column))) s
                  = Some (tt, s)).
  { apply zscore_step_Some. exists column. split; [exact H1|]. split; [exact H3|].
    symmetry. now apply set_columns_id. }
  rewrite (bind_run _ _ _ _ _ Hstep). apply IH.
  intros c Hc. apply Hcols. now right.
Qed.

Lemma json_cols_zscore_names :
  NoDup (map zscore_col get_json_cols) /\
  forall c c', c ∈ get_json_cols -> c' ∈ get_json_cols -> c <> zscore_col c'.
Proof.
  split.
  - apply (bool_decide_unpack _). vm_compute. exact I.
  - assert (H : Forall (fun c => Forall (fun c' => c <> zscore_col c') get_json_cols)
                  get_json_cols)
      by (apply (bool_decide_unpack _); vm_compute; exact I).
    intros c c' Hc Hc'. rewrite Forall_forall in H. specialize (H c Hc).
    rewrite Forall_forall in H. exact (H c' Hc').
Qed.

(** C9. When [compute_component_zscores] has run, running it again on the
    object it left returns and leaves that object unchanged: every z-score
    column is written again with the value it already has. *)
Theorem compute_component_zscores_twice (zscore : list float -> list float)
    (st st' : Versioning) :
  compute_component_zscores zscore st = Some (tt, st') ->
  compute_component_zscores zscore st' = Some (tt, st') /\
  forall col, col ∈ get_json_cols ->
    exists column,
      columns st !! col = Some column /\
      columns st' !! col = Some column /\
      columns st' !! (col +:+ "_zscore") = Some (map Np.round2 (zscore column)).
Proof.
  intros H. unfold compute_component_zscores in *.
  destruct json_cols_zscore_names as [Hnd Hrw].
  destruct (zscores_first_run zscore get_json_cols Hnd Hrw st st' H)
    as (Hn & Hframe & Hcols).
  assert (Hkeep : forall c, c ∈ get_json_cols -> columns st' !! c = columns st !! c).
  { intros c Hc. apply Hframe. intros Hin.
    apply list_elem_of_fmap in Hin as (c' & Heq & Hc'). exact (Hrw c c' Hc Hc' Heq). }
  split.
  - apply zscores_second_run. intros c Hc.
    destruct (Hcols c Hc) as (column & H1 & H2 & H3).
    exists column. rewrite (Hkeep c Hc), Hn. auto.
  - intros col Hcol. destruct (Hcols col Hcol) as (column & H1 & H2 & H3).
    exists column. rewrite (Hkeep col Hcol). auto.
Qed.

(** A second run on the scored example object. *)
Lemma compute_component_zscores_twice_witness :
  compute_component_zscores zscore_omit example_zscored = Some (tt, example_zscored) /\
  forall col, col ∈ get_json_cols ->
    exists column,
      columns example_scored !! col = Some column /\
      columns example_zscored !! col = Some column /\
      columns example_zscored !! (col +:+ "_zscore")
        = Some (map Np.round2 (zscore_omit column)).
Proof.
  apply (compute_component_zscores_twice zscore_omit example_scored example_zscored).
  vm_compute. reflexivity.
Defined.

(** The z-scores of the final score of the two example projects. *)
Example example_zscores :
  columns example_zscored !! "versioning_openteams_score"
    = Some [(2567 / 100)%float; 0%float] /\
  columns example_zscored !! "versioning_openteams_score_zscore"
    = Some [1%float; (-1)%float].
Proof. split; vm_compute; reflexivity. Qed.

(** ** From the version frame to the date series *)

Lemma clean_version_data_subset (version : list VersionRow) (r : VersionRow) :
  r ∈ _clean_version_data version -> r ∈ version.
Proof.
  unfold _clean_version_data.
  destruct (0 <? length _)%nat; [|auto].
  intros H. apply list_elem_of_filter in H. tauto.
Qed.

Lemma rows_for_series_id (sort_values : list VersionRow -> list VersionRow)
    (version : list VersionRow) (id : Z) (r : VersionRow) :
  (forall l, sort_values l ≡ₚ l) ->
  r ∈ rows_for_series sort_values version id -> repository_id r = id.
Proof.
  intros Hperm H. unfold rows_for_series in H.
  apply clean_version_data_subset in H. rewrite (Hperm _) in H.
  apply list_elem_of_filter in H. tauto.
Qed.

Lemma Forall2_event_nums (repo_versions : list VersionRow) (series : list Event) :
  Forall2 (event_of repo_versions) (map number repo_versions) series ->
  map ev_num series = map number repo_versions.
Proof.
  generalize (map number repo_versions) as nums. intros nums H.
  induction H as [|v e nums series (kind & d & -> & _) _ IH]; [reflexivity|].
  simpl. now rewrite IH.
Qed.

Lemma set_version_series_loop (sort_values : list VersionRow -> list VersionRow)
    (ids : list Z) :
  (forall l, sort_values l ≡ₚ l) ->
  forall s s' : Versioning,
    for_each ids (fun id =>
      version ← gets version;
      let repo_versions :=
        sort_values (filter (fun r => repository_id r = id) version) in
      let repo_versions := _clean_version_data repo_versions in
      _build_series repo_versions id) s = Some (tt, s') ->
    version s' = version s /\ versioning s' = versioning s /\
    (forall id, id ∉ ids -> date_series s' !! id = date_series s !! id) /\
    forall id, id ∈ ids ->
      exists series,
        date_series s' !! id = Some series /\
        map ev_num series = map number (rows_for_series sort_values (version s) id).
Proof.
  intros Hperm. induction ids as [|a ids IH]; intros s s' H.
  - injection H as <-. repeat split. intros id Hid. inversion Hid.
  - simpl in H. apply bind_Some in H as ([] & s1 & Hbody & Hrest).
    apply bind_Some in Hbody as (v & s0 & Hv & Hbuild). injection Hv as <- <-.
    fold (rows_for_series sort_values (version s) a) in Hbuild.
    destruct (rows_for_series sort_values (version s) a) as [|first rows] eqn:Hrows.
    { unfold _build_series in Hbuild.
      apply bind_Some in Hbuild as (? & ? & _ & Hbuild).
      apply bind_Some in Hbuild as (? & ? & _ & Hbuild).
      apply bind_Some in Hbuild as (? & ? & Hfirst & _).
      apply lift_Some in Hfirst as [Hfirst _]. discriminate. }
    assert (Hid : repository_id first = a).
    { apply (rows_for_series_id sort_values (version s) a first Hperm).
      rewrite Hrows. left. }
    destruct (build_series_spec (first :: rows) a first s eq_refl Hid)
      as (s1' & series & Hrun & Hser & Hev & Hver & Hving & Hds).
    rewrite Hrun in Hbuild. injection Hbuild as <-.
    destruct (IH _ _ Hrest) as (Hver' & Hving' & Hframe & Hin).
    split; [congruence|]. split; [congruence|]. split.
    + intros id Hnot. apply not_elem_of_cons in Hnot as [Hne Hnot].
      rewrite (Hframe id Hnot), Hds. now apply lookup_insert_ne.
    + intros id Hmem. destruct (decide (id ∈ ids)) as [Hids|Hids].
      * destruct (Hin id Hids) as (series' & H1 & H2). exists series'.
        split; [exact H1|]. rewrite H2, Hver. reflexivity.
      * apply elem_of_cons in Hmem as [->|Hmem]; [|contradiction].
        exists series. rewrite (Hframe a Hids). split; [exact Hser|].
        rewrite Hrows. exact (Forall2_event_nums _ _ Hev).
Qed.

Lemma set_version_series_spec (sort_values : list VersionRow -> list VersionRow)
    (st st' : Versioning) :
  (forall l, sort_values l ≡ₚ l) ->
  _set_version_series sort_values st = Some (tt, st') ->
  forall id, id ∈ map fst (versioning st) ->
    exists series,
      date_series st' !! id = Some series /\
      map ev_num series = map number (rows_for_series sort_values (version st) id).
Proof.
  intros Hperm H id Hid. unfold _set_version_series in H.
  apply bind_Some in H as ([] & s0 & Hreset & H). injection Hreset as <-.
  apply bind_Some in H as (rows & s1 & Hrows & H). injection Hrows as <- <-.
  destruct (set_version_series_loop sort_values _ Hperm _ _ H) as (_ & _ & _ & Hin).
  exact (Hin id Hid).
Qed.

Lemma insert_row_perm (x : VersionRow) (l : list VersionRow) :
  insert_row x l ≡ₚ x :: l.
Proof.
  induction l as [|y l IH]; [reflexivity|]. simpl.
  destruct (date_leb (published_at y) (published_at x)); [|reflexivity].
  rewrite IH. apply Permutation_swap.
Qed.

Lemma sort_by_date_perm (l : list VersionRow) : sort_by_date l ≡ₚ l.
Proof.
  unfold sort_by_date.
  assert (H : forall acc, fold_left (fun acc x => insert_row x acc) l acc ≡ₚ l ++ acc).
  { induction l as [|x l IH]; intros acc; [reflexivity|].
    simpl. rewrite IH, insert_row_perm. symmetry. apply Permutation_middle. }
  rewrite H. now rewrite app_nil_r.
Qed.

(** C5. The rows whose version string contains "rc", "dev" or "nightly" are
    removed, unless every row contains one: then the list is returned as it
    is.  The date series of every project is built from the rows so
    cleaned. *)
Theorem clean_version_data_all_or_nothing :
  (forall version : list VersionRow,
      _clean_version_data version =
        (if bool_decide (Forall (fun r => is_prerelease r = true) version)
         then version
         else filter (fun r => is_prerelease r = false) version)) /\
  (forall r : VersionRow,
      is_prerelease r = true <->
      exists marker pre post,
        In marker ["rc"; "dev"; "nightly"] /\ number r = pre +:+ marker +:+ post) /\
  (forall (sort_values : list VersionRow -> list VersionRow) (st st' : Versioning),
      (forall l, sort_values l ≡ₚ l) ->
      _set_version_series sort_values st = Some (tt, st') ->
      forall id, id ∈ map fst (versioning st) ->
        exists series,
          date_series st' !! id = Some series /\
          map ev_num series =
            map number
              (_clean_version_data
                 (sort_values (filter (fun r => repository_id r = id) (version st))))).
Proof.
  split; [|split; [intros r; apply search_any_spec|]].
  - intros version. unfold _clean_version_data.
    destruct (filter (fun r => is_prerelease r = false) version) as [|x l] eqn:E.
    + simpl. apply filter_nil_Forall in E.
      rewrite bool_decide_eq_true_2; [reflexivity|].
      eapply Forall_impl; [exact E|]. intros r Hr. simpl in Hr.
      destruct (is_prerelease r); congruence.
    + simpl. rewrite bool_decide_eq_false_2; [reflexivity|].
      intros Hall.
      assert (Hx : x ∈ filter (fun r => is_prerelease r = false) version)
        by (rewrite E; left).
      apply list_elem_of_filter in Hx as [Hx1 Hx2].
      rewrite Forall_forall in Hall. apply Hall in Hx2. congruence.
  - intros sort_values st st' Hperm Hrun id Hid.
    exact (set_version_series_spec sort_values st st' Hperm Hrun id Hid).
Qed.

(** The series of the first example project. *)
Lemma clean_version_data_all_or_nothing_witness :
  exists series,
    date_series example_loaded !! 1%Z = Some series /\
    map ev_num series =
      map number
        (_clean_version_data
           (sort_by_date (filter (fun r => repository_id r = 1%Z)
                                 (version example_object)))).
Proof.
  apply (proj2 (proj2 clean_version_data_all_or_nothing) sort_by_date
           example_object example_loaded sort_by_date_perm).
  - vm_compute. reflexivity.
  - vm_compute. left.
Defined.

(** A project with development releases only keeps all its rows; one with a
    release candidate among its releases loses that row. *)
Example clean_version_data_examples :
  _clean_version_data dev_only_rows = dev_only_rows /\
  map number (_clean_version_data
                [ mkRow 7 "1.0rc1" (Some 0%Z); mkRow 7 "1.0" (Some day) ]) = ["1.0"].
Proof. split; reflexivity. Qed.

(** ** Further runs on concrete inputs *)

(** The tokenizer keeps the parts as they are written. *)
Example split_version_num_examples :
  _split_version_num "1.0.0.1" = Some ("1", "0", "0.1") /\
  _split_version_num "01.10" = Some ("01", "10", "0") /\
  _split_version_num "2" = Some ("2", "0", "0") /\
  _split_version_num "1..3" = Some ("1", "", "3").
Proof. repeat split; reflexivity. Qed.

(** In the group 1.0.0, 1.1.0, 1.1.1, a day apart, the code compares 1.1.1
    with the first release 1.0.0 of the group and closes a second minor
    gap; compared with the release before it, 1.1.1 would close a patch
    gap. *)
Example minor_patch_reference_is_first_release :
  let group : list Event :=
    [ (Some 0%Z, FIRST, "1.0.0"); (Some day, MINOR, "1.1.0");
      (Some (2 * day)%Z, PATCH, "1.1.1") ] in
  _get_minor_patch_deltatimes group = Some ([1%float; 1%float], []) /\
  spec_minor_patch_deltatimes group = Some ([1%float], [2%float]).
Proof. split; vm_compute; reflexivity. Qed.

(** Two releases on the same day: the gap is unknown, the bucket has no
    mean and the mean-time sub-score is 0. *)
Example same_day_releases :
  let st := mkVersioning [] [(5%Z, Some day)] ∅
              (<[5%Z := [ (Some 0%Z, FIRST, "1.0"); (Some 0%Z, MINOR, "1.1") ]]> ∅)
              (<[5%Z := []]> ∅) in
  fst <$> _build_deltatime_series 5 st = Some ([], [nan], []) /\
  bucket_mean [nan] = nan /\
  fst <$> _meantime_weighted_sum ln 5 st = Some 0%float.
Proof. repeat split; vm_compute; reflexivity. Qed.

(** * Further properties of the code *)

(** ** The pre-release filter, the tokenizer and the classifier *)

(** X1. [_clean_version_data] never empties a frame that has rows; it keeps
    rows of the frame in their order, and cleaning a cleaned frame changes
    nothing. *)
Theorem clean_version_data_keeps_rows (version : list VersionRow) :
  (_clean_version_data version = [] <-> version = []) /\
  _clean_version_data version `sublist_of` version /\
  _clean_version_data (_clean_version_data version) = _clean_version_data version.
Proof.
  unfold _clean_version_data.
  destruct (filter (fun r => is_prerelease r = false) version) as [|x l] eqn:E.
  - simpl. rewrite E. simpl. repeat split; auto.
  - simpl. rewrite <- E.
    rewrite (list_filter_filter_l _ _ version) by auto.
    rewrite E. simpl. split; [|split; [|reflexivity]].
    + split; [discriminate|]. intros ->. discriminate.
    + rewrite <- E. apply sublist_filter.
Qed.

Lemma str_app_assoc (a b c : string) : (a +:+ b) +:+ c = a +:+ (b +:+ c).
Proof.
  induction a as [|x a IH]; [reflexivity|]. rewrite !app_String. now rewrite IH.
Qed.

Lemma split_app (sep : ascii) (a b : string) :
  PyStr.split sep (a +:+ String sep b) = PyStr.split sep a ++ PyStr.split sep b.
Proof.
  induction a as [|c a IH].
  - simpl. rewrite Ascii.eqb_refl. reflexivity.
  - rewrite app_String. simpl. destruct (Ascii.eqb c sep).
    + rewrite IH. reflexivity.
    + rewrite IH. pose proof (split_nonempty sep a) as Hne.
      destruct (PyStr.split sep a); [congruence | reflexivity].
Qed.

Lemma split_free_of (sep : ascii) (s : string) :
  PyStr.free_of sep s = true -> PyStr.split sep s = [s].
Proof.
  induction s as [|c s IH]; [reflexivity|]. simpl.
  destruct (Ascii.eqb c sep); simpl; [discriminate|].
  intros H. now rewrite (IH H).
Qed.

Lemma split_rejoin (a b c : string) :
  PyStr.free_of dot a = true -> PyStr.free_of dot b = true ->
  _split_version_num (rejoin (a, b, c)) = Some (a, b, c).
Proof.
  intros Ha Hb.
  assert (Hsplit : PyStr.split dot (rejoin (a, b, c)) = a :: b :: PyStr.split dot c).
  { unfold rejoin. simpl.
    change (a +:+ "." +:+ b +:+ "." +:+ c)
      with (a +:+ String dot (b +:+ String dot c)).
    now rewrite !split_app, (split_free_of _ _ Ha), (split_free_of _ _ Hb). }
  pose proof (split_version_num_cases (rejoin (a, b, c))) as Hcases.
  rewrite Hsplit in Hcases.
  pose proof (split_nonempty dot c) as Hne. pose proof (join_split dot c) as Hj.
  destruct (PyStr.split dot c) as [|c0 tl]; [congruence|].
  rewrite Hcases. unfold dot in Hj. now rewrite Hj.
Qed.

(** X2. The triple of a version string, joined again by dots, is a version
    string with the same triple; it is the version string itself when that
    has at least three parts, and the first two slots never hold a dot. *)
Theorem split_version_num_rejoin (num : string) :
  exists parts : StructuralVersion,
    _split_version_num num = Some parts /\
    _split_version_num (rejoin parts) = Some parts /\
    PyStr.free_of dot parts.1.1 = true /\ PyStr.free_of dot parts.1.2 = true /\
    match PyStr.split dot num with
    | [_] => rejoin parts = num +:+ ".0.0"
    | [_; _] => rejoin parts = num +:+ ".0"
    | _ => rejoin parts = num
    end.
Proof.
  pose proof (split_version_num_cases num) as Hcases.
  pose proof (split_free dot num) as Hfree.
  pose proof (join_split dot num) as Hjoin.
  destruct (PyStr.split dot num) as [|p0 [|p1 [|p2 tail]]]; [contradiction| | |].
  - apply Forall_cons in Hfree as [F0 _]. simpl in Hjoin. subst p0.
    exists (num, "0", "0"). split; [exact Hcases|].
    split; [now apply split_rejoin|]. repeat split; assumption.
  - apply Forall_cons in Hfree as [F0 Hrest]. apply Forall_cons in Hrest as [F1 _].
    exists (p0, p1, "0"). split; [exact Hcases|].
    split; [now apply split_rejoin|]. repeat split; try assumption.
    unfold rejoin. simpl in *. rewrite <- Hjoin.
    rewrite !str_app_assoc. reflexivity.
  - apply Forall_cons in Hfree as [F0 Hrest]. apply Forall_cons in Hrest as [F1 _].
    exists (p0, p1, PyStr.join "." (p2 :: tail)). split; [exact Hcases|].
    split; [now apply split_rejoin|]. repeat split; assumption.
Qed.

Lemma ne_false_iff (a b : string) : PyStr.ne a b = false <-> a = b.
Proof.
  unfold PyStr.ne. destruct (String.eqb_spec a b); simpl; split; congruence.
Qed.

Lemma ne_sym (a b : string) : PyStr.ne a b = PyStr.ne b a.
Proof. unfold PyStr.ne. now rewrite String.eqb_sym. Qed.

(** X3. [_find_version_type] answers FIRST exactly for two equal triples,
    gives the same kind in both directions, and never answers OTHER. *)
Theorem find_version_type_first_iff_equal (prev curr : StructuralVersion) :
  (_find_version_type prev curr = FIRST <-> prev = curr) /\
  _find_version_type prev curr = _find_version_type curr prev /\
  _find_version_type prev curr <> OTHER.
Proof.
  destruct prev as [[p0 p1] p2], curr as [[c0 c1] c2]. unfold _find_version_type.
  rewrite (ne_sym c0 p0), (ne_sym c1 p1), (ne_sym c2 p2).
  destruct (PyStr.ne p0 c0) eqn:E0; [|apply ne_false_iff in E0 as ->].
  { repeat split; try discriminate. intros [= -> _ _].
    assert (PyStr.ne c0 c0 = false) by now apply ne_false_iff. congruence. }
  destruct (PyStr.ne p1 c1) eqn:E1; [|apply ne_false_iff in E1 as ->].
  { repeat split; try discriminate. intros [= -> _].
    assert (PyStr.ne c1 c1 = false) by now apply ne_false_iff. congruence. }
  destruct (PyStr.ne p2 c2) eqn:E2; [|apply ne_false_iff in E2 as ->].
  { repeat split; try discriminate. intros [= ->].
    assert (PyStr.ne c2 c2 = false) by now apply ne_false_iff. congruence. }
  repeat split; discriminate.
Qed.

(** ** The detector and the partition of a flagged timeline *)

Lemma n_decreases_bound (majors : list string) :
  n_decreases majors <= length majors - 1.
Proof.
  induction majors as [|a rest IH]; [simpl; lia|].
  destruct rest as [|b tl]; [simpl; lia|].
  change (n_decreases (a :: b :: tl))
    with ((if PyStr.gt a b then 1 else 0) + n_decreases (b :: tl)).
  simpl in *. destruct (PyStr.gt a b); lia.
Qed.

Lemma ltb_irrefl (a : string) : String.ltb a a = false.
Proof.
  destruct (String.ltb a a) eqn:E; [|reflexivity].
  pose proof (ltb_asym a a E). congruence.
Qed.

Lemma n_decreases_two_tokens (majors : list string) :
  0 < n_decreases majors ->
  exists a b, a ∈ majors /\ b ∈ majors /\ a <> b.
Proof.
  induction majors as [|a rest IH]; [simpl; lia|].
  destruct rest as [|b tl]; [simpl; lia|].
  change (n_decreases (a :: b :: tl))
    with ((if PyStr.gt a b then 1 else 0) + n_decreases (b :: tl)).
  destruct (PyStr.gt a b) eqn:E.
  - intros _. exists a, b. split; [left|]. split; [right; left|].
    intros ->. unfold PyStr.gt in E. rewrite ltb_irrefl in E. discriminate.
  - intros H. destruct IH as (x & y & Hx & Hy & Hne); [simpl in *; lia|].
    exists x, y. split; [now right|]. split; [now right | exact Hne].
Qed.

(** X4. A timeline that [check_parallel_versions] flags has at least four
    events, and the list of majors returned for it has at least two
    entries. *)
Theorem check_parallel_versions_flagged_size (date_series : list Event) :
  (check_parallel_versions date_series).1 = true ->
  4 <= length date_series /\ 2 <= length (check_parallel_versions date_series).2.
Proof.
  unfold check_parallel_versions.
  set (majors := map (fun date => major_token (ev_num date)) date_series).
  destruct (check_parallel_loop_spec majors majors 0) as [H1 H2]; [lia|].
  destruct (check_parallel_loop majors majors 0) as [flag l]. simpl in *.
  intros ->. subst l. destruct H1 as [H1 _]. specialize (H1 eq_refl).
  pose proof (n_decreases_bound majors) as Hb.
  unfold majors in Hb at 2. rewrite length_map in Hb. split; [lia|].
  destruct (n_decreases_two_tokens majors) as (a & b & Ha & Hb' & Hne); [lia|].
  unfold list_set.
  assert (Ha' : a ∈ elements (list_to_set majors : gset string))
    by now rewrite elem_of_elements, elem_of_list_to_set.
  assert (Hb'' : b ∈ elements (list_to_set majors : gset string))
    by now rewrite elem_of_elements, elem_of_list_to_set.
  destruct (elements (list_to_set majors : gset string)) as [|x [|y l]]; simpl.
  - inversion Ha'.
  - apply list_elem_of_singleton in Ha', Hb''. congruence.
  - lia.
Qed.

(** The timeline of the docstring has six events and three majors. *)
Lemma check_parallel_versions_flagged_size_witness :
  4 <= length (map (fun v => (None, FIRST, v) : Event)
                   ["2.0.1"; "1.0.1"; "3.0.2"; "2.0.3"; "3.1.0"; "1.0.5"]) /\
  2 <= length (check_parallel_versions
                 (map (fun v => (None, FIRST, v) : Event)
                    ["2.0.1"; "1.0.1"; "3.0.2"; "2.0.3"; "3.1.0"; "1.0.5"])).2.
Proof.
  apply check_parallel_versions_flagged_size. vm_compute. reflexivity.
Defined.

Lemma ascii_compare_N (a b : ascii) :
  Ascii.compare a b = (N_of_ascii a ?= N_of_ascii b)%N.
Proof. reflexivity. Qed.

Lemma string_compare_le_trans (s1 : string) :
  forall s2 s3 : string,
    String.compare s1 s2 <> Gt -> String.compare s2 s3 <> Gt ->
    String.compare s1 s3 <> Gt.
Proof.
  induction s1 as [|a s1 IH]; intros [|b s2] [|c s3]; simpl; try congruence.
  rewrite !ascii_compare_N.
  destruct (N.compare_spec (N_of_ascii a) (N_of_ascii b)) as [E1|L1|G1];
    destruct (N.compare_spec (N_of_ascii b) (N_of_ascii c)) as [E2|L2|G2];
    try congruence; intros H1 H2.
  - rewrite E1, E2, N.compare_refl. now apply (IH s2 s3).
  - rewrite E1. apply N.compare_lt_iff in L2. rewrite L2. discriminate.
  - rewrite <- E2. apply N.compare_lt_iff in L1. rewrite L1. discriminate.
  - assert (L : (N_of_ascii a < N_of_ascii c)%N) by lia.
    apply N.compare_lt_iff in L. rewrite L. discriminate.
Qed.

Lemma leb_compare (a b : string) :
  String.leb a b = true <-> String.compare a b <> Gt.
Proof. unfold String.leb. destruct (String.compare a b); split; congruence. Qed.

Lemma leb_trans (a b c : string) :
  String.leb a b = true -> String.leb b c = true -> String.leb a c = true.
Proof. rewrite !leb_compare. apply string_compare_le_trans. Qed.

Lemma leb_ne_ltb (a b : string) :
  String.leb a b = true -> a <> b -> String.ltb a b = true.
Proof.
  unfold String.leb, String.ltb. intros H Hne.
  destruct (String.compare a b) eqn:E; try congruence.
  apply String.compare_eq_iff in E. contradiction.
Qed.

Lemma insert_item_perm {V : Type} (x : string * V) (l : list (string * V)) :
  insert_item x l ≡ₚ x :: l.
Proof.
  induction l as [|y l IH]; [reflexivity|]. simpl.
  destruct (String.leb x.1 y.1); [reflexivity|].
  rewrite IH. apply Permutation_swap.
Qed.

Lemma insert_item_sorted {V : Type} (x : string * V) (l : list (string * V)) :
  sorted_by_key l -> sorted_by_key (insert_item x l).
Proof.
  induction l as [|y l IH]; intros Hs; [simpl; auto|].
  destruct Hs as [Hy Hs]. simpl.
  destruct (String.leb x.1 y.1) eqn:E.
  - simpl. split; [|split; assumption]. constructor; [exact E|].
    eapply Forall_impl; [exact Hy|]. intros z Hz. simpl in Hz.
    exact (leb_trans _ _ _ E Hz).
  - simpl. split; [|now apply IH].
    rewrite (insert_item_perm x l). constructor; [|exact Hy].
    destruct (String.leb_total x.1 y.1) as [H|H]; [congruence | exact H].
Qed.

Lemma sorted_items_perm {V : Type} (d : gmap string V) :
  sorted_items d ≡ₚ map_to_list d.
Proof.
  unfold sorted_items. induction (map_to_list d) as [|x l IH]; [reflexivity|].
  simpl. now rewrite insert_item_perm, IH.
Qed.

Lemma sorted_items_sorted {V : Type} (d : gmap string V) :
  sorted_by_key (sorted_items d).
Proof.
  unfold sorted_items. induction (map_to_list d) as [|x l IH]; [exact I|].
  simpl. now apply insert_item_sorted.
Qed.

Lemma sorted_by_key_lookup {V : Type} (l : list (string * V)) :
  sorted_by_key l ->
  forall (i j : nat) (a b : string * V),
    i < j -> l !! i = Some a -> l !! j = Some b -> String.leb a.1 b.1 = true.
Proof.
  induction l as [|x l IH]; intros Hs i j a b Hij Hi Hj; [discriminate|].
  destruct Hs as [Hx Hs]. destruct j as [|j]; [lia|]. simpl in Hj.
  destruct i as [|i].
  - injection Hi as <-. rewrite Forall_forall in Hx. apply Hx.
    apply list_elem_of_lookup. eauto.
  - simpl in Hi. apply (IH Hs i j); [lia | assumption | assumption].
Qed.

Lemma sorted_items_ascending {V : Type} (d : gmap string V) :
  keys_ascending (sorted_items d).
Proof.
  intros i j a b Hij Hi Hj.
  apply leb_ne_ltb;
    [exact (sorted_by_key_lookup _ (sorted_items_sorted d) i j a b Hij Hi Hj)|].
  assert (Hnd : NoDup (sorted_items d).*1).
  { rewrite (sorted_items_perm d). apply NoDup_fst_map_to_list. }
  intros Heq. assert (i = j); [|lia].
  apply (NoDup_lookup _ i j a.1 Hnd); rewrite list_lookup_fmap.
  - now rewrite Hi.
  - rewrite Hj. simpl. now rewrite Heq.
Qed.

Lemma sorted_items_elem {V : Type} (d : gmap string V) (k : string) (v : V) :
  (k, v) ∈ sorted_items d <-> d !! k = Some v.
Proof. rewrite (sorted_items_perm d). apply elem_of_map_to_list. Qed.

Lemma track_parallel_loop_char (date_series : list Event) :
  forall d d' : gmap string (list Event),
    track_parallel_loop d date_series = Some d' ->
    forall k : string,
      d' !! k = (fun g => g ++ events_of_major k date_series) <$> d !! k.
Proof.
  unfold events_of_major.
  induction date_series as [|elt rest IH]; intros d d' H k.
  - injection H as <-. rewrite filter_nil.
    destruct (d !! k); simpl; [now rewrite app_nil_r | reflexivity].
  - simpl in H.
    destruct (d !! major_token (ev_num elt)) as [group|] eqn:Hg; [|discriminate].
    simpl in H. rewrite (IH _ _ H k), filter_cons.
    destruct (decide (major_token (ev_num elt) = k)) as [<-|Hne].
    + rewrite lookup_insert_eq, Hg. simpl. now rewrite <- app_assoc.
    + now rewrite lookup_insert_ne.
Qed.

Lemma track_parallel_loop_None (date_series : list Event) :
  forall d : gmap string (list Event),
    track_parallel_loop d date_series = None <->
    exists e, e ∈ date_series /\ d !! major_token (ev_num e) = None.
Proof.
  induction date_series as [|elt rest IH]; intros d.
  - simpl. split; [discriminate | intros (e & He & _); inversion He].
  - simpl. destruct (d !! major_token (ev_num elt)) as [group|] eqn:Hg; simpl.
    + rewrite IH. split.
      * intros (e & He & Hd). exists e. split; [now right|].
        apply lookup_insert_None in Hd. tauto.
      * intros (e & He & Hd). apply elem_of_cons in He as [->|He]; [congruence|].
        exists e. split; [exact He|]. apply lookup_insert_None.
        split; [exact Hd | congruence].
    + split; [|reflexivity]. intros _. exists elt. split; [left | exact Hg].
Qed.

Lemma empty_groups_lookup (majors : list string) (k : string) :
  (list_to_map (map (fun k => (k, [])) majors) : gmap string (list Event)) !! k
  = if decide (k ∈ majors) then Some [] else None.
Proof.
  induction majors as [|a majors IH]; simpl.
  - rewrite lookup_empty. destruct (decide (k ∈ [])) as [H|H]; [inversion H | reflexivity].
  - destruct (decide (a = k)) as [->|Hne].
    + rewrite lookup_insert_eq. rewrite decide_True by left. reflexivity.
    + rewrite lookup_insert_ne by assumption. rewrite IH.
      destruct (decide (k ∈ majors)) as [H|H].
      * rewrite decide_True by now right. reflexivity.
      * rewrite decide_False; [reflexivity|].
        intros Hin. apply elem_of_cons in Hin as [->|Hin]; congruence.
Qed.

(** X5. Given major tokens that cover the timeline, [track_parallel_versions]
    returns one item per given token, the tokens strictly ascending as
    strings, and the group of a token holds exactly the events of the
    timeline with that major token, in the order of the timeline. *)
Theorem track_parallel_versions_partition (date_series : list Event)
    (major_versions : list string) :
  (forall e, e ∈ date_series -> major_token (ev_num e) ∈ major_versions) ->
  exists tracked,
    track_parallel_versions date_series major_versions = Some tracked /\
    keys_ascending tracked /\
    forall (k : string) (group : list Event),
      (k, group) ∈ tracked <->
      k ∈ major_versions /\ group = events_of_major k date_series.
Proof.
  intros Hcover. unfold track_parallel_versions.
  destruct (track_parallel_loop
              (list_to_map (map (fun k => (k, [])) major_versions)) date_series)
    as [d|] eqn:Hloop.
  - exists (sorted_items d). split; [reflexivity|].
    split; [apply sorted_items_ascending|]. intros k group.
    rewrite sorted_items_elem, (track_parallel_loop_char _ _ _ Hloop k),
      empty_groups_lookup.
    destruct (decide (k ∈ major_versions)) as [Hk|Hk]; simpl.
    + split; [intros [= <-]; auto | intros [_ ->]; reflexivity].
    + split; [discriminate | tauto].
  - apply track_parallel_loop_None in Hloop as (e & He & Hd).
    rewrite empty_groups_lookup in Hd. rewrite decide_True in Hd by auto.
    discriminate.
Qed.

(** The majors of the docstring's timeline cover it. *)
Lemma track_parallel_versions_partition_witness :
  exists tracked,
    track_parallel_versions
      (map (fun v => (None, FIRST, v) : Event) ["2.0.1"; "1.0.1"; "2.0.3"])
      ["1"; "2"] = Some tracked /\
    keys_ascending tracked /\
    forall (k : string) (group : list Event),
      (k, group) ∈ tracked <->
      k ∈ ["1"; "2"] /\
      group = events_of_major k
                (map (fun v => (None, FIRST, v) : Event) ["2.0.1"; "1.0.1"; "2.0.3"]).
Proof.
  apply track_parallel_versions_partition.
  intros e He. simpl in He.
  rewrite !elem_of_cons, elem_of_nil in He.
  destruct He as [->|[->|[->|[]]]];
    apply (bool_decide_unpack _); vm_compute; exact I.
Defined.

(** X6. [track_parallel_versions] raises (a missing key) exactly when some
    event of the timeline has a major token that is not among the given
    ones. *)
Theorem track_parallel_versions_missing_major (date_series : list Event)
    (major_versions : list string) :
  track_parallel_versions date_series major_versions = None <->
  exists e, e ∈ date_series /\ major_token (ev_num e) ∉ major_versions.
Proof.
  unfold track_parallel_versions.
  destruct (track_parallel_loop
              (list_to_map (map (fun k => (k, [])) major_versions)) date_series)
    as [d|] eqn:Hloop; simpl.
  - split; [discriminate|]. intros (e & He & Hnot).
    assert (Hnone : track_parallel_loop
                      (list_to_map (map (fun k => (k, [])) major_versions))
                      date_series = None).
    { apply track_parallel_loop_None. exists e. split; [exact He|].
      rewrite empty_groups_lookup. now rewrite decide_False. }
    congruence.
  - split; [|reflexivity]. intros _.
    apply track_parallel_loop_None in Hloop as (e & He & Hd).
    exists e. split; [exact He|]. rewrite empty_groups_lookup in Hd.
    destruct (decide (major_token (ev_num e) ∈ major_versions)); [discriminate | assumption].
Qed.

(** ** One project's series: kinds, parallel entry and errors *)

Lemma find_version_type_same (p : StructuralVersion) :
  _find_version_type p p = FIRST.
Proof.
  destruct p as [[p0 p1] p2]. unfold _find_version_type.
  now rewrite !(proj2 (ne_false_iff _ _) eq_refl).
Qed.

Lemma update_series_run (repo_versions : list VersionRow) (v : string)
    (kind : Release) (st : Versioning) (first : VersionRow) (d : Timestamp)
    (done : list Event) :
  repo_versions !! 0%nat = Some first ->
  first_published_at repo_versions v = Some d ->
  date_series st !! repository_id first = Some done ->
  _update_series repo_versions v kind st =
    Some (tt, set_date_series (repository_id first) (done ++ [(d, kind, v)]) st).
Proof.
  intros H0 Hd Hst.
  unfold _update_series, mbind, Py_bind, lift, get_date_series, modify.
  rewrite Hd, H0. simpl. rewrite Hst. reflexivity.
Qed.

Lemma first_published_at_is_Some (repo_versions : list VersionRow) (v : string) :
  is_Some (first_published_at repo_versions v) <-> v ∈ map number repo_versions.
Proof.
  unfold first_published_at. split.
  - intros [d Hd].
    destruct (head (filter (fun r => number r = v) repo_versions)) as [row|] eqn:E;
      [|discriminate].
    apply head_filter_first in E as (j & Hj & Hnum & _).
    apply list_elem_of_fmap. exists row. split; [now symmetry|].
    apply list_elem_of_lookup. eauto.
  - intros Hin. apply list_elem_of_fmap in Hin as (row & -> & Hrow).
    apply list_elem_of_lookup in Hrow as [i Hi].
    destruct (head_filter_some (fun r => number r = number row) repo_versions i row Hi eq_refl)
      as [y Hy].
    rewrite Hy. simpl. eauto.
Qed.

(** X7. [_update_series] returns exactly when the version string occurs in
    the frame and the project of the frame's first row has a series; it
    then appends one event to that series, dated by the first row with the
    version string, and changes nothing else. *)
Theorem update_series_appends_one_event (repo_versions : list VersionRow)
    (version_num : string) (version_type : Release) (st : Versioning) :
  (is_Some (_update_series repo_versions version_num version_type st) <->
   version_num ∈ map number repo_versions /\
   exists first, repo_versions !! 0%nat = Some first /\
                 is_Some (date_series st !! repository_id first)) /\
  forall st' : Versioning,
    _update_series repo_versions version_num version_type st = Some (tt, st') ->
    exists (first row : VersionRow) (j : nat) (done : list Event),
      repo_versions !! 0%nat = Some first /\
      repo_versions !! j = Some row /\ number row = version_num /\
      (forall (k : nat) (other : VersionRow),
          k < j -> repo_versions !! k = Some other -> number other <> version_num) /\
      date_series st !! repository_id first = Some done /\
      st' = set_date_series (repository_id first)
              (done ++ [(published_at row, version_type, version_num)]) st.
Proof.
  split.
  - split.
    + intros [[[] st'] H]. unfold _update_series in H.
      apply bind_Some in H as (d & s1 & Hd & H). apply lift_Some in Hd as [Hd ->].
      apply bind_Some in H as (id & s2 & Hid & H). apply lift_Some in Hid as [Hid ->].
      apply bind_Some in H as (series & s3 & Hs & _).
      apply get_date_series_Some in Hs as [Hs ->].
      split; [apply first_published_at_is_Some; eauto|].
      destruct (repo_versions !! 0%nat) as [first|]; [|discriminate].
      injection Hid as <-. exists first. split; [reflexivity | eauto].
    + intros (Hin & first & H0 & [done Hdone]).
      apply first_published_at_is_Some in Hin as [d Hd].
      rewrite (update_series_run _ _ _ _ first d done H0 Hd Hdone). eauto.
  - intros st' H. unfold _update_series in H.
    apply bind_Some in H as (d & s1 & Hd & H). apply lift_Some in Hd as [Hd ->].
    apply bind_Some in H as (id & s2 & Hid & H). apply lift_Some in Hid as [Hid ->].
    apply bind_Some in H as (series & s3 & Hs & H).
    apply get_date_series_Some in Hs as [Hs ->].
    destruct (repo_versions !! 0%nat) as [first|] eqn:H0; [|discriminate].
    injection Hid as <-. unfold first_published_at in Hd.
    destruct (head (filter (fun r => number r = version_num) repo_versions))
      as [row|] eqn:E; [|discriminate].
    injection Hd as <-.
    apply head_filter_first in E as (j & Hj & Hnum & Hmin).
    exists first, row, j, series. repeat split; try assumption.
    unfold modify in H. now injection H as <-.
Qed.

Lemma build_series_loop_kinds (repo_versions : list VersionRow) (id : Z)
    (first : VersionRow) (numbers : list string) :
  repo_versions !! 0%nat = Some first -> repository_id first = id ->
  (forall v, v ∈ numbers -> exists d, first_published_at repo_versions v = Some d) ->
  forall (prev : StructuralVersion) (st : Versioning) (done : list Event),
    date_series st !! id = Some done ->
    exists events,
      _build_series_loop repo_versions prev numbers st =
        Some (tt, set_date_series id (done ++ events) st) /\
      Forall2 (event_of repo_versions) numbers events /\
      (forall v p, numbers !! 0%nat = Some v -> _split_version_num v = Some p ->
         ev_type <$> events !! 0%nat = Some (_find_version_type prev p)) /\
      (forall i v v' p p',
         numbers !! i = Some v -> numbers !! S i = Some v' ->
         _split_version_num v = Some p -> _split_version_num v' = Some p' ->
         ev_type <$> events !! S i = Some (_find_version_type p p')).
Proof.
  intros H0 Hid. induction numbers as [|v numbers IH]; intros Hall prev st done Hst.
  - exists []. simpl. split; [|split; [constructor|split; intros; discriminate]].
    rewrite app_nil_r. unfold mret, Py_ret. now rewrite set_date_series_id.
  - destruct (split_version_num_total v) as [parts Hparts].
    destruct (Hall v) as [d Hd]; [left|].
    set (item := (d, _find_version_type prev parts, v) : Event).
    assert (Hstep : _update_series repo_versions v (_find_version_type prev parts) st
                    = Some (tt, set_date_series id (done ++ [item]) st)).
    { rewrite <- Hid. apply update_series_run; [assumption | assumption |].
      now rewrite Hid. }
    destruct (IH (fun w Hw => Hall w (list_elem_of_further _ _ _ Hw)) parts
                 (set_date_series id (done ++ [item]) st) (done ++ [item])
                 (date_series_set _ _ _)) as (events & Hloop & Hev & Hk0 & Hk).
    exists (item :: events). split; [|split; [|split]].
    + simpl. unfold mbind, Py_bind, lift at 1. rewrite Hparts.
      rewrite Hstep, Hloop. rewrite set_date_series_twice, <- app_assoc. reflexivity.
    + constructor; [|exact Hev].
      exists (_find_version_type prev parts), d. split; [reflexivity | exact Hd].
    + intros w p [= <-] Hp. rewrite Hp in Hparts. injection Hparts as <-.
      reflexivity.
    + intros [|i] w w' p p' Hw Hw' Hp Hp'; simpl in *.
      * injection Hw as <-. rewrite Hp in Hparts. injection Hparts as <-.
        exact (Hk0 w' p' Hw' Hp').
      * exact (Hk i w w' p p' Hw Hw' Hp Hp').
Qed.

Lemma build_series_run (repo_versions : list VersionRow) (id : Z)
    (first : VersionRow) (st : Versioning) :
  repo_versions !! 0%nat = Some first -> repository_id first = id ->
  exists series d,
    Forall2 (event_of repo_versions) (map number repo_versions) series /\
    ev_type <$> series !! 0%nat = Some FIRST /\
    (forall i v v' p p',
       map number repo_versions !! i = Some v ->
       map number repo_versions !! S i = Some v' ->
       _split_version_num v = Some p -> _split_version_num v' = Some p' ->
       ev_type <$> series !! S i = Some (_find_version_type p p')) /\
    track_parallel_loop
      (list_to_map
         (map (fun k => (k, []))
            (list_set (map (fun date => major_token (ev_num date)) series))))
      series = Some d /\
    _build_series repo_versions id st =
      Some (tt, mkVersioning (version st) (versioning st) (columns st)
                  (<[id := series]> (date_series st))
                  (<[id := if (check_parallel_versions series).1
                           then sorted_items d else []]>
                     (parallel_date_series st))).
Proof.
  intros H0 Hid.
  destruct (split_version_num_total (number first)) as [parts Hparts].
  set (st1 := set_parallel_date_series id [] (set_date_series id [] st)).
  destruct (build_series_loop_kinds repo_versions id first (map number repo_versions)
              H0 Hid) with (prev := parts) (st := st1) (done := @nil Event)
    as (series & Hloop & Hev & Hk0 & Hk).
  { intros v Hv. now apply first_published_at_is_Some. }
  { unfold st1, set_parallel_date_series. simpl. apply lookup_insert_eq. }
  simpl in Hloop.
  pose proof (check_parallel_loop_spec
                (map (fun date => major_token (ev_num date)) series)
                (map (fun date => major_token (ev_num date)) series) 0) as [_ Hlist];
    [lia|].
  fold (check_parallel_versions series) in Hlist.
  pose proof (track_parallel_versions_total series) as [tracked Htracked].
  unfold track_parallel_versions in Htracked.
  destruct (track_parallel_loop _ series) as [d|] eqn:Hd; [|discriminate].
  simpl in Htracked. injection Htracked as <-.
  exists series, d. split; [exact Hev|]. split; [|split; [exact Hk|split; [exact Hd|]]].
  - rewrite (Hk0 (number first) parts); [now rewrite find_version_type_same| |exact Hparts].
    change (map number repo_versions) with (number <$> repo_versions).
    rewrite list_lookup_fmap, H0. reflexivity.
  - unfold _build_series, mbind, Py_bind, modify, lift at 1 2.
    rewrite H0. rewrite Hparts. fold st1. rewrite Hloop.
    unfold get_date_series. rewrite date_series_set.
    destruct (check_parallel_versions series) as [flag majors] eqn:Hcheck.
    simpl in Hlist. simpl. destruct flag.
    + subst majors. unfold lift, track_parallel_versions. rewrite Hd. simpl.
      unfold modify. f_equal. f_equal. unfold set_parallel_date_series, st1. simpl.
      f_equal; [now rewrite !insert_insert_eq | now rewrite !insert_insert_eq].
    + unfold mret, Py_ret. f_equal. f_equal. unfold set_parallel_date_series, st1.
      unfold set_date_series. simpl.
      f_equal; now rewrite !insert_insert_eq.
Qed.

(** X8. In the series [_build_series] stores for a project, the first event
    has kind FIRST and every later event has the kind [_find_version_type]
    gives for the version strings of the row before it and of its own row;
    so a row repeating the version string before it is stored as FIRST
    too, and no event is stored as OTHER. *)
Theorem build_series_kinds (repo_versions : list VersionRow) (id : Z)
    (first : VersionRow) (st : Versioning) :
  repo_versions !! 0%nat = Some first -> repository_id first = id ->
  exists st' series,
    _build_series repo_versions id st = Some (tt, st') /\
    date_series st' !! id = Some series /\
    ev_type <$> series !! 0%nat = Some FIRST /\
    (forall (i : nat) (row row' : VersionRow) (p p' : StructuralVersion),
        repo_versions !! i = Some row -> repo_versions !! S i = Some row' ->
        _split_version_num (number row) = Some p ->
        _split_version_num (number row') = Some p' ->
        ev_type <$> series !! S i = Some (_find_version_type p p') /\
        (number row = number row' -> ev_type <$> series !! S i = Some FIRST)) /\
    forall e, e ∈ series -> ev_type e <> OTHER.
Proof.
  intros H0 Hid.
  destruct (build_series_run repo_versions id first st H0 Hid)
    as (series & d & Hev & Hk0 & Hk & _ & Hrun).
  assert (Hkinds : forall (i : nat) (row row' : VersionRow) (p p' : StructuralVersion),
        repo_versions !! i = Some row -> repo_versions !! S i = Some row' ->
        _split_version_num (number row) = Some p ->
        _split_version_num (number row') = Some p' ->
        ev_type <$> series !! S i = Some (_find_version_type p p')).
  { intros i row row' p p' Hi HSi Hp Hp'.
    apply (Hk i (number row) (number row') p p'); try assumption;
      change (map number repo_versions) with (number <$> repo_versions);
      rewrite list_lookup_fmap; [now rewrite Hi | now rewrite HSi]. }
  eexists _, series. split; [exact Hrun|]. simpl.
  split; [apply lookup_insert_eq|]. split; [exact Hk0|]. split.
  - intros i row row' p p' Hi HSi Hp Hp'.
    split; [now apply (Hkinds i row row')|]. intros Heq.
    rewrite (Hkinds i row row' p p' Hi HSi Hp Hp').
    rewrite Heq in Hp. rewrite Hp in Hp'. injection Hp' as <-.
    now rewrite find_version_type_same.
  - intros e He. apply list_elem_of_lookup in He as [[|i] Hi].
    + rewrite Hi in Hk0. simpl in Hk0. injection Hk0 as ->. discriminate.
    + assert (Hlen : S i < length repo_versions).
      { apply Forall2_length in Hev. rewrite length_map in Hev. rewrite Hev.
        apply lookup_lt_is_Some. eauto. }
      destruct (lookup_lt_is_Some_2 repo_versions i) as [row Hrow]; [lia|].
      destruct (lookup_lt_is_Some_2 repo_versions (S i)) as [row' Hrow']; [lia|].
      destruct (split_version_num_total (number row)) as [p Hp].
      destruct (split_version_num_total (number row')) as [p' Hp'].
      pose proof (Hkinds i row row' p p' Hrow Hrow' Hp Hp') as Hkind.
      rewrite Hi in Hkind. simpl in Hkind. injection Hkind as ->.
      destruct p as [[p0 p1] p2], p' as [[c0 c1] c2]. unfold _find_version_type.
      destruct (PyStr.ne p0 c0); [discriminate|].
      destruct (PyStr.ne p1 c1); [discriminate|].
      destruct (PyStr.ne p2 c2); discriminate.
Qed.

(** The series of the project that tags "1.0" twice. *)
Lemma build_series_kinds_witness :
  exists st' series,
    _build_series retagged_rows 1%Z (new_versioning retagged_rows []) = Some (tt, st') /\
    date_series st' !! 1%Z = Some series /\
    ev_type <$> series !! 0%nat = Some FIRST /\
    (forall (i : nat) (row row' : VersionRow) (p p' : StructuralVersion),
        retagged_rows !! i = Some row -> retagged_rows !! S i = Some row' ->
        _split_version_num (number row) = Some p ->
        _split_version_num (number row') = Some p' ->
        ev_type <$> series !! S i = Some (_find_version_type p p') /\
        (number row = number row' -> ev_type <$> series !! S i = Some FIRST)) /\
    forall e, e ∈ series -> ev_type e <> OTHER.
Proof.
  apply (build_series_kinds retagged_rows 1%Z (mkRow 1%Z "1.0" (Some 1%Z)));
    reflexivity.
Defined.

Lemma events_of_major_nonempty (k : string) (series : list Event) :
  events_of_major k series <> [] <->
  k ∈ map (fun date => major_token (ev_num date)) series.
Proof.
  unfold events_of_major. split.
  - intros Hne.
    destruct (filter (fun e => major_token (ev_num e) = k) series) as [|e l] eqn:E;
      [contradiction|].
    assert (He : e ∈ filter (fun e => major_token (ev_num e) = k) series)
      by (rewrite E; left).
    apply list_elem_of_filter in He as [<- He].
    apply list_elem_of_fmap. eauto.
  - intros Hin Hnil. apply list_elem_of_fmap in Hin as (e & -> & He).
    assert (Hin : e ∈ filter (fun e' => major_token (ev_num e') = major_token (ev_num e)) series)
      by (apply list_elem_of_filter; auto).
    rewrite Hnil in Hin. inversion Hin.
Qed.

Lemma build_series_state (repo_versions : list VersionRow) (id : Z)
    (first : VersionRow) (st : Versioning) :
  repo_versions !! 0%nat = Some first -> repository_id first = id ->
  exists series par,
    Forall2 (event_of repo_versions) (map number repo_versions) series /\
    _build_series repo_versions id st =
      Some (tt, mkVersioning (version st) (versioning st) (columns st)
                  (<[id := series]> (date_series st))
                  (<[id := par]> (parallel_date_series st))) /\
    (par = [] <-> (check_parallel_versions series).1 = false) /\
    keys_ascending par /\
    (forall (k : string) (group : list Event),
        (k, group) ∈ par -> group <> [] /\ group = events_of_major k series) /\
    ((check_parallel_versions series).1 = true ->
     forall e, e ∈ series ->
       (major_token (ev_num e), events_of_major (major_token (ev_num e)) series) ∈ par).
Proof.
  intros H0 Hid.
  destruct (build_series_run repo_versions id first st H0 Hid)
    as (series & d & Hev & _ & _ & Hd & Hrun).
  exists series, (if (check_parallel_versions series).1 then sorted_items d else []).
  split; [exact Hev|]. split; [exact Hrun|].
  assert (Hgroups : forall k group,
             (k, group) ∈ sorted_items d <->
             k ∈ map (fun date => major_token (ev_num date)) series /\
             group = events_of_major k series).
  { intros k group.
    rewrite sorted_items_elem, (track_parallel_loop_char _ _ _ Hd k),
      empty_groups_lookup.
    assert (Hset : k ∈ list_set (map (fun date => major_token (ev_num date)) series)
                   <-> k ∈ map (fun date => major_token (ev_num date)) series).
    { unfold list_set. now rewrite elem_of_elements, elem_of_list_to_set. }
    destruct (decide (k ∈ list_set (map (fun date => major_token (ev_num date)) series)))
      as [Hk|Hk]; simpl.
    - split; [intros [= <-]; tauto | intros [_ ->]; reflexivity].
    - split; [discriminate | tauto]. }
  destruct (check_parallel_versions series).1 eqn:Hflag.
  - split; [|split; [apply sorted_items_ascending|split]].
    + split; [|discriminate]. intros Hnil.
      pose proof (check_parallel_loop_spec
                    (map (fun date => major_token (ev_num date)) series)
                    (map (fun date => major_token (ev_num date)) series) 0) as [[H1 _] _];
        [lia|].
      fold (check_parallel_versions series) in H1. specialize (H1 Hflag).
      destruct series as [|e series]; [simpl in H1; lia|].
      assert (Hin : (major_token (ev_num e),
                     events_of_major (major_token (ev_num e)) (e :: series))
                    ∈ sorted_items d).
      { apply Hgroups. split; [left | reflexivity]. }
      rewrite Hnil in Hin. inversion Hin.
    + intros k group Hin. apply Hgroups in Hin as [Hk ->].
      split; [now apply events_of_major_nonempty | reflexivity].
    + intros _ e He. apply Hgroups. split; [|reflexivity].
      apply list_elem_of_fmap. eauto.
  - split; [tauto|]. split; [intros i j a b _ Hi; discriminate|].
    split; [intros k group Hin; inversion Hin | discriminate].
Qed.

(** X9. [_build_series] raises on a frame without rows.  On a frame whose
    first row belongs to the project it returns, replaces the project's two
    entries and leaves the other projects and the columns as they are.  The
    parallel entry is empty exactly when the series is not flagged by
    [check_parallel_versions]; when it is flagged, the entry has one
    group per major token of the series, the tokens strictly ascending as
    strings, and each group holds the events of its token in the order of
    the series, at least one. *)
Theorem build_series_parallel_entry (repo_versions : list VersionRow) (id : Z)
    (st : Versioning) :
  (repo_versions = [] -> _build_series repo_versions id st = None) /\
  forall first : VersionRow,
    repo_versions !! 0%nat = Some first -> repository_id first = id ->
    exists series par,
      _build_series repo_versions id st =
        Some (tt, mkVersioning (version st) (versioning st) (columns st)
                    (<[id := series]> (date_series st))
                    (<[id := par]> (parallel_date_series st))) /\
      (par = [] <-> (check_parallel_versions series).1 = false) /\
      keys_ascending par /\
      (forall (k : string) (group : list Event),
          (k, group) ∈ par -> group <> [] /\ group = events_of_major k series) /\
      ((check_parallel_versions series).1 = true ->
       forall e, e ∈ series ->
         (major_token (ev_num e), events_of_major (major_token (ev_num e)) series) ∈ par).
Proof.
  split; [intros ->; reflexivity|]. intros first H0 Hid.
  destruct (build_series_state repo_versions id first st H0 Hid)
    as (series & par & _ & Hrest).
  exists series, par. exact Hrest.
Qed.

(** ** Loading the series of every project *)

Lemma clean_version_data_nil (version : list VersionRow) :
  _clean_version_data version = [] <-> version = [].
Proof.
  unfold _clean_version_data.
  destruct (filter (fun r => is_prerelease r = false) version) as [|x l] eqn:E; simpl.
  - reflexivity.
  - split; [discriminate|]. intros ->. discriminate.
Qed.

Lemma rows_for_series_nil (sort_values : list VersionRow -> list VersionRow)
    (version : list VersionRow) (id : Z) :
  (forall l, sort_values l ≡ₚ l) ->
  rows_for_series sort_values version id = [] <->
  forall r, r ∈ version -> repository_id r <> id.
Proof.
  intros Hperm. unfold rows_for_series. rewrite clean_version_data_nil. split.
  - intros Hnil r Hr Hid.
    assert (Hin : r ∈ sort_values (filter (fun r => repository_id r = id) version)).
    { rewrite (Hperm _). apply list_elem_of_filter. auto. }
    rewrite Hnil in Hin. inversion Hin.
  - intros Hno.
    destruct (sort_values (filter (fun r => repository_id r = id) version))
      as [|r l] eqn:E; [reflexivity|].
    assert (Hin : r ∈ sort_values (filter (fun r => repository_id r = id) version))
      by (rewrite E; left).
    rewrite (Hperm _) in Hin. apply list_elem_of_filter in Hin as [Hid Hin].
    destruct (Hno r Hin Hid).
Qed.

Lemma event_of_row (repo_versions : list VersionRow) (v : string) (e : Event) :
  event_of repo_versions v e ->
  exists r, r ∈ repo_versions /\ number r = ev_num e /\ published_at r = ev_date e.
Proof.
  intros (kind & d & -> & Hd). unfold first_published_at in Hd.
  destruct (head (filter (fun r => number r = v) repo_versions)) as [row|] eqn:E;
    [|discriminate].
  injection Hd as <-. apply head_filter_first in E as (j & Hj & Hnum & _).
  exists row. split; [apply list_elem_of_lookup; eauto|]. split; [exact Hnum | reflexivity].
Qed.

Lemma set_version_series_loop_run (sort_values : list VersionRow -> list VersionRow)
    (ids : list Z) :
  (forall l, sort_values l ≡ₚ l) ->
  forall s : Versioning,
    match for_each ids (fun id =>
            version ← gets version;
            let repo_versions :=
              sort_values (filter (fun r => repository_id r = id) version) in
            let repo_versions := _clean_version_data repo_versions in
            _build_series repo_versions id) s with
    | Some (_, s') =>
        (forall id, id ∈ ids -> rows_for_series sort_values (version s) id <> []) /\
        version s' = version s /\ versioning s' = versioning s /\
        columns s' = columns s /\
        (forall id, id ∉ ids ->
           date_series s' !! id = date_series s !! id /\
           parallel_date_series s' !! id = parallel_date_series s !! id) /\
        (forall id, id ∈ ids ->
           exists series par,
             date_series s' !! id = Some series /\
             parallel_date_series s' !! id = Some par /\
             Forall2 (event_of (rows_for_series sort_values (version s) id))
               (map number (rows_for_series sort_values (version s) id)) series /\
             (par = [] <-> (check_parallel_versions series).1 = false) /\
             forall (k : string) (group : list Event),
               (k, group) ∈ par -> group <> [] /\ group = events_of_major k series)
    | None => exists id, id ∈ ids /\ rows_for_series sort_values (version s) id = []
    end.
Proof.
  intros Hperm. induction ids as [|a ids IH]; intros s.
  - simpl. split; [intros id Hid; inversion Hid|]. repeat split.
    intros id Hid; inversion Hid.
  - simpl. unfold mbind at 1, Py_bind at 1. unfold mbind at 1, Py_bind at 1.
    unfold gets at 1. fold (rows_for_series sort_values (version s) a).
    destruct (rows_for_series sort_values (version s) a) as [|first rows] eqn:Hrows.
    { change (_build_series [] a s) with (@None (unit * Versioning)).
      exists a. split; [left | exact Hrows]. }
    assert (Hid : repository_id first = a).
    { apply (rows_for_series_id sort_values (version s) a first Hperm).
      rewrite Hrows. left. }
    destruct (build_series_state (first :: rows) a first s eq_refl Hid)
      as (series & par & Hev & Hrun & Hpar & _ & Hgroups & _).
    rewrite Hrun. specialize (IH (mkVersioning (version s) (versioning s) (columns s)
                  (<[a := series]> (date_series s))
                  (<[a := par]> (parallel_date_series s)))).
    destruct (for_each ids _ _) as [[[] s']|].
    + simpl in IH. destruct IH as (Hall & Hv & Hving & Hcols & Hframe & Hin).
      split; [|split; [exact Hv|split; [exact Hving|split; [exact Hcols|split]]]].
      * intros id Hmem. apply elem_of_cons in Hmem as [->|Hmem];
          [rewrite Hrows; discriminate | now apply Hall].
      * intros id Hnot. apply not_elem_of_cons in Hnot as [Hne Hnot].
        destruct (Hframe id Hnot) as [H1 H2]. rewrite H1, H2.
        split; now apply lookup_insert_ne.
      * intros id Hmem. destruct (decide (id ∈ ids)) as [Hids|Hids];
          [exact (Hin id Hids)|].
        apply elem_of_cons in Hmem as [->|Hmem]; [|contradiction].
        exists series, par. destruct (Hframe a Hids) as [H1 H2].
        rewrite H1, H2, Hrows.
        split; [apply lookup_insert_eq|]. split; [apply lookup_insert_eq|].
        split; [exact Hev|]. split; [exact Hpar | exact Hgroups].
    + simpl in IH. destruct IH as (id & Hmem & Hnil).
      exists id. split; [now right | exact Hnil].
Qed.

Lemma set_version_series_run (sort_values : list VersionRow -> list VersionRow)
    (st : Versioning) :
  (forall l, sort_values l ≡ₚ l) ->
  (is_Some (_set_version_series sort_values st) <->
   forall id, id ∈ map fst (versioning st) ->
     exists r, r ∈ version st /\ repository_id r = id) /\
  forall st' : Versioning,
    _set_version_series sort_values st = Some (tt, st') ->
    version st' = version st /\ versioning st' = versioning st /\
    columns st' = columns st /\
    (forall id, id ∉ map fst (versioning st) ->
       date_series st' !! id = None /\ parallel_date_series st' !! id = None) /\
    loaded st' /\
    forall (id : Z) (series : list Event) (e : Event),
      date_series st' !! id = Some series -> e ∈ series ->
      exists r, r ∈ version st /\ repository_id r = id /\
                number r = ev_num e /\ published_at r = ev_date e.
Proof.
  intros Hperm.
  pose proof (set_version_series_loop_run sort_values (map fst (versioning st)) Hperm
                (mkVersioning (version st) (versioning st) (columns st) ∅ ∅)) as Hloop.
  assert (Hrun : _set_version_series sort_values st =
                 for_each (map fst (versioning st)) (fun id =>
                   version ← gets version;
                   let repo_versions :=
                     sort_values (filter (fun r => repository_id r = id) version) in
                   let repo_versions := _clean_version_data repo_versions in
                   _build_series repo_versions id)
                   (mkVersioning (version st) (versioning st) (columns st) ∅ ∅))
    by reflexivity.
  rewrite Hrun. clear Hrun.
  destruct (for_each (map fst (versioning st)) _ _) as [[[] s']|].
  - simpl in Hloop. destruct Hloop as (Hall & Hv & Hving & Hcols & Hframe & Hin).
    split.
    + split; [|eauto]. intros _ id Hid.
      specialize (Hall id Hid).
      destruct (rows_for_series sort_values (version st) id) as [|r l] eqn:E;
        [contradiction|].
      exists r.
      assert (Hr : r ∈ rows_for_series sort_values (version st) id) by (rewrite E; left).
      split; [|exact (rows_for_series_id _ _ _ _ Hperm Hr)].
      unfold rows_for_series in Hr. apply clean_version_data_subset in Hr.
      rewrite (Hperm _) in Hr. apply list_elem_of_filter in Hr. tauto.
    + intros st' [= <-].
      split; [exact Hv|]. split; [exact Hving|]. split; [exact Hcols|].
      split; [|split].
      * intros id Hnot. destruct (Hframe id Hnot) as [H1 H2].
        rewrite H1, H2. split; apply lookup_empty.
      * intros id Hid. rewrite Hving in Hid.
        destruct (Hin id Hid) as (series & par & H1 & H2 & Hev & Hpar & Hgroups).
        exists series, par. split; [exact H1|]. split; [|auto].
        intros ->. apply Forall2_length in Hev. rewrite length_map in Hev.
        specialize (Hall id Hid).
        destruct (rows_for_series sort_values (version st) id); [contradiction | discriminate].
      * intros id series e Hser He.
        destruct (decide (id ∈ map fst (versioning st))) as [Hid|Hid].
        -- destruct (Hin id Hid) as (series' & par & H1 & _ & Hev & _).
           rewrite Hser in H1. injection H1 as <-.
           apply list_elem_of_lookup in He as [i Hi].
           destruct (Forall2_lookup_r _ _ _ _ _ Hev Hi) as (v & _ & Hv').
           apply event_of_row in Hv' as (r & Hr & Hnum & Hdate).
           exists r. split; [|split; [exact (rows_for_series_id _ _ _ _ Hperm Hr)|auto]].
           unfold rows_for_series in Hr. apply clean_version_data_subset in Hr.
           rewrite (Hperm _) in Hr. apply list_elem_of_filter in Hr. tauto.
        -- destruct (Hframe id Hid) as [H1 _]. rewrite Hser in H1.
           rewrite lookup_empty in H1. discriminate.
  - simpl in Hloop. destruct Hloop as (id & Hid & Hnil).
    split; [|discriminate].
    split; [intros [x Hx]; discriminate|]. intros Hall.
    destruct (Hall id Hid) as (r & Hr & Hrid).
    destruct (proj1 (rows_for_series_nil sort_values (version st) id Hperm) Hnil r Hr Hrid).
Qed.

(** X10. Given a sort that permutes the rows, [_set_version_series] returns
    exactly when every project of [self.versioning] has a row in
    [self.version]; it raises otherwise.  When it returns, the frames and the
    columns are as before, exactly the projects of [self.versioning] have a
    series and a parallel entry, every series has at least one event, each
    event carries the version string and the date of a row of its project,
    and the groups of a parallel entry are never empty. *)
Theorem set_version_series_loads (sort_values : list VersionRow -> list VersionRow)
    (st : Versioning) :
  (forall l, sort_values l ≡ₚ l) ->
  (is_Some (_set_version_series sort_values st) <->
   forall id, id ∈ map fst (versioning st) ->
     exists r, r ∈ version st /\ repository_id r = id) /\
  forall st' : Versioning,
    _set_version_series sort_values st = Some (tt, st') ->
    version st' = version st /\ versioning st' = versioning st /\
    columns st' = columns st /\
    (forall id, id ∉ map fst (versioning st) ->
       date_series st' !! id = None /\ parallel_date_series st' !! id = None) /\
    loaded st' /\
    forall (id : Z) (series : list Event) (e : Event),
      date_series st' !! id = Some series -> e ∈ series ->
      exists r, r ∈ version st /\ repository_id r = id /\
                number r = ev_num e /\ published_at r = ev_date e.
Proof. intros Hperm. exact (set_version_series_run sort_values st Hperm). Qed.

(** The example object: both projects have rows. *)
Lemma set_version_series_loads_witness :
  (is_Some (_set_version_series sort_by_date example_object) <->
   forall id, id ∈ map fst (versioning example_object) ->
     exists r, r ∈ version example_object /\ repository_id r = id) /\
  forall st' : Versioning,
    _set_version_series sort_by_date example_object = Some (tt, st') ->
    version st' = version example_object /\
    versioning st' = versioning example_object /\
    columns st' = columns example_object /\
    (forall id, id ∉ map fst (versioning example_object) ->
       date_series st' !! id = None /\ parallel_date_series st' !! id = None) /\
    loaded st' /\
    forall (id : Z) (series : list Event) (e : Event),
      date_series st' !! id = Some series -> e ∈ series ->
      exists r, r ∈ version example_object /\ repository_id r = id /\
                number r = ev_num e /\ published_at r = ev_date e.
Proof.
  apply (set_version_series_loads sort_by_date example_object sort_by_date_perm).
Defined.

(** ** The counts of releases *)

Lemma foldl_count_release (series : list Event) :
  forall a b c : nat,
    foldl count_release (a, b, c) series =
      (a + count_kind MAJOR series, b + count_kind MINOR series,
       c + count_kind PATCH series).
Proof.
  unfold count_kind.
  induction series as [|e series IH]; intros a b c.
  - simpl. now rewrite !Nat.add_0_r.
  - cbn [foldl]. rewrite !filter_cons. unfold count_release at 2.
    destruct (ev_type e) eqn:E; rewrite IH;
      repeat (destruct (decide _) as [?|?]; try congruence); simpl;
      f_equal; try f_equal; lia.
Qed.

Lemma zip_with_map_diag {A B C : Type} (g : A -> B -> C) (f : A -> B) (l : list A) :
  zip_with g l (map f l) = map (fun r => g r (f r)) l.
Proof. induction l as [|r l IH]; [reflexivity|]. simpl. now rewrite IH. Qed.

Lemma replicate_length_map {A B : Type} (x : B) (l : list A) :
  replicate (length l) x = map (fun _ => x) l.
Proof. induction l as [|r l IH]; [reflexivity|]. simpl. now rewrite IH. Qed.

Lemma loc_set_map (repo_id : Z) (name : string) (x : float) (s : Versioning)
    (f : Z * Timestamp -> float) :
  columns s !! name = Some (map f (versioning s)) ->
  loc_set repo_id name x s =
    Some (tt, set_columns
                (<[name := map (fun row => if (row.1 =? repo_id)%Z then x else f row)
                             (versioning s)]> (columns s)) s).
Proof.
  intros H. unfold loc_set, modify. rewrite H. simpl.
  now rewrite zip_with_map_diag.
Qed.

Lemma num_versions_weighted_sum_run (repo_id : Z) (s : Versioning)
    (series : list Event) (fM fm fp : Z * Timestamp -> float) :
  date_series s !! repo_id = Some series ->
  columns s !! "major_count" = Some (map fM (versioning s)) ->
  columns s !! "minor_count" = Some (map fm (versioning s)) ->
  columns s !! "patch_count" = Some (map fp (versioning s)) ->
  exists s',
    _num_versions_weighted_sum repo_id s = Some (weighted_sum_of series, s') /\
    frozen_eq s s' /\
    (forall k, k ∉ count_cols -> columns s' !! k = columns s !! k) /\
    columns s' !! "weighted_count" = columns s !! "weighted_count" /\
    columns s' !! "major_count" =
      Some (map (fun row => if (row.1 =? repo_id)%Z
                            then Np.of_nat (count_kind MAJOR series) else fM row)
              (versioning s)) /\
    columns s' !! "minor_count" =
      Some (map (fun row => if (row.1 =? repo_id)%Z
                            then Np.of_nat (count_kind MINOR series) else fm row)
              (versioning s)) /\
    columns s' !! "patch_count" =
      Some (map (fun row => if (row.1 =? repo_id)%Z
                            then Np.of_nat (count_kind PATCH series) else fp row)
              (versioning s)).
Proof.
  intros Hs HM Hm Hp. unfold _num_versions_weighted_sum.
  unfold mbind at 1, Py_bind at 1, get_date_series. rewrite Hs.
  rewrite foldl_count_release. simpl Nat.add.
  unfold mbind at 1, Py_bind at 1. rewrite (loc_set_map _ _ _ _ fM HM).
  unfold mbind at 1, Py_bind at 1. rewrite (loc_set_map _ _ _ _ fm).
  2:{ simpl. rewrite lookup_insert_ne by discriminate. exact Hm. }
  unfold mbind at 1, Py_bind at 1. rewrite (loc_set_map _ _ _ _ fp).
  2:{ simpl. rewrite !lookup_insert_ne by discriminate. exact Hp. }
  eexists. split; [reflexivity|]. simpl.
  split; [repeat split|]. split; [|split; [|split; [|split]]].
  - intros k Hk. unfold count_cols in Hk.
    rewrite !not_elem_of_cons in Hk. destruct Hk as (H1 & H2 & H3 & H4 & _).
    rewrite !lookup_insert_ne by congruence. reflexivity.
  - rewrite !lookup_insert_ne by discriminate. reflexivity.
  - rewrite !lookup_insert_ne by discriminate. now rewrite lookup_insert_eq.
  - rewrite lookup_insert_ne by discriminate. now rewrite lookup_insert_eq.
  - now rewrite lookup_insert_eq.
Qed.

Lemma num_versions_loop (ids : list Z) :
  forall (s : Versioning) (fM fm fp : Z * Timestamp -> float),
    columns s !! "major_count" = Some (map fM (versioning s)) ->
    columns s !! "minor_count" = Some (map fm (versioning s)) ->
    columns s !! "patch_count" = Some (map fp (versioning s)) ->
    match comprehension ids _num_versions_weighted_sum s with
    | Some (scores, s') =>
        (forall id, id ∈ ids -> is_Some (date_series s !! id)) /\
        frozen_eq s s' /\
        (forall k, k ∉ count_cols -> columns s' !! k = columns s !! k) /\
        columns s' !! "weighted_count" = columns s !! "weighted_count" /\
        scores = map (fun id => weighted_sum_of (series_of s id)) ids /\
        columns s' !! "major_count" =
          Some (map (fun row => if decide (row.1 ∈ ids)
                                then Np.of_nat (count_kind MAJOR (series_of s row.1))
                                else fM row) (versioning s)) /\
        columns s' !! "minor_count" =
          Some (map (fun row => if decide (row.1 ∈ ids)
                                then Np.of_nat (count_kind MINOR (series_of s row.1))
                                else fm row) (versioning s)) /\
        columns s' !! "patch_count" =
          Some (map (fun row => if decide (row.1 ∈ ids)
                                then Np.of_nat (count_kind PATCH (series_of s row.1))
                                else fp row) (versioning s))
    | None => exists id, id ∈ ids /\ date_series s !! id = None
    end.
Proof.
  induction ids as [|a ids IH]; intros s fM fm fp HM Hm Hp.
  - simpl. split; [intros id Hid; inversion Hid|]. split; [apply frozen_eq_refl|].
    split; [reflexivity|]. split; [reflexivity|]. split; [reflexivity|].
    rewrite HM, Hm, Hp. repeat split.
  - simpl. unfold mbind at 1, Py_bind at 1.
    destruct (date_series s !! a) as [series|] eqn:Hs.
    2:{ unfold _num_versions_weighted_sum, mbind at 1, Py_bind at 1, get_date_series.
        rewrite Hs. exists a. split; [left | exact Hs]. }
    destruct (num_versions_weighted_sum_run a s series fM fm fp Hs HM Hm Hp)
      as (s1 & Hrun & Hfr & Hframe & Hw & HM1 & Hm1 & Hp1).
    rewrite Hrun. unfold mbind at 1, Py_bind at 1.
    assert (Hving : versioning s1 = versioning s) by (symmetry; apply Hfr).
    assert (Hds : date_series s1 = date_series s) by (symmetry; apply Hfr).
    rewrite <- Hving in HM1, Hm1, Hp1.
    specialize (IH s1 _ _ _ HM1 Hm1 Hp1).
    destruct (comprehension ids _num_versions_weighted_sum s1) as [[scores s']|].
    + destruct IH as (Hall & Hfr' & Hframe' & Hw' & Hscores & HM' & Hm' & Hp').
      unfold mret, Py_ret.
      assert (Hser : forall id, series_of s1 id = series_of s id)
        by (intros id; unfold series_of; now rewrite Hds).
      assert (Hcol : forall (kind : Release) (f : Z * Timestamp -> float),
                 map (fun row => if decide (row.1 ∈ ids)
                                 then Np.of_nat (count_kind kind (series_of s1 row.1))
                                 else if (row.1 =? a)%Z
                                      then Np.of_nat (count_kind kind series)
                                      else f row) (versioning s1) =
                 map (fun row => if decide (row.1 ∈ a :: ids)
                                 then Np.of_nat (count_kind kind (series_of s row.1))
                                 else f row) (versioning s)).
      { intros kind f. rewrite Hving. apply map_ext. intros row. rewrite Hser.
        destruct (decide (row.1 ∈ ids)) as [Hin|Hin].
        - rewrite decide_True by now right. reflexivity.
        - destruct (Z.eqb_spec row.1 a) as [->|Hne].
          + rewrite decide_True by left. unfold series_of. now rewrite Hs.
          + rewrite decide_False; [reflexivity|].
            intros H. apply elem_of_cons in H as [H|H]; contradiction. }
      split; [|split; [exact (frozen_eq_trans _ _ _ Hfr Hfr')|split; [|split; [congruence|split]]]].
      * intros id Hid. apply elem_of_cons in Hid as [->|Hid]; [eauto|].
        rewrite <- Hds. now apply Hall.
      * intros k Hk. rewrite (Hframe' k Hk). now apply Hframe.
      * simpl. f_equal; [unfold series_of; now rewrite Hs|].
        rewrite Hscores. apply map_ext. intros id. now rewrite Hser.
      * rewrite HM', Hm', Hp', !Hcol. repeat split.
    + destruct IH as (id & Hid & Hnone). exists id. split; [now right|].
      now rewrite <- Hds.
Qed.

Lemma number_version_score_run (np_log : float -> float) (st : Versioning) :
  (is_Some (number_version_score np_log st) <->
   forall id, id ∈ map fst (versioning st) -> is_Some (date_series st !! id)) /\
  forall (scores : list float) (st' : Versioning),
    number_version_score np_log st = Some (scores, st') ->
    frozen_eq st st' /\
    (forall k, k ∉ count_cols -> columns st' !! k = columns st !! k) /\
    columns st' !! "major_count" =
      Some (map (fun row => Np.of_nat (count_kind MAJOR (series_of st row.1)))
              (versioning st)) /\
    columns st' !! "minor_count" =
      Some (map (fun row => Np.of_nat (count_kind MINOR (series_of st row.1)))
              (versioning st)) /\
    columns st' !! "patch_count" =
      Some (map (fun row => Np.of_nat (count_kind PATCH (series_of st row.1)))
              (versioning st)) /\
    columns st' !! "weighted_count" = Some scores /\
    scores =
      map (fun row =>
             Np.round2 (s_shape (logscale np_log (weighted_sum_of (series_of st row.1)))))
          (versioning st).
Proof.
  set (s3 := set_columns
               (<["patch_count" := replicate (nrows st) 0%float]>
                  (<["minor_count" := replicate (nrows st) 0%float]>
                     (<["major_count" := replicate (nrows st) 0%float]> (columns st))))
               st).
  assert (Heq : number_version_score np_log st =
                match comprehension (map fst (versioning st))
                        _num_versions_weighted_sum s3 with
                | Some (scores, s4) =>
                    (set_col "weighted_count"
                       (map (fun x => Np.round2 (s_shape (logscale np_log x))) scores)
                     ≫= fun _ => get_col "weighted_count") s4
                | None => None
                end) by reflexivity.
  rewrite Heq. clear Heq.
  assert (Hrep : replicate (nrows st) 0%float = map (fun _ => 0%float) (versioning s3))
    by apply replicate_length_map.
  assert (HM : columns s3 !! "major_count" = Some (map (fun _ => 0%float) (versioning s3))).
  { simpl. rewrite !lookup_insert_ne by discriminate.
    now rewrite lookup_insert_eq, Hrep. }
  assert (Hm : columns s3 !! "minor_count" = Some (map (fun _ => 0%float) (versioning s3))).
  { simpl. rewrite lookup_insert_ne by discriminate.
    now rewrite lookup_insert_eq, Hrep. }
  assert (Hp : columns s3 !! "patch_count" = Some (map (fun _ => 0%float) (versioning s3))).
  { simpl. now rewrite lookup_insert_eq, Hrep. }
  pose proof (num_versions_loop (map fst (versioning st)) s3 _ _ _ HM Hm Hp) as Hloop.
  clear HM Hm Hp Hrep.
  destruct (comprehension (map fst (versioning st)) _num_versions_weighted_sum s3)
    as [[scores s4]|].
  - destruct Hloop as (Hall & Hfr & Hframe & _ & Hscores & HM & Hm & Hp).
    assert (Hlen : length (map (fun x => Np.round2 (s_shape (logscale np_log x))) scores)
                   = nrows s4).
    { rewrite Hscores, !length_map. unfold nrows.
      now rewrite <- (frozen_versioning _ _ Hfr). }
    unfold mbind, Py_bind, set_col. rewrite Hlen, Nat.eqb_refl.
    unfold get_col. simpl columns. rewrite lookup_insert_eq.
    split; [split; [intros _; exact Hall | eauto]|].
    intros scores' st' [= <- <-].
    assert (Hcount : forall (kind : Release),
               map (fun row => if decide (row.1 ∈ map fst (versioning st))
                               then Np.of_nat (count_kind kind (series_of s3 row.1))
                               else 0%float) (versioning s3) =
               map (fun row => Np.of_nat (count_kind kind (series_of st row.1)))
                   (versioning st)).
    { intros kind. apply map_ext_in. intros row Hrow.
      rewrite decide_True; [reflexivity|].
      apply list_elem_of_fmap. exists row. split; [reflexivity|].
      now apply list_elem_of_In. }
    split; [exact (frozen_eq_trans _ _ _ Hfr (frozen_eq_set_columns _ s4))|].
    simpl columns. split; [|split; [|split; [|split; [|split]]]].
    + intros k Hk. pose proof Hk as Hk'. unfold count_cols in Hk'.
      rewrite !not_elem_of_cons in Hk'. destruct Hk' as (H1 & H2 & H3 & H4 & _).
      rewrite lookup_insert_ne by congruence. rewrite (Hframe k Hk). simpl.
      now rewrite !lookup_insert_ne by congruence.
    + rewrite lookup_insert_ne by discriminate. now rewrite HM, Hcount.
    + rewrite lookup_insert_ne by discriminate. now rewrite Hm, Hcount.
    + rewrite lookup_insert_ne by discriminate. now rewrite Hp, Hcount.
    + now rewrite lookup_insert_eq.
    + rewrite Hscores, !map_map. reflexivity.
  - destruct Hloop as (id & Hid & Hnone). split; [|discriminate].
    split; [intros [x Hx]; discriminate|]. intros Hall.
    destruct (Hall id Hid) as [series Hser]. simpl in Hnone. congruence.
Qed.

(** X11. [number_version_score] returns exactly when every project of
    [self.versioning] has a series, and raises otherwise.  When it returns,
    the three count columns hold, row by row, the numbers of MAJOR, MINOR
    and PATCH events in the series of the row's project; the returned
    scores are the column "weighted_count", row by row the s-shaped log of
    (5 majors + 2 minors + patches) / 8, rounded to two places; the series,
    the frames and the other columns are unchanged. *)
Theorem number_version_score_counts (np_log : float -> float) (st : Versioning) :
  (is_Some (number_version_score np_log st) <->
   forall id, id ∈ map fst (versioning st) -> is_Some (date_series st !! id)) /\
  forall (scores : list float) (st' : Versioning),
    number_version_score np_log st = Some (scores, st') ->
    frozen_eq st st' /\
    (forall k, k ∉ count_cols -> columns st' !! k = columns st !! k) /\
    columns st' !! "major_count" =
      Some (map (fun row => Np.of_nat (count_kind MAJOR (series_of st row.1)))
              (versioning st)) /\
    columns st' !! "minor_count" =
      Some (map (fun row => Np.of_nat (count_kind MINOR (series_of st row.1)))
              (versioning st)) /\
    columns st' !! "patch_count" =
      Some (map (fun row => Np.of_nat (count_kind PATCH (series_of st row.1)))
              (versioning st)) /\
    columns st' !! "weighted_count" = Some scores /\
    scores =
      map (fun row =>
             Np.round2 (s_shape (logscale np_log (weighted_sum_of (series_of st row.1)))))
          (versioning st).
Proof. exact (number_version_score_run np_log st). Qed.

(** ** Delta times without overflow *)

Lemma ts_sub_in_range (a b : Timestamp) :
  in_range a -> in_range b -> ts_sub a b = Some (ts_diff a b).
Proof.
  destruct a as [x|], b as [y|]; simpl; try reflexivity.
  intros Hx Hy.
  destruct (Z.ltb_spec (- 2 ^ 63) (x - y)) as [H1|H1]; [|lia].
  destruct (Z.ltb_spec (x - y) (2 ^ 63)) as [H2|H2]; [reflexivity | lia].
Qed.

Lemma gaps_cons (prev e : Event) (series : list Event) :
  gaps (prev :: e :: series) = (ev_type e, gap_of prev e) :: gaps (e :: series).
Proof. reflexivity. Qed.

Lemma bucket_cons (kind : Release) (p : Release * float) (g : list (Release * float)) :
  bucket kind (p :: g) = (if decide (p.1 = kind) then [p.2] else []) ++ bucket kind g.
Proof.
  unfold bucket. rewrite filter_cons. destruct (decide (p.1 = kind)); reflexivity.
Qed.

Lemma build_deltatime_loop_gaps (series : list Event) :
  forall (prev : Event) (majors minors patches : list float),
    in_range (ev_date prev) ->
    Forall (fun e => in_range (ev_date e)) series ->
    _build_deltatime_loop (Some (ev_date prev)) (majors, minors, patches) series =
      Some (majors ++ bucket MAJOR (gaps (prev :: series)),
            minors ++ bucket MINOR (gaps (prev :: series)),
            patches ++ bucket PATCH (gaps (prev :: series))).
Proof.
  induction series as [|e series IH]; intros prev majors minors patches Hprev Hall.
  - simpl. unfold gaps, bucket. simpl. now rewrite !app_nil_r.
  - apply Forall_cons in Hall as [He Hall].
    cbn [_build_deltatime_loop]. rewrite (ts_sub_in_range _ _ He Hprev).
    rewrite gaps_cons, !bucket_cons. cbn [fst snd].
    fold (gap_of prev e).
    destruct (ev_type e); simpl; rewrite (IH e _ _ _ He Hall);
      rewrite <- ?app_assoc; reflexivity.
Qed.

Lemma bucket_length (kind : Release) (series : list Event) :
  forall prev : Event,
    length (bucket kind (gaps (prev :: series))) = count_kind kind series.
Proof.
  unfold count_kind.
  induction series as [|e series IH]; intros prev; [reflexivity|].
  rewrite gaps_cons, bucket_cons, length_app, IH, filter_cons. cbn [fst].
  destruct (decide (ev_type e = kind)); reflexivity.
Qed.

(** X12. For a project without a parallel entry whose dates are in range,
    [_build_deltatime_series] returns and leaves the object as it is.  Every
    event after the first contributes its delta time to the event just
    before it, whatever the kind of that event, to the bucket of its own
    kind; FIRST events contribute to no bucket.  So each bucket has as many
    entries as the series has events of that kind after its first event. *)
Theorem build_deltatime_series_gaps (repo_id : Z) (st : Versioning)
    (series : list Event) :
  date_series st !! repo_id = Some series ->
  parallel_date_series st !! repo_id = Some [] ->
  Forall (fun e => in_range (ev_date e)) series ->
  _build_deltatime_series repo_id st =
    Some ((bucket MAJOR (gaps series), bucket MINOR (gaps series),
           bucket PATCH (gaps series)), st) /\
  forall kind, length (bucket kind (gaps series)) = count_kind kind (tail series).
Proof.
  intros Hs Hpar Hall. split.
  - unfold _build_deltatime_series, mbind, Py_bind, get_parallel_date_series,
      get_date_series, lift.
    rewrite Hpar. simpl. rewrite Hs.
    destruct series as [|e series]; [reflexivity|].
    apply Forall_cons in Hall as [He Hall]. cbn [_build_deltatime_loop].
    cbn [mbind option_bind].
    now rewrite (build_deltatime_loop_gaps series e [] [] [] He Hall).
  - intros kind. destruct series as [|e series]; [reflexivity|].
    apply bucket_length.
Qed.

(** The first example project: a minor, a patch and a major release, a
    quarter apart. *)
Lemma build_deltatime_series_gaps_witness :
  _build_deltatime_series 1 example_loaded =
    Some ((bucket MAJOR (gaps (series_of example_loaded 1)),
           bucket MINOR (gaps (series_of example_loaded 1)),
           bucket PATCH (gaps (series_of example_loaded 1))), example_loaded) /\
  forall kind,
    length (bucket kind (gaps (series_of example_loaded 1))) =
      count_kind kind (tail (series_of example_loaded 1)).
Proof.
  apply build_deltatime_series_gaps.
  - vm_compute. reflexivity.
  - vm_compute. reflexivity.
  - replace (series_of example_loaded 1) with
      [ (Some 0%Z, FIRST, "1.0.0"); (Some quarter, MINOR, "1.1.0");
        (Some (2 * quarter)%Z, PATCH, "1.1.1"); (Some (3 * quarter)%Z, MAJOR, "2.0.0") ]
      by (vm_compute; reflexivity).
    repeat (apply List.Forall_cons; [vm_compute; split; reflexivity|]). apply List.Forall_nil.
Defined.

Lemma get_minor_patch_loop_reference (rest : list Event) :
  forall w : MinorPatchWalk,
    in_range (prev_minor_date w) -> in_range (prev_patch_date w) ->
    Forall (fun e => in_range (ev_date e)) rest ->
    exists w',
      _get_minor_patch_loop w rest = Some w' /\
      prev_num_parts w' = prev_num_parts w /\
      length (minors w') =
        length (minors w) +
        length (filter (fun e => PyStr.gt (slots e).1.2 (prev_num_parts w).1.2 = true)
                  rest) /\
      length (patches w') =
        length (patches w) +
        length (filter (fun e => PyStr.gt (slots e).1.2 (prev_num_parts w).1.2 = false /\
                                 PyStr.gt (slots e).2 (prev_num_parts w).2 = true)
                  rest).
Proof.
  induction rest as [|e rest IH]; intros w Hm Hp Hall.
  - exists w. simpl. rewrite !Nat.add_0_r. repeat split.
  - apply Forall_cons in Hall as [He Hall].
    cbn [_get_minor_patch_loop]. rewrite !filter_cons.
    destruct e as [[date kind] version_num] eqn:Ee.
    unfold _get_minor_patch_step.
    pose proof (split_version_num_slots e) as Hsl. rewrite Ee in Hsl.
    unfold ev_num in Hsl. simpl in Hsl. rewrite Hsl. cbn [mbind option_bind].
    unfold ev_date in He. simpl in He.
    destruct (PyStr.gt (slots (date, kind, version_num)).1.2 (prev_num_parts w).1.2)
      eqn:Eminor.
    + rewrite (ts_sub_in_range _ _ He Hm). cbn [mbind option_bind].
      edestruct IH as (w' & Hloop & Hparts & Hlm & Hlp); [| |exact Hall|].
      3:{ exists w'. split; [exact Hloop|]. simpl in Hparts, Hlm, Hlp.
          split; [exact Hparts|].
          rewrite decide_True by reflexivity.
          rewrite decide_False by (intros [? _]; discriminate).
          rewrite Hlm, Hlp, length_app. simpl. split; lia. }
      * exact He.
      * exact He.
    + destruct (PyStr.gt (slots (date, kind, version_num)).2 (prev_num_parts w).2)
        eqn:Epatch.
      * rewrite (ts_sub_in_range _ _ He Hp). cbn [mbind option_bind].
        edestruct IH as (w' & Hloop & Hparts & Hlm & Hlp); [| |exact Hall|].
        3:{ exists w'. split; [exact Hloop|]. simpl in Hparts, Hlm, Hlp.
            split; [exact Hparts|].
            rewrite decide_False by discriminate.
            rewrite decide_True by (split; reflexivity).
            rewrite Hlm, Hlp, length_app. simpl. split; lia. }
        -- exact Hm.
        -- exact He.
      * cbn [mbind option_bind].
        destruct (IH w Hm Hp Hall) as (w' & Hloop & Hparts & Hlm & Hlp).
        exists w'. split; [exact Hloop|]. split; [exact Hparts|].
        rewrite decide_False by discriminate.
        rewrite decide_False by (intros [_ ?]; discriminate).
        split; assumption.
Qed.

Lemma length_filter_two {A : Type} (P Q : A -> Prop)
    `{!forall x, Decision (P x)} `{!forall x, Decision (Q x)} (l : list A) :
  (forall x, P x -> Q x -> False) ->
  length (filter P l) + length (filter Q l) <= length l.
Proof.
  intros Hdis. induction l as [|x l IH]; [simpl; lia|].
  rewrite !filter_cons.
  destruct (decide (P x)) as [HP|HP], (decide (Q x)) as [HQ|HQ]; simpl; try lia.
  destruct (Hdis x HP HQ).
Qed.

(** X13. For a group whose dates are in range, [_get_minor_patch_deltatimes]
    returns; an empty group gives two empty lists.  The slots of every
    later event are compared with those of the first event of the group:
    there are as many minor gaps as later events whose minor slot is, as a
    string, above the first event's, and as many patch gaps as later events
    whose minor slot is not above but whose patch slot is above the first
    event's.  So a group of n events gives at most n - 1 gaps. *)
Theorem get_minor_patch_deltatimes_reference (group : list Event) :
  Forall (fun e => in_range (ev_date e)) group ->
  exists minors patches,
    _get_minor_patch_deltatimes group = Some (minors, patches) /\
    (group = [] -> minors = [] /\ patches = []) /\
    forall first : Event, head group = Some first ->
      length minors =
        length (filter (fun e => PyStr.gt (slots e).1.2 (slots first).1.2 = true)
                  (tail group)) /\
      length patches =
        length (filter (fun e => PyStr.gt (slots e).1.2 (slots first).1.2 = false /\
                                 PyStr.gt (slots e).2 (slots first).2 = true)
                  (tail group)) /\
      length minors + length patches <= length group - 1.
Proof.
  intros Hall. destruct group as [|first rest].
  - exists [], []. split; [reflexivity|]. split; [auto | discriminate].
  - apply Forall_cons in Hall as [Hf Hall].
    pose proof (split_version_num_slots first) as Hsl.
    destruct (get_minor_patch_loop_reference rest
                (mkWalk (ev_date first) (ev_date first) (slots first) [] []) Hf Hf Hall)
      as (w & Hloop & _ & Hlm & Hlp).
    exists (minors w), (patches w). split; [|split; [discriminate|]].
    + destruct first as [[date kind] version_num]. cbn [_get_minor_patch_deltatimes].
      unfold ev_num in Hsl. simpl in Hsl. rewrite Hsl. cbn [mbind option_bind].
      unfold ev_date in Hloop. simpl in Hloop. rewrite Hloop. reflexivity.
    + intros first' [= <-]. simpl in Hlm, Hlp. cbn [tail].
      split; [exact Hlm|]. split; [exact Hlp|]. rewrite Hlm, Hlp. simpl.
      rewrite Nat.sub_0_r. apply length_filter_two.
      intros e H1 [H2 _]. congruence.
Qed.

(** In the group 1.0.0, 1.1.0, 1.1.1 both later events are above the first
    in the minor slot. *)
Lemma get_minor_patch_deltatimes_reference_witness :
  exists minors patches,
    _get_minor_patch_deltatimes three_release_group = Some (minors, patches) /\
    (three_release_group = [] -> minors = [] /\ patches = []) /\
    forall first : Event, head three_release_group = Some first ->
      length minors =
        length (filter (fun e => PyStr.gt (slots e).1.2 (slots first).1.2 = true)
                  (tail three_release_group)) /\
      length patches =
        length (filter (fun e => PyStr.gt (slots e).1.2 (slots first).1.2 = false /\
                                 PyStr.gt (slots e).2 (slots first).2 = true)
                  (tail three_release_group)) /\
      length minors + length patches <= length three_release_group - 1.
Proof.
  apply get_minor_patch_deltatimes_reference. unfold three_release_group.
  repeat (apply List.Forall_cons; [vm_compute; split; reflexivity|]). apply List.Forall_nil.
Defined.

Lemma get_minor_patch_deltatimes_total (group : list Event) :
  Forall (fun e => in_range (ev_date e)) group ->
  is_Some (_get_minor_patch_deltatimes group).
Proof.
  intros Hall. destruct group as [|first rest]; [simpl; eauto|].
  apply Forall_cons in Hall as [Hf Hall].
  pose proof (split_version_num_slots first) as Hsl.
  destruct (get_minor_patch_loop_reference rest
              (mkWalk (ev_date first) (ev_date first) (slots first) [] []) Hf Hf Hall)
    as (w & Hloop & _).
  destruct first as [[date kind] version_num]. cbn [_get_minor_patch_deltatimes].
  unfold ev_num in Hsl. simpl in Hsl. rewrite Hsl. cbn [mbind option_bind].
  unfold ev_date in Hloop. simpl in Hloop. rewrite Hloop. simpl. eauto.
Qed.

Lemma gaps_length (series : list Event) : length (gaps series) = length series - 1.
Proof.
  unfold gaps. rewrite length_zip_with.
  destruct series as [|e series]; [reflexivity|]. cbn [tail length]. lia.
Qed.

Lemma first_events_length (par : list (string * list Event)) :
  (forall kg, kg ∈ par -> kg.2 <> []) -> length (first_events par) = length par.
Proof.
  induction par as [|[k g] par IH]; intros Hne; [reflexivity|].
  pose proof (Hne (k, g) (list_elem_of_here _ _)) as Hg. simpl in Hg.
  destruct g as [|e g]; [contradiction|].
  unfold first_events. cbn [omap list_omap snd head]. fold (first_events par).
  simpl. f_equal. apply IH. intros kg Hkg. apply Hne. now right.
Qed.

Lemma build_parallel_loop_None (par : list (string * list Event)) :
  forall (prev_date : option Timestamp) (acc : Buckets),
    (exists kg, kg ∈ par /\ kg.2 = []) ->
    _build_parallel_loop prev_date acc par = None.
Proof.
  induction par as [|[major_num group] rest IH]; intros prev acc (kg & Hin & Hnil).
  - inversion Hin.
  - destruct acc as [[majors minors] patches]. cbn [_build_parallel_loop].
    apply elem_of_cons in Hin as [->|Hin].
    + simpl in Hnil. subst group. reflexivity.
    + destruct (group !! 0%nat) as [first|]; [|reflexivity]. cbn [mbind option_bind].
      destruct (match prev with
                | Some prev0 =>
                    deltatime ← ts_sub (ev_date first) prev0;
                    Some (majors ++ [none_nat2nan (date2days deltatime)])
                | None => Some majors
                end) as [majors'|]; [|reflexivity].
      cbn [mbind option_bind].
      destruct (_get_minor_patch_deltatimes group) as [[mi pa]|]; [|reflexivity].
      cbn [mbind option_bind]. apply IH. eauto.
Qed.

Lemma build_parallel_loop_run (par : list (string * list Event)) :
  forall (prev : Event) (majors minors patches : list float),
    in_range (ev_date prev) ->
    (forall kg, kg ∈ par ->
       kg.2 <> [] /\ Forall (fun e => in_range (ev_date e)) kg.2) ->
    exists per_group,
      Forall2 (fun kg mp => _get_minor_patch_deltatimes kg.2 = Some mp) par per_group /\
      _build_parallel_loop (Some (ev_date prev)) (majors, minors, patches) par =
        Some (majors ++ map snd (gaps (prev :: first_events par)),
              minors ++ concat (map fst per_group),
              patches ++ concat (map snd per_group)).
Proof.
  induction par as [|[major_num group] rest IH];
    intros prev majors minors patches Hprev Hall.
  - exists []. split; [constructor|]. simpl. now rewrite !app_nil_r.
  - destruct (Hall (major_num, group)) as [Hne Hrange]; [left|]. simpl in Hne, Hrange.
    destruct group as [|first group]; [contradiction|].
    pose proof Hrange as Hrange'. apply Forall_cons in Hrange' as [Hf _].
    destruct (get_minor_patch_deltatimes_total _ Hrange) as [[mi pa] Hmp].
    destruct (IH first (majors ++ [gap_of prev first]) (minors ++ mi) (patches ++ pa) Hf)
      as (per_group & Hper & Hloop).
    { intros kg Hkg. apply Hall. now right. }
    exists ((mi, pa) :: per_group). split; [constructor; [exact Hmp | exact Hper]|].
    cbn [_build_parallel_loop]. cbn [lookup list_lookup mbind option_bind].
    rewrite (ts_sub_in_range _ _ Hf Hprev). cbn [mbind option_bind].
    rewrite Hmp. cbn [mbind option_bind]. 
    fold (gap_of prev first). rewrite Hloop.
    unfold first_events. cbn [omap list_omap snd head]. 
    fold (first_events rest). rewrite gaps_cons. simpl.
    now rewrite <- !app_assoc.
Qed.

Lemma build_parallel_loop_start (par : list (string * list Event)) :
  (forall kg, kg ∈ par ->
     kg.2 <> [] /\ Forall (fun e => in_range (ev_date e)) kg.2) ->
  exists per_group,
    Forall2 (fun kg mp => _get_minor_patch_deltatimes kg.2 = Some mp) par per_group /\
    _build_parallel_loop None ([], [], []) par =
      Some (map snd (gaps (first_events par)),
            concat (map fst per_group), concat (map snd per_group)).
Proof.
  intros Hall.
  destruct par as [|[major_num group] rest]; [exists []; split; [constructor | reflexivity]|].
  destruct (Hall (major_num, group)) as [Hg Hgroup]; [left|]. simpl in Hg, Hgroup.
  destruct group as [|first group]; [contradiction|].
  pose proof Hgroup as Hgroup'. apply Forall_cons in Hgroup' as [Hf _].
  destruct (get_minor_patch_deltatimes_total _ Hgroup) as [[mi pa] Hmp].
  destruct (build_parallel_loop_run rest first [] ([] ++ mi) ([] ++ pa) Hf)
    as (per_group & Hper & Hloop).
  { intros kg Hkg. apply Hall. now right. }
  exists ((mi, pa) :: per_group). split; [constructor; [exact Hmp | exact Hper]|].
  cbn [_build_parallel_loop]. cbn [lookup list_lookup mbind option_bind].
  rewrite Hmp. cbn [mbind option_bind]. rewrite Hloop. reflexivity.
Qed.

(** X14. For a parallel entry whose dates are in range,
    [_build_parallel_deltatime_series] returns exactly when no group is
    empty, and raises otherwise.  When it returns, the object is unchanged;
    the major bucket holds the delta times between the first events of
    neighbouring groups, one less than there are groups; the minor and patch
    buckets are the lists [_get_minor_patch_deltatimes] gives for the
    groups, one after the other. *)
Theorem build_parallel_deltatime_series_groups (repo_id : Z) (st : Versioning)
    (par : list (string * list Event)) :
  parallel_date_series st !! repo_id = Some par ->
  (forall kg e, kg ∈ par -> e ∈ kg.2 -> in_range (ev_date e)) ->
  (is_Some (_build_parallel_deltatime_series repo_id st) <->
   forall kg, kg ∈ par -> kg.2 <> []) /\
  forall (b : Buckets) (st' : Versioning),
    _build_parallel_deltatime_series repo_id st = Some (b, st') ->
    st' = st /\
    b.1.1 = map snd (gaps (first_events par)) /\
    length b.1.1 = length par - 1 /\
    exists per_group,
      Forall2 (fun kg mp => _get_minor_patch_deltatimes kg.2 = Some mp) par per_group /\
      b.1.2 = concat (map fst per_group) /\
      b.2 = concat (map snd per_group).
Proof.
  intros Hpar Hrange.
  assert (Hrun : _build_parallel_deltatime_series repo_id st =
                 match _build_parallel_loop None ([], [], []) par with
                 | Some b => Some (b, st)
                 | None => None
                 end).
  { unfold _build_parallel_deltatime_series, mbind, Py_bind, get_parallel_date_series.
    rewrite Hpar. reflexivity. }
  rewrite Hrun. clear Hrun.
  destruct (decide (Forall (fun kg : string * list Event => kg.2 <> []) par))
    as [Hne|Hex].
  - rewrite Forall_forall in Hne.
    destruct (build_parallel_loop_start par) as (per_group & Hper & Hloop).
    { intros kg Hkg. split; [now apply Hne|].
      apply Forall_forall. intros e He. now apply (Hrange kg e). }
    rewrite Hloop.
    split; [split; [intros _ kg Hkg; now apply Hne | eauto]|].
    intros b st' [= <- <-]. simpl. split; [reflexivity|]. split; [reflexivity|].
    split; [|eauto].
    rewrite length_map, gaps_length, first_events_length; [reflexivity|].
    intros kg Hkg. now apply Hne.
  - apply not_Forall_Exists in Hex; [|apply _].
    apply Exists_exists in Hex as (kg & Hkg & Hnil).
    assert (Hnil' : kg.2 = []).
    { destruct kg as [k [|e g]]; [reflexivity|]. exfalso.
      apply Hnil. simpl. discriminate. }
    rewrite build_parallel_loop_None by eauto.
    split; [|discriminate].
    split; [intros [x Hx]; discriminate|]. intros Hall.
    destruct (Hall kg Hkg Hnil').
Qed.

(** An entry with two groups, none empty. *)
Lemma build_parallel_deltatime_series_groups_witness :
  (is_Some (_build_parallel_deltatime_series 1
              (mkVersioning [] [] ∅ ∅ (<[1%Z := two_group_entry]> ∅))) <->
   forall kg, kg ∈ two_group_entry -> kg.2 <> []) /\
  forall (b : Buckets) (st' : Versioning),
    _build_parallel_deltatime_series 1
      (mkVersioning [] [] ∅ ∅ (<[1%Z := two_group_entry]> ∅)) = Some (b, st') ->
    st' = mkVersioning [] [] ∅ ∅ (<[1%Z := two_group_entry]> ∅) /\
    b.1.1 = map snd (gaps (first_events two_group_entry)) /\
    length b.1.1 = length two_group_entry - 1 /\
    exists per_group,
      Forall2 (fun kg mp => _get_minor_patch_deltatimes kg.2 = Some mp)
        two_group_entry per_group /\
      b.1.2 = concat (map fst per_group) /\
      b.2 = concat (map snd per_group).
Proof.
  apply build_parallel_deltatime_series_groups.
  - reflexivity.
  - intros kg e Hkg He. unfold two_group_entry, three_release_group in Hkg.
    rewrite !elem_of_cons, elem_of_nil in Hkg.
    destruct Hkg as [->|[->|[]]]; simpl in He;
      rewrite !elem_of_cons, elem_of_nil in He;
      repeat (destruct He as [->|He]; [vm_compute; split; reflexivity|]);
      destruct He.
Defined.

(** ** Scoring never raises on a loaded object *)

Lemma loaded_frozen (s t : Versioning) : frozen_eq s t -> loaded s -> loaded t.
Proof.
  intros (_ & Hv & Hd & Hp) Hl id Hid. rewrite <- Hv in Hid.
  destruct (Hl id Hid) as (series & par & H1 & H2 & H3 & H4).
  exists series, par. rewrite <- Hd, <- Hp. auto.
Qed.

Lemma dates_in_range_frozen (s t : Versioning) :
  frozen_eq s t -> dates_in_range s -> dates_in_range t.
Proof.
  intros (_ & Hv & Hd & _) [H1 H2]. split.
  - intros row Hrow. apply H1. now rewrite Hv.
  - intros id series e Hs He. apply (H2 id series e); [now rewrite Hd | exact He].
Qed.

Lemma events_of_major_subset (k : string) (series : list Event) (e : Event) :
  e ∈ events_of_major k series -> e ∈ series.
Proof. unfold events_of_major. intros H. apply list_elem_of_filter in H. tauto. Qed.

Lemma build_deltatime_loop_start (series : list Event) :
  Forall (fun e => in_range (ev_date e)) series ->
  _build_deltatime_loop None ([], [], []) series =
    Some (bucket MAJOR (gaps series), bucket MINOR (gaps series),
          bucket PATCH (gaps series)).
Proof.
  intros Hall. destruct series as [|e series]; [reflexivity|].
  apply Forall_cons in Hall as [He Hall]. cbn [_build_deltatime_loop].
  cbn [mbind option_bind].
  now rewrite (build_deltatime_loop_gaps series e [] [] [] He Hall).
Qed.

Lemma build_deltatime_series_total (repo_id : Z) (st : Versioning) :
  loaded st -> dates_in_range st -> repo_id ∈ map fst (versioning st) ->
  exists b, _build_deltatime_series repo_id st = Some (b, st).
Proof.
  intros Hl [_ Hr] Hid.
  destruct (Hl repo_id Hid) as (series & par & Hs & _ & Hp & _ & Hgroups).
  assert (Hall : Forall (fun e => in_range (ev_date e)) series).
  { apply Forall_forall. intros e He. exact (Hr repo_id series e Hs He). }
  unfold _build_deltatime_series, mbind at 1, Py_bind at 1, get_parallel_date_series.
  rewrite Hp. destruct (0 <? length par)%nat.
  - unfold _build_parallel_deltatime_series, mbind, Py_bind, get_parallel_date_series, lift.
    rewrite Hp.
    destruct (build_parallel_loop_start par) as (per_group & _ & Hloop).
    { intros [k g] Hkg. destruct (Hgroups k g Hkg) as [Hne ->]. split; [exact Hne|].
      apply Forall_forall. intros e He. apply events_of_major_subset in He.
      exact (Hr repo_id series e Hs He). }
    rewrite Hloop. eauto.
  - unfold mbind, Py_bind, get_date_series, lift. rewrite Hs.
    rewrite (build_deltatime_loop_start series Hall). eauto.
Qed.

Lemma meantime_weighted_sum_total (np_log : float -> float) (repo_id : Z)
    (st : Versioning) :
  loaded st -> dates_in_range st -> repo_id ∈ map fst (versioning st) ->
  exists x st',
    _meantime_weighted_sum np_log repo_id st = Some (x, st') /\ frozen_eq st st'.
Proof.
  intros Hl Hr Hid.
  destruct (Hl repo_id Hid) as (series & par & Hs & _).
  destruct (build_deltatime_series_total repo_id st Hl Hr Hid) as [[[majors minors] patches] Hb].
  unfold _meantime_weighted_sum, mbind at 1, Py_bind at 1, get_date_series.
  rewrite Hs. destruct (length series <? 2)%nat.
  - eexists _, _. split; [reflexivity | apply frozen_eq_refl].
  - unfold mbind at 1, Py_bind at 1. rewrite Hb.
    eexists _, _. split; [reflexivity | repeat split].
Qed.

Lemma comprehension_total {A B : Type} (P : Versioning -> Prop) (l : list A)
    (f : A -> Py B) :
  (forall x s, x ∈ l -> P s -> exists y s', f x s = Some (y, s') /\ P s') ->
  forall s, P s ->
    exists ys s', comprehension l f s = Some (ys, s') /\ P s' /\ length ys = length l.
Proof.
  induction l as [|x l IH]; intros Hf s Hs.
  - exists [], s. repeat split. exact Hs.
  - destruct (Hf x s) as (y & s1 & Hy & Hs1); [left | exact Hs|].
    destruct (IH (fun x' s' Hx' => Hf x' s' (list_elem_of_further _ _ _ Hx')) s1 Hs1)
      as (ys & s2 & Hys & Hs2 & Hlen).
    exists (y :: ys), s2. split; [|split; [exact Hs2 | simpl; now rewrite Hlen]].
    simpl. rewrite (bind_run _ _ _ _ _ Hy), (bind_run _ _ _ _ _ Hys). reflexivity.
Qed.

Lemma version_meantime_score_total (np_log : float -> float) (st : Versioning) :
  loaded st -> dates_in_range st ->
  exists scores st', version_meantime_score np_log st = Some (scores, st').
Proof.
  intros Hl Hr.
  set (s3 := set_columns
               (<["patch_meantime" := replicate (nrows st) 0%float]>
                  (<["minor_meantime" := replicate (nrows st) 0%float]>
                     (<["major_meantime" := replicate (nrows st) 0%float]> (columns st))))
               st).
  assert (H3 : frozen_eq st s3) by repeat split.
  destruct (comprehension_total (frozen_eq st) (map fst (versioning st))
              (_meantime_weighted_sum np_log)) with (s := s3)
    as (scores & s4 & Hcomp & H4 & Hlen).
  { intros id s Hid Hs.
    destruct (meantime_weighted_sum_total np_log id s) as (x & s' & Hx & Hs').
    - exact (loaded_frozen _ _ Hs Hl).
    - exact (dates_in_range_frozen _ _ Hs Hr).
    - now rewrite <- (frozen_versioning _ _ Hs).
    - exists x, s'. split; [exact Hx | exact (frozen_eq_trans _ _ _ Hs Hs')]. }
  { exact H3. }
  assert (Hrun : version_meantime_score np_log st =
                 match comprehension (map fst (versioning st))
                         (_meantime_weighted_sum np_log) s3 with
                 | Some (scores, s4) =>
                     (set_col "weighted_meantime" scores
                      ≫= fun _ => get_col "weighted_meantime") s4
                 | None => None
                 end) by reflexivity.
  rewrite Hrun, Hcomp.
  unfold mbind, Py_bind, set_col.
  rewrite length_map in Hlen. unfold nrows.
  rewrite <- (frozen_versioning _ _ H4), Hlen, Nat.eqb_refl.
  unfold get_col. simpl columns. rewrite lookup_insert_eq. eauto.
Qed.

Lemma get_age_total (row : Z * Timestamp) (st : Versioning) :
  loaded st -> dates_in_range st -> row ∈ versioning st ->
  exists x, get_age row st = Some (x, st).
Proof.
  intros Hl [Hrows Hr] Hrow.
  assert (Hid : row.1 ∈ map fst (versioning st)).
  { apply list_elem_of_fmap. eauto. }
  destruct (Hl row.1 Hid) as (series & par & Hs & Hne & _).
  destruct series as [|first series]; [contradiction|].
  unfold get_age, mbind, Py_bind, get_date_series, lift. rewrite Hs.
  cbn [lookup list_lookup].
  rewrite (ts_sub_in_range row.2 (ev_date first)).
  - eauto.
  - now apply Hrows.
  - apply (Hr row.1 (first :: series) first Hs). left.
Qed.

Lemma bind_set_col {B : Type} (k : string) (v : list float) (f : unit -> Py B)
    (s : Versioning) :
  length v = nrows s ->
  (set_col k v ≫= f) s = f tt (set_columns (<[k := v]> (columns s)) s).
Proof.
  intros H. unfold mbind, Py_bind, set_col. now rewrite H, Nat.eqb_refl.
Qed.

Lemma bind_get_col {B : Type} (k : string) (c : list float) (f : list float -> Py B)
    (s : Versioning) :
  columns s !! k = Some c -> (get_col k ≫= f) s = f c s.
Proof. intros H. unfold mbind, Py_bind, get_col. now rewrite H. Qed.

Lemma version_frequency_columns_total (np_log : float -> float) (s1 : Versioning) :
  loaded s1 -> dates_in_range s1 ->
  column_ok "major_count" s1 -> column_ok "minor_count" s1 ->
  column_ok "patch_count" s1 ->
  exists x s',
    (rows ← gets versioning;
     ages ← comprehension rows get_age;
     major_count ← get_col "major_count";
     _ ← set_col "major_freq"
           (zip_with (fun c a => Np.round2 (c / (a / 365))) major_count ages);
     minor_count ← get_col "minor_count";
     _ ← set_col "minor_freq"
           (zip_with (fun c a => Np.round2 (c / (a / (365 / 3)))) minor_count ages);
     patch_count ← get_col "patch_count";
     _ ← set_col "patch_freq"
           (zip_with (fun c a => Np.round2 (c / (a / (365 / 18)))) patch_count ages);
     minor_freq ← get_col "minor_freq";
     patch_freq ← get_col "patch_freq";
     let res := zip_with (fun a b => s_shape (logscale np_log (a + b)))
                  minor_freq patch_freq in
     _ ← set_col "weighted_freq" (map Np.round2 res);
     get_col "weighted_freq") s1 = Some (x, s').
Proof.
  intros Hl Hr (cM & HM & LM) (cm & Hm & Lm) (cp & Hp & Lp).
  destruct (comprehension_total (fun s => s = s1) (versioning s1) get_age) with (s := s1)
    as (ages & s & Hages & -> & Lages).
  { intros row s Hrow ->. destruct (get_age_total row s1 Hl Hr Hrow) as [x Hx]. eauto. }
  { reflexivity. }
  fold (nrows s1) in Lages.
  assert (G0 : gets versioning s1 = Some (versioning s1, s1)) by reflexivity.
  rewrite (bind_run _ _ _ _ _ G0), (bind_run _ _ _ _ _ Hages).
  rewrite (bind_get_col _ _ _ _ HM).
  rewrite bind_set_col by (rewrite length_zip_with; lia).
  rewrite (bind_get_col _ cm)
    by (simpl; now rewrite lookup_insert_ne by discriminate).
  rewrite bind_set_col by (rewrite length_zip_with; unfold nrows in *; simpl; lia).
  rewrite (bind_get_col _ cp)
    by (simpl; now rewrite !lookup_insert_ne by discriminate).
  rewrite bind_set_col by (rewrite length_zip_with; unfold nrows in *; simpl; lia).
  rewrite (bind_get_col _ (zip_with (fun c a => Np.round2 (c / (a / (365 / 3)))) cm ages))
    by (simpl; rewrite lookup_insert_ne by discriminate; now rewrite lookup_insert_eq).
  rewrite (bind_get_col _ (zip_with (fun c a => Np.round2 (c / (a / (365 / 18)))) cp ages))
    by (simpl; now rewrite lookup_insert_eq).
  cbv zeta.
  rewrite bind_set_col
    by (rewrite length_map, !length_zip_with; unfold nrows in *; simpl; lia).
  unfold get_col. simpl columns. rewrite lookup_insert_eq. eauto.
Qed.

Lemma version_frequency_total (np_log : float -> float) (st : Versioning) :
  loaded st -> dates_in_range st ->
  (is_Some (columns st !! "weighted_count") ->
   column_ok "major_count" st /\ column_ok "minor_count" st /\
   column_ok "patch_count" st) ->
  exists x st', version_frequency np_log st = Some (x, st').
Proof.
  intros Hl Hr Hcols. unfold version_frequency.
  assert (G0 : has_col "weighted_count" st =
               Some (bool_decide (is_Some (columns st !! "weighted_count")), st))
    by reflexivity.
  rewrite (bind_run _ _ _ _ _ G0).
  destruct (decide (is_Some (columns st !! "weighted_count"))) as [Hw|Hw].
  - rewrite (bool_decide_eq_true_2 _ Hw). cbn [negb].
    assert (G1 : (mret tt : Py unit) st = Some (tt, st)) by reflexivity.
    rewrite (bind_run _ _ _ _ _ G1).
    destruct (Hcols Hw) as (H1 & H2 & H3).
    exact (version_frequency_columns_total np_log st Hl Hr H1 H2 H3).
  - rewrite (bool_decide_eq_false_2 _ Hw). cbn [negb].
    destruct (number_version_score_run np_log st) as [[_ Hsome] Hrun].
    destruct Hsome as [[scores s1] Hnvs].
    { intros id Hid. destruct (Hl id Hid) as (series & par & Hs & _). eauto. }
    destruct (Hrun scores s1 Hnvs) as (Hfr & _ & HM & Hm & Hp & _).
    assert (G1 : (_ ← number_version_score np_log; mret tt : Py unit) st = Some (tt, s1))
      by (rewrite (bind_run _ _ _ _ _ Hnvs); reflexivity).
    rewrite (bind_run _ _ _ _ _ G1).
    assert (Hn : nrows s1 = nrows st) by (symmetry; exact (frozen_eq_nrows _ _ Hfr)).
    apply version_frequency_columns_total.
    + exact (loaded_frozen _ _ Hfr Hl).
    + exact (dates_in_range_frozen _ _ Hfr Hr).
    + eexists. split; [exact HM|]. now rewrite length_map, Hn.
    + eexists. split; [exact Hm|]. now rewrite length_map, Hn.
    + eexists. split; [exact Hp|]. now rewrite length_map, Hn.
Qed.

(** ** The columns a method leaves *)

Lemma keeps_ret {A : Type} (x : A) : keeps_columns (mret x : Py A).
Proof. intros s s' y [= <- <-]. split; [apply frozen_eq_refl | auto]. Qed.

Lemma keeps_bind {A B : Type} (m : Py A) (f : A -> Py B) :
  keeps_columns m -> (forall x, keeps_columns (f x)) -> keeps_columns (m ≫= f).
Proof.
  intros Hm Hf s s' y H. apply bind_Some in H as (x & s1 & H1 & H2).
  destruct (Hm _ _ _ H1) as [F1 K1]. destruct (Hf x _ _ _ H2) as [F2 K2].
  split; [exact (frozen_eq_trans _ _ _ F1 F2) | auto].
Qed.

Lemma keeps_lift {A : Type} (o : option A) : keeps_columns (lift o).
Proof.
  intros s s' y H. apply lift_Some in H as [_ ->].
  split; [apply frozen_eq_refl | auto].
Qed.

Lemma keeps_gets {A : Type} (f : Versioning -> A) : keeps_columns (gets f).
Proof. intros s s' y [= <- <-]. split; [apply frozen_eq_refl | auto]. Qed.

Lemma keeps_get_date_series (repo_id : Z) : keeps_columns (get_date_series repo_id).
Proof.
  intros s s' y H. apply get_date_series_Some in H as [_ ->].
  split; [apply frozen_eq_refl | auto].
Qed.

Lemma keeps_get_parallel_date_series (repo_id : Z) :
  keeps_columns (get_parallel_date_series repo_id).
Proof.
  intros s s' y H. apply get_parallel_date_series_Some in H as [_ ->].
  split; [apply frozen_eq_refl | auto].
Qed.

Lemma keeps_get_col (k : string) : keeps_columns (get_col k).
Proof.
  intros s s' y H. unfold get_col in H.
  destruct (columns s !! k); [|discriminate]. injection H as <- <-.
  split; [apply frozen_eq_refl | auto].
Qed.

Lemma keeps_has_col (k : string) : keeps_columns (has_col k).
Proof. intros s s' y [= <- <-]. split; [apply frozen_eq_refl | auto]. Qed.

Lemma column_ok_insert (k k' : string) (v : list float) (s : Versioning) :
  length v = nrows s -> column_ok k' s ->
  column_ok k' (set_columns (<[k := v]> (columns s)) s).
Proof.
  intros Hv (c & Hc & Lc). unfold column_ok. simpl.
  destruct (decide (k = k')) as [->|Hne].
  - exists v. rewrite lookup_insert_eq. auto.
  - exists c. rewrite lookup_insert_ne by assumption. auto.
Qed.

Lemma column_ok_insert_eq (k : string) (v : list float) (s : Versioning) :
  length v = nrows s -> column_ok k (set_columns (<[k := v]> (columns s)) s).
Proof. intros Hv. exists v. simpl. rewrite lookup_insert_eq. auto. Qed.

Lemma keeps_set_col (k : string) (v : list float) : keeps_columns (set_col k v).
Proof.
  intros s s' y H. unfold set_col in H.
  destruct (Nat.eqb_spec (length v) (nrows s)) as [Hlen|]; [|discriminate].
  injection H as <- <-. split; [apply frozen_eq_set_columns|].
  intros k'. now apply column_ok_insert.
Qed.

Lemma keeps_set_col_scalar (k : string) (x : float) :
  keeps_columns (set_col_scalar k x).
Proof.
  intros s s' y [= <- <-]. split; [apply frozen_eq_set_columns|].
  intros k'. apply column_ok_insert. apply length_replicate.
Qed.

Lemma loc_set_length (repo_id : Z) (k : string) (x : float) (s : Versioning) :
  column_ok k s ->
  length (zip_with (fun (row : Z * Timestamp) o => if (row.1 =? repo_id)%Z then x else o)
            (versioning s) (default (replicate (nrows s) nan) (columns s !! k)))
  = nrows s.
Proof.
  intros (c & Hc & Lc). rewrite Hc. simpl. rewrite length_zip_with, Lc.
  unfold nrows. lia.
Qed.

Lemma keeps_loc_set (repo_id : Z) (k : string) (x : float) :
  keeps_columns (loc_set repo_id k x).
Proof.
  intros s s' y [= <- <-]. split; [apply frozen_eq_set_columns|].
  intros k' Hk'. destruct (decide (k = k')) as [->|Hne].
  - apply column_ok_insert_eq. now apply loc_set_length.
  - destruct Hk' as (c & Hc & Lc). exists c. simpl.
    rewrite lookup_insert_ne by assumption. auto.
Qed.

Lemma keeps_comprehension {A B : Type} (l : list A) (f : A -> Py B) :
  (forall x, keeps_columns (f x)) -> keeps_columns (comprehension l f).
Proof.
  intros Hf. induction l as [|x l IH]; simpl.
  - apply keeps_ret.
  - apply keeps_bind; [apply Hf|]. intros y.
    apply keeps_bind; [apply IH|]. intros ys. apply keeps_ret.
Qed.

Lemma keeps_for_each {A : Type} (l : list A) (body : A -> Py unit) :
  (forall x, keeps_columns (body x)) -> keeps_columns (for_each l body).
Proof.
  intros Hf. induction l as [|x l IH]; simpl.
  - apply keeps_ret.
  - apply keeps_bind; [apply Hf|]. intros _. apply IH.
Qed.

Create HintDb keeps discriminated.

#[export] Hint Resolve keeps_ret keeps_lift keeps_gets keeps_get_date_series
  keeps_get_parallel_date_series keeps_get_col keeps_has_col keeps_set_col
  keeps_set_col_scalar keeps_loc_set : keeps.

Ltac keeps_step :=
  lazymatch goal with
  | |- keeps_columns (_ ≫= _) => apply keeps_bind; [|intros ?]
  | |- keeps_columns (comprehension _ _) => apply keeps_comprehension; intros ?
  | |- keeps_columns (for_each _ _) => apply keeps_for_each; intros ?
  | |- keeps_columns (match ?p with _ => _ end) => destruct p
  | |- keeps_columns _ => solve [auto with keeps]
  end.

Lemma keeps_build_deltatime_series (repo_id : Z) :
  keeps_columns (_build_deltatime_series repo_id).
Proof.
  unfold _build_deltatime_series, _build_parallel_deltatime_series.
  repeat keeps_step.
Qed.

Lemma keeps_num_versions_weighted_sum (repo_id : Z) :
  keeps_columns (_num_versions_weighted_sum repo_id).
Proof. unfold _num_versions_weighted_sum. repeat keeps_step. Qed.

Lemma keeps_number_version_score (np_log : float -> float) :
  keeps_columns (number_version_score np_log).
Proof.
  unfold number_version_score. repeat keeps_step.
  apply keeps_num_versions_weighted_sum.
Qed.

Lemma keeps_meantime_weighted_sum (np_log : float -> float) (repo_id : Z) :
  keeps_columns (_meantime_weighted_sum np_log repo_id).
Proof.
  unfold _meantime_weighted_sum.
  apply keeps_bind; [auto with keeps|]. intros series.
  destruct (length series <? 2)%nat; [auto with keeps|].
  apply keeps_bind; [apply keeps_build_deltatime_series|].
  intros [[majors minors] patches]. repeat keeps_step.
Qed.

Lemma keeps_version_meantime_score (np_log : float -> float) :
  keeps_columns (version_meantime_score np_log).
Proof.
  unfold version_meantime_score. repeat keeps_step.
  apply keeps_meantime_weighted_sum.
Qed.

Lemma keeps_get_age (row : Z * Timestamp) : keeps_columns (get_age row).
Proof. unfold get_age. repeat keeps_step. Qed.

Lemma keeps_version_frequency (np_log : float -> float) :
  keeps_columns (version_frequency np_log).
Proof.
  unfold version_frequency.
  apply keeps_bind; [auto with keeps|]. intros b.
  apply keeps_bind.
  { destruct (negb b); [|auto with keeps].
    apply keeps_bind; [apply keeps_number_version_score | auto with keeps]. }
  intros _. apply keeps_bind; [auto with keeps|]. intros rows.
  apply keeps_bind; [apply keeps_comprehension; intros row; apply keeps_get_age|].
  intros ages. repeat keeps_step.
Qed.

Lemma keeps_score (np_log : float -> float) : keeps_columns (score np_log).
Proof.
  unfold score. cbv zeta.
  repeat lazymatch goal with
    | |- keeps_columns (_ ≫= _) => apply keeps_bind; [|intros ?]
    | |- keeps_columns (number_version_score _) => apply keeps_number_version_score
    | |- keeps_columns (version_meantime_score _) => apply keeps_version_meantime_score
    | |- keeps_columns (version_frequency _) => apply keeps_version_frequency
    | |- keeps_columns _ => solve [auto with keeps]
    end.
Qed.

Lemma creates_bind_l {A B : Type} (k : string) (m : Py A) (f : A -> Py B) :
  creates_column k m -> (forall x, keeps_columns (f x)) -> creates_column k (m ≫= f).
Proof.
  intros Hm Hf s s' y H. apply bind_Some in H as (x & s1 & H1 & H2).
  exact (proj2 (Hf x _ _ _ H2) k (Hm _ _ _ H1)).
Qed.

Lemma creates_bind_r {A B : Type} (k : string) (m : Py A) (f : A -> Py B) :
  (forall x, creates_column k (f x)) -> creates_column k (m ≫= f).
Proof.
  intros Hf s s' y H. apply bind_Some in H as (x & s1 & H1 & H2).
  exact (Hf x _ _ _ H2).
Qed.

Lemma creates_set_col (k : string) (v : list float) : creates_column k (set_col k v).
Proof.
  intros s s' y H. unfold set_col in H.
  destruct (Nat.eqb_spec (length v) (nrows s)) as [Hlen|]; [|discriminate].
  injection H as <- <-. now apply column_ok_insert_eq.
Qed.

Lemma creates_set_col_scalar (k : string) (x : float) :
  creates_column k (set_col_scalar k x).
Proof.
  intros s s' y [= <- <-]. apply column_ok_insert_eq. apply length_replicate.
Qed.

Ltac keeps_methods :=
  repeat lazymatch goal with
    | |- keeps_columns (_ ≫= _) => apply keeps_bind; [|intros ?]
    | |- keeps_columns (number_version_score _) => apply keeps_number_version_score
    | |- keeps_columns (version_meantime_score _) => apply keeps_version_meantime_score
    | |- keeps_columns (version_frequency _) => apply keeps_version_frequency
    | |- keeps_columns (_num_versions_weighted_sum _) =>
        apply keeps_num_versions_weighted_sum
    | |- keeps_columns (_meantime_weighted_sum _ _) => apply keeps_meantime_weighted_sum
    | |- keeps_columns (get_age _) => apply keeps_get_age
    | |- keeps_columns (comprehension _ _) => apply keeps_comprehension; intros ?
    | |- keeps_columns (match ?p with _ => _ end) => destruct p
    | |- keeps_columns _ => solve [auto with keeps]
    end.

Lemma creates_count_columns (np_log : float -> float) (k : string) :
  k ∈ ["major_count"; "minor_count"; "patch_count"] ->
  creates_column k (number_version_score np_log).
Proof.
  rewrite !elem_of_cons, elem_of_nil. unfold number_version_score.
  intros [->|[->|[->|[]]]].
  - apply creates_bind_l; [apply creates_set_col_scalar|]. intros ?. keeps_methods.
  - apply creates_bind_r. intros ?.
    apply creates_bind_l; [apply creates_set_col_scalar|]. intros ?. keeps_methods.
  - do 2 (apply creates_bind_r; intros ?).
    apply creates_bind_l; [apply creates_set_col_scalar|]. intros ?. keeps_methods.
Qed.

Lemma creates_meantime_columns (np_log : float -> float) (k : string) :
  k ∈ ["major_meantime"; "minor_meantime"; "patch_meantime"] ->
  creates_column k (version_meantime_score np_log).
Proof.
  rewrite !elem_of_cons, elem_of_nil. unfold version_meantime_score.
  intros [->|[->|[->|[]]]].
  - apply creates_bind_l; [apply creates_set_col_scalar|]. intros ?. keeps_methods.
  - apply creates_bind_r. intros ?.
    apply creates_bind_l; [apply creates_set_col_scalar|]. intros ?. keeps_methods.
  - do 2 (apply creates_bind_r; intros ?).
    apply creates_bind_l; [apply creates_set_col_scalar|]. intros ?. keeps_methods.
Qed.

Lemma creates_freq_columns (np_log : float -> float) (k : string) :
  k ∈ ["major_freq"; "minor_freq"; "patch_freq"] ->
  creates_column k (version_frequency np_log).
Proof.
  rewrite !elem_of_cons, elem_of_nil. unfold version_frequency.
  intros [->|[->|[->|[]]]].
  - do 5 (apply creates_bind_r; intros ?).
    apply creates_bind_l; [apply creates_set_col|]. intros ?. keeps_methods.
  - do 7 (apply creates_bind_r; intros ?).
    apply creates_bind_l; [apply creates_set_col|]. intros ?. keeps_methods.
  - do 9 (apply creates_bind_r; intros ?).
    apply creates_bind_l; [apply creates_set_col|]. intros ?. keeps_methods.
Qed.

Lemma score_creates (np_log : float -> float) (k : string) :
  k ∈ get_json_cols -> creates_column k (score np_log).
Proof.
  unfold get_json_cols. rewrite !elem_of_cons, elem_of_nil. unfold score.
  intros [->|[->|[->|[->|[->|[->|[->|[->|[->|[->|[]]]]]]]]]]].
  1-3: apply creates_bind_r; intros ?;
       (apply creates_bind_l;
        [apply creates_meantime_columns; rewrite !elem_of_cons; auto|]);
       intros ?; cbv zeta; keeps_methods.
  1-3: (apply creates_bind_l;
        [apply creates_count_columns; rewrite !elem_of_cons; auto|]);
       intros ?; cbv zeta; keeps_methods.
  1-3: do 2 (apply creates_bind_r; intros ?);
       (apply creates_bind_l;
        [apply creates_freq_columns; rewrite !elem_of_cons; auto|]);
       intros ?; cbv zeta; keeps_methods.
  do 8 (apply creates_bind_r; intros ?). cbv zeta.
  apply creates_bind_l; [apply creates_set_col|]. intros ?. keeps_methods.
Qed.

Lemma score_total (np_log : float -> float) (st : Versioning) :
  loaded st -> dates_in_range st ->
  exists scores st',
    score np_log st = Some (scores, st') /\ length scores = nrows st /\
    columns st' !! "versioning_openteams_score" = Some scores /\
    frozen_eq st st' /\
    forall col, col ∈ get_json_cols -> column_ok col st'.
Proof.
  intros Hl Hr.
  destruct (number_version_score_run np_log st) as [[_ Hsome] _].
  destruct Hsome as [[count_score s1] H1].
  { intros id Hid. destruct (Hl id Hid) as (series & par & Hs & _). eauto. }
  destruct (keeps_number_version_score np_log _ _ _ H1) as [F1 _].
  destruct (version_meantime_score_total np_log s1) as (meantime_score & s2 & H2).
  { exact (loaded_frozen _ _ F1 Hl). }
  { exact (dates_in_range_frozen _ _ F1 Hr). }
  destruct (keeps_version_meantime_score np_log _ _ _ H2) as [F2 K2].
  pose proof (frozen_eq_trans _ _ _ F1 F2) as F12.
  destruct (version_frequency_total np_log s2) as (weighted_freq & s3 & H3).
  { exact (loaded_frozen _ _ F12 Hl). }
  { exact (dates_in_range_frozen _ _ F12 Hr). }
  { intros _.
    assert (Hc : forall k, k ∈ ["major_count"; "minor_count"; "patch_count"] ->
                           column_ok k s2).
    { intros k Hk. apply K2. exact (creates_count_columns np_log k Hk _ _ _ H1). }
    repeat split; apply Hc; rewrite !elem_of_cons; auto. }
  destruct (score_run np_log st s1 s2 s3 _ _ _ H1 H2 H3)
    as (st' & Hscore & Hcol & Lc & Lm & Lf).
  exists (score_rows count_score meantime_score weighted_freq), st'.
  split; [exact Hscore|].
  split; [unfold score_rows; rewrite !length_zip_with; lia|].
  split; [exact Hcol|].
  split; [exact (proj1 (keeps_score np_log _ _ _ Hscore))|].
  intros col Hcol'. exact (score_creates np_log col Hcol' _ _ _ Hscore).
Qed.

(** X15. On an object whose series are in place and whose dates are in
    range, [score] never raises: it returns one score per project, stores
    it in the column "versioning_openteams_score", leaves the frames and
    the series as they are, and leaves all ten columns of [get_json_cols]
    in place, one entry per row. *)
Theorem score_returns (np_log : float -> float) (st : Versioning) :
  loaded st -> dates_in_range st ->
  exists scores st',
    score np_log st = Some (scores, st') /\ length scores = nrows st /\
    columns st' !! "versioning_openteams_score" = Some scores /\
    frozen_eq st st' /\
    forall col, col ∈ get_json_cols -> column_ok col st'.
Proof. exact (score_total np_log st). Qed.

Lemma set_version_series_ready (sort_values : list VersionRow -> list VersionRow)
    (st st' : Versioning) :
  (forall l, sort_values l ≡ₚ l) ->
  _set_version_series sort_values st = Some (tt, st') ->
  (forall r, r ∈ version st -> in_range (published_at r)) ->
  (forall row : Z * Timestamp, row ∈ versioning st -> in_range row.2) ->
  loaded st' /\ dates_in_range st'.
Proof.
  intros Hperm Hrun Hrows Hupd.
  destruct (set_version_series_run sort_values st Hperm) as [_ Hst'].
  destruct (Hst' st' Hrun) as (_ & Hving & _ & _ & Hl & Hdates).
  split; [exact Hl|]. split.
  - intros row Hrow. apply Hupd. now rewrite <- Hving.
  - intros id series e Hs He.
    destruct (Hdates id series e Hs He) as (r & Hr & _ & _ & <-). now apply Hrows.
Qed.

Lemma example_object_in_range :
  (forall r, r ∈ version example_object -> in_range (published_at r)) /\
  (forall row : Z * Timestamp, row ∈ versioning example_object -> in_range row.2).
Proof.
  split.
  - intros r Hr. unfold example_object, new_versioning, example_rows in Hr.
    cbn [version] in Hr. rewrite !elem_of_cons, elem_of_nil in Hr.
    repeat (destruct Hr as [->|Hr]; [vm_compute; split; reflexivity|]). destruct Hr.
  - intros row Hrow. unfold example_object, new_versioning in Hrow.
    cbn [versioning] in Hrow. rewrite !elem_of_cons, elem_of_nil in Hrow.
    repeat (destruct Hrow as [->|Hrow]; [vm_compute; split; reflexivity|]).
    destruct Hrow.
Qed.

Lemma example_loaded_run :
  _set_version_series sort_by_date example_object = Some (tt, example_loaded).
Proof. vm_compute. reflexivity. Qed.

Lemma example_loaded_ready : loaded example_loaded /\ dates_in_range example_loaded.
Proof.
  destruct example_object_in_range as [H1 H2].
  exact (set_version_series_ready sort_by_date example_object example_loaded
           sort_by_date_perm example_loaded_run H1 H2).
Qed.

(** The two example projects are scored. *)
Lemma score_returns_witness :
  exists scores st',
    score ln example_loaded = Some (scores, st') /\
    length scores = nrows example_loaded /\
    columns st' !! "versioning_openteams_score" = Some scores /\
    frozen_eq example_loaded st' /\
    forall col, col ∈ get_json_cols -> column_ok col st'.
Proof.
  apply (score_returns ln example_loaded);
    [exact (proj1 example_loaded_ready) | exact (proj2 example_loaded_ready)].
Defined.

Lemma zscores_total (zscore : list float -> list float) (cols : list string) :
  (forall c c', c ∈ cols -> c' ∈ cols -> c <> zscore_col c') ->
  forall s : Versioning,
    (forall c, c ∈ cols ->
       exists column,
         columns s !! c = Some column /\ length (zscore column) = nrows s) ->
    exists s',
      for_each cols (fun col =>
        column ← get_col col;
        set_col (col +:+ "_zscore") (map Np.round2 (zscore column))) s = Some (tt, s').
Proof.
  induction cols as [|col cols IH]; intros Hrw s Hcols; [simpl; eauto|].
  destruct (Hcols col) as (column & Hcol & Hlen); [left|].
  assert (Hstep : (column ← get_col col;
                   set_col (col +:+ "_zscore") (map Np.round2 (zscore column))) s
                  = Some (tt, set_columns
                                (<[zscore_col col := map Np.round2 (zscore column)]>
                                   (columns s)) s)).
  { apply zscore_step_Some. exists column. split; [exact Hcol|].
    split; [now rewrite length_map | reflexivity]. }
  cbn [for_each]. rewrite (bind_run _ _ _ _ _ Hstep). apply IH.
  - intros c c' Hc Hc'. apply Hrw; now right.
  - intros c Hc. destruct (Hcols c) as (column' & Hc1 & Hc2); [now right|].
    exists column'. simpl. rewrite lookup_insert_ne; [auto|].
    intros Heq. apply (Hrw c col); [now right | left | now symmetry].
Qed.

Lemma keeps_compute_component_zscores (zscore : list float -> list float) :
  keeps_columns (compute_component_zscores zscore).
Proof.
  unfold compute_component_zscores. apply keeps_for_each. intros col.
  apply keeps_bind; [auto with keeps|]. intros column. auto with keeps.
Qed.

Lemma compute_component_zscores_columns (zscore : list float -> list float)
    (st : Versioning) :
  is_Some (compute_component_zscores zscore st) <->
  forall col, col ∈ get_json_cols ->
    exists column,
      columns st !! col = Some column /\ length (zscore column) = nrows st.
Proof.
  destruct json_cols_zscore_names as [Hnd Hrw]. unfold compute_component_zscores.
  split.
  - intros [[[] st'] H] col Hcol.
    destruct (zscores_first_run zscore get_json_cols Hnd Hrw st st' H)
      as (_ & _ & Hcols).
    destruct (Hcols col Hcol) as (column & H1 & _ & H3).
    exists column. rewrite length_map in H3. auto.
  - intros Hcols.
    destruct (zscores_total zscore get_json_cols Hrw st Hcols) as [s' Hs'].
    rewrite Hs'. eauto.
Qed.

(** X16. [compute_component_zscores] returns exactly when each of the ten
    columns of [get_json_cols] exists and its z-scores have one entry per
    row; it raises when one of the columns is missing, as it is before
    [score] has run. *)
Theorem compute_component_zscores_returns (zscore : list float -> list float)
    (st : Versioning) :
  is_Some (compute_component_zscores zscore st) <->
  forall col, col ∈ get_json_cols ->
    exists column,
      columns st !! col = Some column /\ length (zscore column) = nrows st.
Proof. exact (compute_component_zscores_columns zscore st). Qed.

(** X17. The three calls that produce the versioning score, one after the
    other, never raise for frames in which every project of
    [self.versioning] has a row in [self.version] and all dates are in
    range, given a sort that permutes the rows and z-scores of the length
    of their column: the series are built, [score] returns one score per
    project and [compute_component_zscores] adds the z-score column of each
    of the ten columns of [get_json_cols]. *)
Theorem scoring_calls_return (np_log : float -> float)
    (zscore : list float -> list float)
    (sort_values : list VersionRow -> list VersionRow) (st : Versioning) :
  (forall l, sort_values l ≡ₚ l) ->
  (forall l, length (zscore l) = length l) ->
  (forall id, id ∈ map fst (versioning st) ->
     exists r, r ∈ version st /\ repository_id r = id) ->
  (forall r, r ∈ version st -> in_range (published_at r)) ->
  (forall row : Z * Timestamp, row ∈ versioning st -> in_range row.2) ->
  exists st1 scores st2 st3,
    _set_version_series sort_values st = Some (tt, st1) /\
    score np_log st1 = Some (scores, st2) /\
    compute_component_zscores zscore st2 = Some (tt, st3) /\
    length scores = length (versioning st) /\
    versioning st3 = versioning st /\
    forall col, col ∈ get_json_cols ->
      exists column,
        columns st3 !! col = Some column /\
        columns st3 !! (col +:+ "_zscore") = Some (map Np.round2 (zscore column)) /\
        length column = length (versioning st).
Proof.
  intros Hperm Hz Hall Hrows Hupd.
  destruct (set_version_series_run sort_values st Hperm) as [[_ Hsome] Hst1].
  destruct (Hsome Hall) as [[[] st1] H1].
  destruct (Hst1 st1 H1) as (_ & Hving1 & _).
  destruct (set_version_series_ready sort_values st st1 Hperm H1 Hrows Hupd) as [Hl Hr].
  destruct (score_total np_log st1 Hl Hr) as (scores & st2 & H2 & Lscores & _ & F2 & Hcols).
  assert (Hn2 : nrows st2 = length (versioning st)).
  { rewrite <- (frozen_eq_nrows _ _ F2). unfold nrows. now rewrite Hving1. }
  destruct (proj2 (compute_component_zscores_columns zscore st2)) as [[[] st3] H3].
  { intros col Hcol. destruct (Hcols col Hcol) as (column & Hc & Lc).
    exists column. rewrite Hz. auto. }
  exists st1, scores, st2, st3. split; [exact H1|]. split; [exact H2|].
  split; [exact H3|]. split; [unfold nrows in Lscores; congruence|].
  destruct json_cols_zscore_names as [Hnd Hrw].
  destruct (zscores_first_run zscore get_json_cols Hnd Hrw st2 st3 H3)
    as (Hn3 & Hframe & Hz3).
  split.
  - destruct (keeps_compute_component_zscores zscore _ _ _ H3) as [F3 _].
    rewrite <- (frozen_versioning _ _ F3), <- (frozen_versioning _ _ F2). exact Hving1.
  - intros col Hcol. destruct (Hz3 col Hcol) as (column & Hc1 & Hc2 & Hc3).
    exists column. split; [|split; [exact Hc2|]].
    + rewrite Hframe; [exact Hc1|]. intros Hin.
      apply list_elem_of_fmap in Hin as (c' & Heq & Hc'). exact (Hrw col c' Hcol Hc' Heq).
    + rewrite length_map, Hz in Hc3. congruence.
Qed.

Lemma zscore_omit_length (a : list float) : length (zscore_omit a) = length a.
Proof. unfold zscore_omit. cbv zeta. apply length_map. Qed.

Lemma example_object_rows (id : Z) :
  id ∈ map fst (versioning example_object) ->
  exists r, r ∈ version example_object /\ repository_id r = id.
Proof.
  unfold example_object, new_versioning, example_rows. cbn [versioning version map fst].
  rewrite !elem_of_cons, elem_of_nil. intros [->|[->|[]]].
  - exists (mkRow 1 "1.0.0" (Some 0%Z)). split; [left | reflexivity].
  - exists (mkRow 2 "0.1" (Some (10 * day)%Z)). split; [right; left | reflexivity].
Qed.

(** The three calls on the example object. *)
Lemma scoring_calls_return_witness :
  exists st1 scores st2 st3,
    _set_version_series sort_by_date example_object = Some (tt, st1) /\
    score ln st1 = Some (scores, st2) /\
    compute_component_zscores zscore_omit st2 = Some (tt, st3) /\
    length scores = length (versioning example_object) /\
    versioning st3 = versioning example_object /\
    forall col, col ∈ get_json_cols ->
      exists column,
        columns st3 !! col = Some column /\
        columns st3 !! (col +:+ "_zscore") = Some (map Np.round2 (zscore_omit column)) /\
        length column = length (versioning example_object).
Proof.
  apply (scoring_calls_return ln zscore_omit sort_by_date example_object
           sort_by_date_perm zscore_omit_length example_object_rows
           (proj1 example_object_in_range) (proj2 example_object_in_range)).
Defined.

(** ** The columns selected for the JSON *)

Lemma list_remove_sublist (c : string) (cols : list string) :
  forall cols', list_remove c cols = Some cols' -> cols' `sublist_of` cols.
Proof.
  induction cols as [|x rest IH]; intros cols' H; [discriminate|].
  simpl in H. destruct (String.eqb x c).
  - injection H as <-. now apply sublist_cons.
  - destruct (list_remove c rest) as [rest'|]; [|discriminate].
    injection H as <-. apply sublist_skip. now apply IH.
Qed.

Lemma filter_Forall_id {A : Type} (P : A -> Prop) `{!forall x, Decision (P x)}
    (l : list A) :
  Forall P l -> filter P l = l.
Proof.
  induction 1 as [|x l Hx Hl IH]; [reflexivity|].
  rewrite filter_cons, decide_True by assumption. now rewrite IH.
Qed.

Lemma list_remove_NoDup (c : string) (cols : list string) :
  NoDup cols ->
  match list_remove c cols with
  | Some cols' => cols' = filter (fun x => x <> c) cols
  | None => cols = filter (fun x => x <> c) cols
  end.
Proof.
  induction cols as [|x rest IH]; intros Hnd; [reflexivity|].
  apply NoDup_cons in Hnd as [Hx Hnd]. simpl. rewrite filter_cons.
  destruct (String.eqb_spec x c) as [->|Hne].
  - rewrite decide_False by tauto.
    symmetry. apply filter_Forall_id. 
    apply Forall_forall. intros y Hy ->. contradiction.
  - rewrite decide_True by assumption. specialize (IH Hnd).
    destruct (list_remove c rest) as [rest'|]; now rewrite <- IH.
Qed.

Lemma remove_all_sublist (unused cols : list string) :
  fold_left (fun cols c => match list_remove c cols with
                           | Some cols' => cols'
                           | None => cols
                           end) unused cols `sublist_of` cols.
Proof.
  revert cols. induction unused as [|c unused IH]; intros cols; [reflexivity|].
  simpl. etransitivity; [apply IH|].
  destruct (list_remove c cols) as [cols'|] eqn:E; [|reflexivity].
  exact (list_remove_sublist c cols cols' E).
Qed.

Lemma remove_all_NoDup (unused cols : list string) :
  NoDup cols ->
  fold_left (fun cols c => match list_remove c cols with
                           | Some cols' => cols'
                           | None => cols
                           end) unused cols
  = filter (fun x => x ∉ unused) cols.
Proof.
  revert cols. induction unused as [|c unused IH]; intros cols Hnd.
  - simpl. symmetry. apply filter_Forall_id. apply Forall_forall.
    intros x _ Hx. inversion Hx.
  - simpl.
    assert (Hstep : match list_remove c cols with
                    | Some cols' => cols'
                    | None => cols
                    end = filter (fun x => x <> c) cols).
    { pose proof (list_remove_NoDup c cols Hnd) as H.
      destruct (list_remove c cols); exact H. }
    rewrite Hstep, IH by now apply NoDup_filter.
    rewrite list_filter_filter. apply list_filter_iff.
    intros x. rewrite not_elem_of_cons. tauto.
Qed.

(** X18. [select_columns] returns columns of its argument in their order,
    none of them with "zscore" in its name.  When no name occurs twice, it
    returns exactly the columns that have no "zscore" in their name and are
    not in the list of unused columns; an unused name that occurs twice can
    stay: of "score", "patch_count", "score" the second "score" is kept. *)
Theorem select_columns_keeps (columns : list string) :
  select_columns columns `sublist_of` columns /\
  (forall c, c ∈ select_columns columns -> PyStr.contains "zscore" c = false) /\
  (NoDup columns ->
   select_columns columns =
     filter (fun c => (c ∉ unused_cols) /\ PyStr.contains "zscore" c = false) columns) /\
  select_columns ["score"; "patch_count"; "score"] = ["patch_count"; "score"].
Proof.
  unfold select_columns. cbv zeta. split; [|split; [|split]].
  - etransitivity; [apply remove_all_sublist | apply sublist_filter].
  - intros c Hc.
    pose proof (remove_all_sublist unused_cols
                  (filter (fun c => PyStr.contains "zscore" c = false) columns)) as Hsub.
    apply (elem_of_sublist _ _ _ Hc) in Hsub. apply list_elem_of_filter in Hsub. tauto.
  - intros Hnd. rewrite remove_all_NoDup by now apply NoDup_filter.
    now rewrite list_filter_filter.
  - vm_compute. reflexivity.
Qed.

(** ** What the results do not depend on *)

(** X19. [track_parallel_versions] depends on the given major tokens only
    as a set: two lists with the same members, in any order and with any
    repetitions, give the same result.  So the order in which
    [list(set(majors))] enumerates the tokens does not matter. *)
Theorem track_parallel_versions_order_free (date_series : list Event)
    (majors1 majors2 : list string) :
  (forall k, k ∈ majors1 <-> k ∈ majors2) ->
  track_parallel_versions date_series majors1 =
  track_parallel_versions date_series majors2.
Proof.
  intros Hsame. unfold track_parallel_versions.
  replace (list_to_map (map (fun k => (k, [])) majors1) : gmap string (list Event))
    with (list_to_map (map (fun k => (k, [])) majors2) : gmap string (list Event));
    [reflexivity|].
  apply map_eq. intros k. rewrite !empty_groups_lookup.
  destruct (decide (k ∈ majors2)) as [H2|H2], (decide (k ∈ majors1)) as [H1|H1];
    try reflexivity; exfalso; apply Hsame in H1 || apply Hsame in H2; contradiction.
Qed.

(** The majors of the docstring's timeline, in two orders. *)
Lemma track_parallel_versions_order_free_witness :
  track_parallel_versions
    (map (fun v => (None, FIRST, v) : Event) ["2.0.1"; "1.0.1"; "2.0.3"]) ["1"; "2"] =
  track_parallel_versions
    (map (fun v => (None, FIRST, v) : Event) ["2.0.1"; "1.0.1"; "2.0.3"]) ["2"; "1"; "2"].
Proof.
  apply track_parallel_versions_order_free.
  intros k. rewrite !elem_of_cons, !elem_of_nil. tauto.
Defined.

Lemma score_respects (np_log : float -> float) :
  exists K', respects [] K' (score np_log).
Proof.
  pose (W := "versioning_openteams_score" :: freq_cols ++ count_cols ++ meantime_cols).
  assert (HWc : forall k, k ∈ count_cols -> k ∈ W)
    by (intros k Hk; unfold W; rewrite elem_of_cons, !elem_of_app; auto).
  assert (HWm : forall k, k ∈ meantime_cols -> k ∈ W)
    by (intros k Hk; unfold W; rewrite elem_of_cons, !elem_of_app; auto).
  assert (HWf : forall k, k ∈ freq_cols -> k ∈ W)
    by (intros k Hk; unfold W; rewrite elem_of_cons, !elem_of_app; auto).
  eexists. refine (proj1 (_ : method [] _ W (score np_log))). unfold score.
  method_bind; [apply (method_number_version_score np_log [] W HWc)|].
  method_bind; [apply (method_version_meantime_score np_log _ W HWm)|].
  method_bind.
  { apply (method_version_frequency np_log _ W); [|exact HWc | exact HWf].
    intros k Hk. rewrite !elem_of_app. auto. }
  method_bind; [apply method_get_col; rewrite !elem_of_app; right; left;
                unfold meantime_cols; elem_of_cols|].
  method_bind; [apply method_get_col; rewrite !elem_of_app; left;
                unfold freq_cols; elem_of_cols|].
  cbv zeta.
  method_bind; [apply (method_number_version_score np_log _ W HWc)|].
  method_bind; [apply (method_version_meantime_score np_log _ W HWm)|].
  method_bind.
  { apply (method_version_frequency np_log _ W); [|exact HWc | exact HWf].
    intros k Hk. rewrite !elem_of_app. auto. }
  method_bind; [apply method_set_col; unfold W; left|].
  apply method_ret.
Qed.

(** X20. What [score] returns depends on the frames and the series only,
    not on the columns the object already has: from two objects with the
    same frames and series it returns the same scores, or raises for both.
    So calling [score] again on the object it left returns the same
    scores. *)
Theorem score_ignores_columns (np_log : float -> float) (s t : Versioning) :
  frozen_eq s t ->
  fst <$> score np_log s = fst <$> score np_log t /\
  forall (scores : list float) (s' : Versioning),
    score np_log s = Some (scores, s') -> fst <$> score np_log s' = Some scores.
Proof.
  intros Hst. destruct (score_respects np_log) as [K' Hr].
  assert (Hsame : forall a b, frozen_eq a b ->
                    fst <$> score np_log a = fst <$> score np_log b).
  { intros a b Hab.
    assert (Ha : agree [] a b) by (split; [exact Hab | intros k Hk; inversion Hk]).
    specialize (Hr a b Ha).
    destruct (score np_log a) as [[x a']|], (score np_log b) as [[y b']|];
      simpl in *; try contradiction; [|reflexivity].
    destruct Hr as [-> _]. reflexivity. }
  split; [now apply Hsame|]. intros scores s' Hrun.
  rewrite <- (Hsame s s' (proj1 (keeps_score np_log _ _ _ Hrun))).
  now rewrite Hrun.
Qed.

(** The example object before and after [score]. *)
Lemma score_ignores_columns_witness :
  fst <$> score ln example_loaded = fst <$> score ln example_scored /\
  forall (scores : list float) (s' : Versioning),
    score ln example_loaded = Some (scores, s') -> fst <$> score ln s' = Some scores.
Proof.
  apply score_ignores_columns.
  assert (H : exists scores, score ln example_loaded = Some (scores, example_scored))
    by (eexists; vm_compute; reflexivity).
  destruct H as [scores H]. exact (proj1 (keeps_score ln _ _ _ H)).
Defined.

(** ** The frequency of releases *)

Lemma get_age_run (row : Z * Timestamp) (st : Versioning) :
  loaded st -> dates_in_range st -> row ∈ versioning st ->
  get_age row st = Some (age_of st row, st).
Proof.
  intros Hl [Hrows Hr] Hrow.
  assert (Hid : row.1 ∈ map fst (versioning st)).
  { apply list_elem_of_fmap. eauto. }
  destruct (Hl row.1 Hid) as (series & par & Hs & Hne & _).
  destruct series as [|first series]; [contradiction|].
  unfold get_age, mbind, Py_bind, get_date_series, lift, age_of, series_of.
  rewrite Hs. cbn [lookup list_lookup default head].
  rewrite (ts_sub_in_range row.2 (ev_date first)).
  - reflexivity.
  - now apply Hrows.
  - apply (Hr row.1 (first :: series) first Hs). left.
Qed.

Lemma comprehension_map {A B : Type} (l : list A) (f : A -> Py B) (g : A -> B)
    (s : Versioning) :
  (forall x, x ∈ l -> f x s = Some (g x, s)) ->
  comprehension l f s = Some (map g l, s).
Proof.
  induction l as [|x l IH]; intros Hf; [reflexivity|].
  simpl. rewrite (bind_run _ _ _ _ _ (Hf x (list_elem_of_here _ _))).
  rewrite (bind_run _ _ _ _ _ (IH (fun y Hy => Hf y (list_elem_of_further _ _ _ Hy)))).
  reflexivity.
Qed.

Lemma version_frequency_run (np_log : float -> float) (st : Versioning)
    (cM cm cp : list float) :
  loaded st -> dates_in_range st ->
  is_Some (columns st !! "weighted_count") ->
  columns st !! "major_count" = Some cM -> length cM = nrows st ->
  columns st !! "minor_count" = Some cm -> length cm = nrows st ->
  columns st !! "patch_count" = Some cp -> length cp = nrows st ->
  exists st',
    version_frequency np_log st =
      Some (map Np.round2
              (zip_with (fun a b => s_shape (logscale np_log (a + b)))
                 (zip_with (fun c a => Np.round2 (c / (a / (365 / 3)))) cm
                    (map (age_of st) (versioning st)))
                 (zip_with (fun c a => Np.round2 (c / (a / (365 / 18)))) cp
                    (map (age_of st) (versioning st)))), st').
Proof.
  intros Hl Hr Hw HM LM Hm Lm Hp Lp. unfold version_frequency.
  assert (G0 : has_col "weighted_count" st =
               Some (bool_decide (is_Some (columns st !! "weighted_count")), st))
    by reflexivity.
  rewrite (bind_run _ _ _ _ _ G0), (bool_decide_eq_true_2 _ Hw). cbn [negb].
  assert (G1 : (mret tt : Py unit) st = Some (tt, st)) by reflexivity.
  rewrite (bind_run _ _ _ _ _ G1).
  assert (G2 : gets versioning st = Some (versioning st, st)) by reflexivity.
  rewrite (bind_run _ _ _ _ _ G2).
  rewrite (bind_run _ _ _ _ _
             (comprehension_map (versioning st) get_age (age_of st) st
                (fun row Hrow => get_age_run row st Hl Hr Hrow))).
  assert (Lages : length (map (age_of st) (versioning st)) = nrows st)
    by apply length_map.
  rewrite (bind_get_col _ _ _ _ HM).
  rewrite bind_set_col by (rewrite length_zip_with; lia).
  rewrite (bind_get_col _ cm)
    by (simpl; now rewrite lookup_insert_ne by discriminate).
  rewrite bind_set_col by (rewrite length_zip_with; unfold nrows in *; simpl; lia).
  rewrite (bind_get_col _ cp)
    by (simpl; now rewrite !lookup_insert_ne by discriminate).
  rewrite bind_set_col by (rewrite length_zip_with; unfold nrows in *; simpl; lia).
  rewrite (bind_get_col _ (zip_with (fun c a => Np.round2 (c / (a / (365 / 3)))) cm
                             (map (age_of st) (versioning st))))
    by (simpl; rewrite lookup_insert_ne by discriminate; now rewrite lookup_insert_eq).
  rewrite (bind_get_col _ (zip_with (fun c a => Np.round2 (c / (a / (365 / 18)))) cp
                             (map (age_of st) (versioning st))))
    by (simpl; now rewrite lookup_insert_eq).
  cbv zeta.
  rewrite bind_set_col
    by (rewrite length_map, !length_zip_with; unfold nrows in *; simpl; lia).
  unfold get_col. simpl columns. rewrite lookup_insert_eq. eauto.
Qed.

(** X21. On a loaded object with dates in range that has the count
    columns, [version_frequency] returns, for every project, the s-shaped
    log of the sum of its minor and patch frequencies, rounded to two
    places: the minor count over a third of the project's age in years and
    the patch count over an eighteenth, each rounded to two places, where
    the age runs from the first event of the series to the update date.
    The major count and the major frequency do not enter the result. *)
Theorem version_frequency_formula (np_log : float -> float) (st : Versioning)
    (cM cm cp : list float) :
  loaded st -> dates_in_range st ->
  is_Some (columns st !! "weighted_count") ->
  columns st !! "major_count" = Some cM -> length cM = nrows st ->
  columns st !! "minor_count" = Some cm -> length cm = nrows st ->
  columns st !! "patch_count" = Some cp -> length cp = nrows st ->
  exists freq st',
    version_frequency np_log st = Some (freq, st') /\
    length freq = nrows st /\
    forall (i : nat) (row : Z * Timestamp) (m p : float),
      versioning st !! i = Some row -> cm !! i = Some m -> cp !! i = Some p ->
      freq !! i =
        Some (Np.round2
                (s_shape
                   (logscale np_log
                      (Np.round2 (m / (age_of st row / (365 / 3))) +
                       Np.round2 (p / (age_of st row / (365 / 18))))))).
Proof.
  intros Hl Hr Hw HM LM Hm Lm Hp Lp.
  destruct (version_frequency_run np_log st cM cm cp Hl Hr Hw HM LM Hm Lm Hp Lp)
    as [st' Hrun].
  eexists _, st'. split; [exact Hrun|]. split.
  - rewrite length_map, !length_zip_with, length_map. unfold nrows in *. lia.
  - intros i row m p Hrow Hmi Hpi.
    rewrite list_lookup_fmap.
    assert (Hage : map (age_of st) (versioning st) !! i = Some (age_of st row)).
    { change (map (age_of st) (versioning st)) with (age_of st <$> versioning st).
      now rewrite list_lookup_fmap, Hrow. }
    erewrite (proj2 (lookup_zip_with_Some _ _ _ _ _)); [reflexivity|].
    eexists _, _. split; [reflexivity|]. split.
    + apply lookup_zip_with_Some. exists m, (age_of st row). auto.
    + apply lookup_zip_with_Some. exists p, (age_of st row). auto.
Qed.

Lemma example_scored_ready : loaded example_scored /\ dates_in_range example_scored.
Proof.
  assert (H : exists scores, score ln example_loaded = Some (scores, example_scored))
    by (eexists; vm_compute; reflexivity).
  destruct H as [scores H]. pose proof (proj1 (keeps_score ln _ _ _ H)) as F.
  destruct example_loaded_ready as [Hl Hr].
  split; [exact (loaded_frozen _ _ F Hl) | exact (dates_in_range_frozen _ _ F Hr)].
Qed.

(** The scored example object: project 1 has one release of each kind after
    its first, project 2 has none. *)
Lemma version_frequency_formula_witness :
  exists freq st',
    version_frequency ln example_scored = Some (freq, st') /\
    length freq = nrows example_scored /\
    forall (i : nat) (row : Z * Timestamp) (m p : float),
      versioning example_scored !! i = Some row ->
      [1%float; 0%float] !! i = Some m -> [1%float; 0%float] !! i = Some p ->
      freq !! i =
        Some (Np.round2
                (s_shape
                   (logscale ln
                      (Np.round2 (m / (age_of example_scored row / (365 / 3))) +
                       Np.round2 (p / (age_of example_scored row / (365 / 18))))))).
Proof.
  apply (version_frequency_formula ln example_scored [1%float; 0%float]);
    [exact (proj1 example_scored_ready) | exact (proj2 example_scored_ready)
    | vm_compute; eauto | vm_compute; reflexivity ..].
Defined.
